(** * Matrica Networks backend: authentication, rate limiting, audit log and
      request screening

    A shallow embedding of [backend/auth.py] and of the security middleware of
    [backend/middleware.py], with the properties of the authentication core
    stated and proved over it.

    Conventions of the embedding.
    - A Python [str] is a list of Unicode code points ([pystr]); a Python
      [bytes] is a list of [byte].  What [str] methods and [re] classes do
      outside ASCII is a parameter ([UnicodeData]).
    - [hashlib.pbkdf2_hmac('sha256', ...)] is written out (FIPS 180-4,
      RFC 2104, RFC 8018) and is the instance [rfc8018] of the interface
      [Hashlib] the service is written against.
    - A reading of [datetime.now()], a draw from [secrets] and the fate of an
      audit write are arguments of the function that makes them.
    - A Python call is a function from a [world] to what it returns or raises
      and the world it leaves.  Every table of the SQLite file is a field of
      [world]; each statement run on a connection, each key derivation and
      each line sent to the logger is appended to [trace], so that "no query
      was issued" can be stated. *)

From Stdlib Require Import NArith ZArith List String Ascii Bool Lia.
From Stdlib.Strings Require Import Byte.
From stdpp Require Import base option list gmap strings.

Local Open Scope N_scope.

Abbreviation bytes := (list byte).

(** ** Bytes and 32-bit words *)

Definition byte_of_N (n : N) : byte :=
  match Byte.of_N (n mod 256) with Some b => b | None => x00 end.

Definition byte_xor (a b : byte) : byte :=
  byte_of_N (N.lxor (Byte.to_N a) (Byte.to_N b)).

Fixpoint bytes_xor (a b : bytes) : bytes :=
  match a, b with
  | x :: a', y :: b' => byte_xor x y :: bytes_xor a' b'
  | _, _ => []
  end.

Fixpoint bytes_eqb (a b : bytes) : bool :=
  match a, b with
  | [], [] => true
  | x :: a', y :: b' => Byte.eqb x y && bytes_eqb a' b'
  | _, _ => false
  end.

(** ** SHA-256 (FIPS 180-4), as [hashlib] computes it *)

Module SHA256.

Definition mask32 : N := 0xFFFFFFFF.
Definition w32 (x : N) : N := N.land x mask32.
Definition add32 (x y : N) : N := w32 (x + y).
Definition not32 (x : N) : N := N.lxor (w32 x) mask32.
Definition rotr (n x : N) : N :=
  N.lor (N.shiftr x n) (w32 (N.shiftl x (32 - n))).

Definition Ch (x y z : N) : N := N.lxor (N.land x y) (N.land (not32 x) z).
Definition Maj (x y z : N) : N :=
  N.lxor (N.lxor (N.land x y) (N.land x z)) (N.land y z).
Definition bsig0 (x : N) : N := N.lxor (N.lxor (rotr 2 x) (rotr 13 x)) (rotr 22 x).
Definition bsig1 (x : N) : N := N.lxor (N.lxor (rotr 6 x) (rotr 11 x)) (rotr 25 x).
Definition ssig0 (x : N) : N := N.lxor (N.lxor (rotr 7 x) (rotr 18 x)) (N.shiftr x 3).
Definition ssig1 (x : N) : N := N.lxor (N.lxor (rotr 17 x) (rotr 19 x)) (N.shiftr x 10).

(** A table of 32-bit words, written as the standard prints it: eight
    hexadecimal digits a word. *)
Definition nibble (a : ascii) : option N :=
  let n := N_of_ascii a in
  if (48 <=? n) && (n <=? 57) then Some (n - 48)
  else if (97 <=? n) && (n <=? 102) then Some (n - 87)
  else None.

Fixpoint words_of_hex (s : string) (acc : N) (count : nat) : list N :=
  match s with
  | EmptyString => []
  | String a rest =>
      match nibble a with
      | Some d =>
          if Nat.eqb count 7 then (16 * acc + d) :: words_of_hex rest 0 0
          else words_of_hex rest (16 * acc + d) (S count)
      | None => words_of_hex rest acc count
      end
  end.

(** The first 32 bits of the fractional parts of the cube roots of the
    first sixty-four primes. *)
Definition K : list N :=
  words_of_hex
    "428a2f98 71374491 b5c0fbcf e9b5dba5 3956c25b 59f111f1 923f82a4 ab1c5ed5
     d807aa98 12835b01 243185be 550c7dc3 72be5d74 80deb1fe 9bdc06a7 c19bf174
     e49b69c1 efbe4786 0fc19dc6 240ca1cc 2de92c6f 4a7484aa 5cb0a9dc 76f988da
     983e5152 a831c66d b00327c8 bf597fc7 c6e00bf3 d5a79147 06ca6351 14292967
     27b70a85 2e1b2138 4d2c6dfc 53380d13 650a7354 766a0abb 81c2c92e 92722c85
     a2bfe8a1 a81a664b c24b8b70 c76c51a3 d192e819 d6990624 f40e3585 106aa070
     19a4c116 1e376c08 2748774c 34b0bcb5 391c0cb3 4ed8aa4a 5b9cca4f 682e6ff3
     748f82ee 78a5636f 84c87814 8cc70208 90befffa a4506ceb bef9a3f7 c67178f2"
    0 0.

(** The eight working variables a..h, also the chaining value. *)
Record state := State { sa : N; sb : N; sc : N; sd : N; se : N; sf : N; sg : N; sh : N }.

Definition H0 : state :=
  State 0x6a09e667 0xbb67ae85 0x3c6ef372 0xa54ff53a 0x510e527f 0x9b05688c 0x1f83d9ab 0x5be0cd19.

(** Big-endian conversions. *)
Definition word_of_bytes (b0 b1 b2 b3 : byte) : N :=
  N.lor (N.shiftl (Byte.to_N b0) 24)
    (N.lor (N.shiftl (Byte.to_N b1) 16)
       (N.lor (N.shiftl (Byte.to_N b2) 8) (Byte.to_N b3))).

Definition bytes_of_word (w : N) : bytes :=
  [byte_of_N (N.shiftr w 24); byte_of_N (N.shiftr w 16); byte_of_N (N.shiftr w 8); byte_of_N w].

Definition bytes_of_len64 (bits : N) : bytes :=
  bytes_of_word (N.shiftr bits 32) ++ bytes_of_word bits.

(** Padding: the bit 1, zeros up to 56 mod 64, the bit length on 64 bits. *)
Definition pad (msg : bytes) : bytes :=
  let len := N.of_nat (length msg) in
  let zeros := (64 + 55 - len mod 64) mod 64 in
  msg ++ x80 :: repeat x00 (N.to_nat zeros) ++ bytes_of_len64 (8 * len).

Fixpoint words_of_bytes (bs : bytes) : list N :=
  match bs with
  | b0 :: b1 :: b2 :: b3 :: rest => word_of_bytes b0 b1 b2 b3 :: words_of_bytes rest
  | _ => []
  end.

(** Message schedule: [win] holds the sixteen most recent words, oldest first. *)
Fixpoint schedule (n : nat) (win : list N) : list N :=
  match n with
  | O => []
  | S n' =>
      let w := add32 (add32 (ssig1 (nth 14 win 0)) (nth 9 win 0))
                     (add32 (ssig0 (nth 1 win 0)) (nth 0 win 0)) in
      w :: schedule n' (tl win ++ [w])
  end.

Definition round (s : state) (kw : N * N) : state :=
  let '(k, w) := kw in
  let t1 := add32 (add32 (add32 (sh s) (bsig1 (se s))) (add32 (Ch (se s) (sf s) (sg s)) k)) w in
  let t2 := add32 (bsig0 (sa s)) (Maj (sa s) (sb s) (sc s)) in
  State (add32 t1 t2) (sa s) (sb s) (sc s) (add32 (sd s) t1) (se s) (sf s) (sg s).

Definition compress (h : state) (block : list N) : state :=
  let w := block ++ schedule 48 block in
  let s := fold_left round (combine K w) h in
  State (add32 (sa h) (sa s)) (add32 (sb h) (sb s)) (add32 (sc h) (sc s)) (add32 (sd h) (sd s))
        (add32 (se h) (se s)) (add32 (sf h) (sf s)) (add32 (sg h) (sg s)) (add32 (sh h) (sh s)).

(** One 512-bit block (sixteen words) at a time. *)
Fixpoint blocks (n : nat) (ws : list N) (h : state) : state :=
  match n with
  | O => h
  | S n' => blocks n' (skipn 16 ws) (compress h (firstn 16 ws))
  end.

Definition digest_of_state (s : state) : bytes :=
  bytes_of_word (sa s) ++ bytes_of_word (sb s) ++ bytes_of_word (sc s) ++ bytes_of_word (sd s) ++
  bytes_of_word (se s) ++ bytes_of_word (sf s) ++ bytes_of_word (sg s) ++ bytes_of_word (sh s).

Definition sha256 (msg : bytes) : bytes :=
  let ws := words_of_bytes (pad msg) in
  digest_of_state (blocks (Nat.div (length ws) 16) ws H0).

Definition block_size : nat := 64.
Definition digest_size : nat := 32.

End SHA256.

(** ** HMAC (RFC 2104) and PBKDF2 (RFC 8018) over SHA-256 *)

Definition hmac_key_block (key : bytes) : bytes :=
  let k0 := if Nat.ltb SHA256.block_size (length key) then SHA256.sha256 key else key in
  k0 ++ repeat x00 (SHA256.block_size - length k0).

Definition hmac_sha256 (key msg : bytes) : bytes :=
  let kb := hmac_key_block key in
  SHA256.sha256 (map (byte_xor x5c) kb ++ SHA256.sha256 (map (byte_xor x36) kb ++ msg)).

(** [hashlib.pbkdf2_hmac('sha256', password, salt, iterations)] with the
    default [dklen], the digest size: a single block [T_1 = U_1 xor ... xor U_c]. *)
Definition pbkdf2_hmac_sha256 (password salt : bytes) (iterations : positive) : bytes :=
  let u1 := hmac_sha256 password (salt ++ [x00; x00; x00; x01]) in
  snd (N.iter (Pos.pred_N iterations)
         (fun ut : bytes * bytes =>
            let u' := hmac_sha256 password (fst ut) in (u', bytes_xor (snd ut) u'))
         (u1, u1)).
Arguments pbkdf2_hmac_sha256 : simpl never.

(** [hashlib] as the program sees it: the one function it calls, with the
    algorithm name fixed to ['sha256'].  [rfc8018] is the real one. *)
Class Hashlib := pbkdf2_hmac : bytes -> bytes -> positive -> bytes.

Definition rfc8018 : Hashlib := pbkdf2_hmac_sha256.

Definition bytes_of_string (s : string) : bytes := map byte_of_ascii (list_ascii_of_string s).

(** ** Python strings *)

(** A [str] is a sequence of code points; literals of the program are written
    as Rocq strings and read one character per code point. *)
Abbreviation pystr := (list N).

Definition py (s : string) : pystr := map N_of_ascii (list_ascii_of_string s).

Definition is_ascii (c : N) : bool := c <? 128.

(** What [str.lower], [str.isupper], ... and the character classes of [re] do
    outside ASCII comes from the Unicode database of the interpreter: it is a
    parameter.  On ASCII the functions below are written out. *)
Class UnicodeData := {
  uni_lower : pystr -> pystr;
  uni_upper : pystr -> pystr;
  uni_isupper : N -> bool;
  uni_islower : N -> bool;
  uni_isdigit : N -> bool;
  uni_isword : N -> bool;
  uni_isdecimal : N -> bool;
  uni_isspace : N -> bool;
  uni_ignorecase_eq : N -> N -> bool;
  int_of_str : pystr -> option Z
}.

(** The smallest database: no letter, digit or space outside ASCII. *)
Definition ascii_only : UnicodeData :=
  {| uni_lower := fun s => s; uni_upper := fun s => s;
     uni_isupper := fun _ => false; uni_islower := fun _ => false;
     uni_isdigit := fun _ => false; uni_isword := fun _ => false;
     uni_isdecimal := fun _ => false; uni_isspace := fun _ => false;
     uni_ignorecase_eq := N.eqb; int_of_str := fun _ => None |}.

Definition between (lo hi c : N) : bool := (lo <=? c) && (c <=? hi).

Definition ascii_lower (c : N) : N := if between 65 90 c then c + 32 else c.
Definition ascii_upper (c : N) : N := if between 97 122 c then c - 32 else c.

Section Str.
Context {U : UnicodeData}.

Definition str_lower (s : pystr) : pystr :=
  if forallb is_ascii s then map ascii_lower s else uni_lower s.
Definition str_upper (s : pystr) : pystr :=
  if forallb is_ascii s then map ascii_upper s else uni_upper s.

Definition isupper (c : N) : bool := if is_ascii c then between 65 90 c else uni_isupper c.
Definition islower (c : N) : bool := if is_ascii c then between 97 122 c else uni_islower c.
Definition isdigit (c : N) : bool := if is_ascii c then between 48 57 c else uni_isdigit c.
End Str.

Definition str_eqb (a b : pystr) : bool := bool_decide (a = b).

Fixpoint starts_with (p s : pystr) : bool :=
  match p, s with
  | [], _ => true
  | x :: p', y :: s' => (x =? y) && starts_with p' s'
  | _ :: _, [] => false
  end.

(** [p in s] for two strings. *)
Fixpoint str_contains (p s : pystr) : bool :=
  starts_with p s || match s with [] => false | _ :: s' => str_contains p s' end.

(** [str.encode('utf-8')]; [None] is [UnicodeEncodeError] (a lone surrogate). *)
Definition utf8_char (c : N) : option bytes :=
  if c <? 0x80 then Some [byte_of_N c]
  else if c <? 0x800 then Some [byte_of_N (0xC0 + c / 64); byte_of_N (0x80 + c mod 64)]
  else if c <? 0x10000 then
    if between 0xD800 0xDFFF c then None
    else Some [byte_of_N (0xE0 + c / 4096); byte_of_N (0x80 + (c / 64) mod 64);
               byte_of_N (0x80 + c mod 64)]
  else if c <? 0x110000 then
    Some [byte_of_N (0xF0 + c / 262144); byte_of_N (0x80 + (c / 4096) mod 64);
          byte_of_N (0x80 + (c / 64) mod 64); byte_of_N (0x80 + c mod 64)]
  else None.

Fixpoint encode_utf8 (s : pystr) : option bytes :=
  match s with
  | [] => Some []
  | c :: r =>
      match utf8_char c, encode_utf8 r with
      | Some b, Some br => Some (b ++ br)
      | _, _ => None
      end
  end.

(** [bytes.hex()] and [bytes.fromhex(str)]; [None] is [ValueError]. *)
Definition hex_digit (n : N) : N := if n <? 10 then 48 + n else 87 + n.

Definition hex (bs : bytes) : pystr :=
  flat_map (fun b => [hex_digit (Byte.to_N b / 16); hex_digit (Byte.to_N b mod 16)]) bs.

Definition hex_value (c : N) : option N :=
  if between 48 57 c then Some (c - 48)
  else if between 97 102 c then Some (c - 87)
  else if between 65 70 c then Some (c - 55)
  else None.

Definition is_ascii_space (c : N) : bool := (c =? 32) || between 9 13 c.

Fixpoint fromhex (s : pystr) : option bytes :=
  match s with
  | [] => Some []
  | c :: r =>
      if is_ascii_space c then fromhex r
      else match r with
           | d :: r' =>
               match hex_value c, hex_value d, fromhex r' with
               | Some hi, Some lo, Some rest => Some (byte_of_N (16 * hi + lo) :: rest)
               | _, _, _ => None
               end
           | [] => None
           end
  end.

Local Close Scope N_scope.
Local Open Scope Z_scope.

(** ** Python values, rows and dictionaries *)

(** A [datetime] is its number of microseconds on the time line;
    [PyTime t] is the text [t.isoformat()], which [datetime.fromisoformat]
    reads back as [t]. *)
#[warnings="-register-all"]
Inductive pyval :=
| PyNone
| PyBool (b : bool)
| PyInt (z : Z)
| PyStr (s : pystr)
| PyBytes (b : bytes)
| PyTime (t : Z)
| PyList (l : list pyval).

(** [bool(v)], what [if v] and [not v] test. *)
Definition truthy (v : pyval) : bool :=
  match v with
  | PyNone => false
  | PyBool b => b
  | PyInt z => negb (z =? 0)
  | PyStr s => match s with [] => false | _ => true end
  | PyBytes b => match b with [] => false | _ => true end
  | PyTime _ => true
  | PyList l => match l with [] => false | _ => true end
  end.

(** A [dict] with literal keys, and a [sqlite3.Row]: the columns of the result
    in order.  [row[name]] is the value of the FIRST column of that name. *)
Abbreviation pydict := (list (string * pyval)).
Abbreviation row := (list (string * pyval)).

Fixpoint row_get (name : string) (r : row) : option pyval :=
  match r with
  | [] => None
  | (n, v) :: r' => if String.eqb n name then Some v else row_get name r'
  end.

Definition of_bool (b : bool) : pyval := PyInt (if b then 1 else 0).
Definition of_opt_time (t : option Z) : pyval :=
  match t with Some x => PyTime x | None => PyNone end.
Definition of_opt_str (s : option pystr) : pyval :=
  match s with Some x => PyStr x | None => PyNone end.

(** ** SecurityConfig *)

Module SecurityConfig.
Definition HASH_ITERATIONS : positive := 100000.
Definition SALT_LENGTH : nat := 32.
Definition SESSION_TOKEN_LENGTH : nat := 64.
Definition SESSION_EXPIRY_HOURS : Z := 8.
Definition SESSION_REMEMBER_HOURS : Z := 168.
Definition MAX_LOGIN_ATTEMPTS : Z := 5.
Definition LOCKOUT_DURATION_MINUTES : Z := 15.
End SecurityConfig.

(** [timedelta(minutes=m)] and [timedelta(hours=h)] in microseconds. *)
Definition minutes (m : Z) : Z := m * 60000000.
Definition hours (h : Z) : Z := h * 3600000000.

(** ** The database file *)

(** Table [rate_limits], keyed by its primary key [identifier]. *)
Record rate_limit := {
  attempts : Z;
  first_attempt : option Z;
  last_attempt : option Z;
  locked_until : option Z
}.

(** A column declared [TEXT NOT NULL] holds a text or, when bytes were bound
    to it, a blob. *)
Inductive text_or_blob :=
| Text (s : pystr)
| Blob (b : bytes).

(** Table [users]: the columns [auth.py] reads or writes.  [password_hash] and
    [salt] hold a text (hexadecimal) or a blob, the program accepts both. *)
Record user := {
  user_id : Z;
  username : pystr;
  email : pystr;
  password_hash : text_or_blob;
  salt : text_or_blob;
  role : pystr;
  user_is_active : bool;
  password_changed_at : option Z
}.

(** Table [user_sessions], keyed by its [UNIQUE] column [session_token]. *)
Record session := {
  session_id : Z;
  session_user_id : Z;
  expires_at : Z;
  created_at : Z;
  session_client_ip : option pystr;
  session_user_agent : option pystr;
  session_is_active : bool
}.

(** Table [audit_logs]. *)
Record audit_event := {
  timestamp : Z;
  event_type : string;
  audit_user_id : option Z;
  audit_username : option pystr;
  audit_client_ip : option pystr;
  audit_user_agent : option pystr;
  details : option pydict;
  success : bool
}.

(** Table [audit_log], written by [models.AuditLog.log]. *)
Record audit_entry := {
  entry_user_id : option Z;
  action : string;
  resource_type : option pystr;
  resource_id : option pystr;
  entry_details : option pystr;
  ip_address : option pystr;
  entry_user_agent : option pystr;
  entry_created_at : Z
}.

(** The statements of the program, one constructor per SQL text. *)
Inductive statement :=
| SelectRateLimit | ResetRateLimit | DeleteRateLimit | UpdateRateLimit | InsertRateLimit
| InsertAuditLog | InsertAuditEntry
| SelectUserByName | SelectUserById | UpdateUserPassword
| InsertSession | SelectSessionJoinUser | SelectActiveSession
| DeactivateSession | DeactivateUserSessions | DeactivateExpiredSessions.

Inductive level := Info | Warning | Error.

(** What a run leaves behind besides the tables. *)
Inductive effect :=
| Sql (s : statement)      (* [conn.execute] of that statement *)
| Kdf                      (* a call of [hashlib.pbkdf2_hmac] *)
| Logged (l : level).      (* a line sent to [logger] *)

Record world := World {
  users : list user;
  user_sessions : gmap pystr session;
  session_seq : Z;                       (* last AUTOINCREMENT id of user_sessions *)
  rate_limits : gmap pystr rate_limit;
  audit_logs : list audit_event;
  audit_log : list audit_entry;
  db_clock : Z;                          (* what CURRENT_TIMESTAMP evaluates to *)
  trace : list effect
}.

Definition set_users (f : list user -> list user) (w : world) : world :=
  World (f (users w)) (user_sessions w) (session_seq w) (rate_limits w) (audit_logs w)
        (audit_log w) (db_clock w) (trace w).
Definition set_user_sessions (f : gmap pystr session -> gmap pystr session) (w : world) : world :=
  World (users w) (f (user_sessions w)) (session_seq w) (rate_limits w) (audit_logs w)
        (audit_log w) (db_clock w) (trace w).
Definition set_session_seq (f : Z -> Z) (w : world) : world :=
  World (users w) (user_sessions w) (f (session_seq w)) (rate_limits w) (audit_logs w)
        (audit_log w) (db_clock w) (trace w).
Definition set_rate_limits (f : gmap pystr rate_limit -> gmap pystr rate_limit) (w : world) : world :=
  World (users w) (user_sessions w) (session_seq w) (f (rate_limits w)) (audit_logs w)
        (audit_log w) (db_clock w) (trace w).
Definition set_audit_logs (f : list audit_event -> list audit_event) (w : world) : world :=
  World (users w) (user_sessions w) (session_seq w) (rate_limits w) (f (audit_logs w))
        (audit_log w) (db_clock w) (trace w).
Definition set_audit_log (f : list audit_entry -> list audit_entry) (w : world) : world :=
  World (users w) (user_sessions w) (session_seq w) (rate_limits w) (audit_logs w)
        (f (audit_log w)) (db_clock w) (trace w).
Definition set_trace (f : list effect -> list effect) (w : world) : world :=
  World (users w) (user_sessions w) (session_seq w) (rate_limits w) (audit_logs w)
        (audit_log w) (db_clock w) (f (trace w)).

(** ** Exceptions and state *)

Inductive exn :=
| IntegrityError | OperationalError | OverflowError
| ValueError | TypeError | IndexError | KeyError | UnicodeEncodeError.

Inductive outcome (A : Type) :=
| Returned (a : A)
| Raised (e : exn).
Arguments Returned {A} a.
Arguments Raised {A} e.

(** [str(e)]: the message an exception carries is the library's. *)
Class ExceptionText := exception_text : exn -> pystr.

(** A Python call: it returns or raises, and leaves a world. *)
Definition M (A : Type) : Type := world -> outcome A * world.

Definition ret {A} (a : A) : M A := fun w => (Returned a, w).
Definition raise {A} (e : exn) : M A := fun w => (Raised e, w).
Definition bind {A B} (m : M A) (k : A -> M B) : M B :=
  fun w => match m w with
           | (Returned a, w') => k a w'
           | (Raised e, w') => (Raised e, w')
           end.

(** [try: body / except Exception as e: handler e]. *)
Definition try_except {A} (body : M A) (handler : exn -> M A) : M A :=
  fun w => match body w with
           | (Returned a, w') => (Returned a, w')
           | (Raised e, w') => handler e w'
           end.

Definition emit (e : effect) : M unit := fun w => (Returned tt, set_trace (fun t => t ++ [e]) w).
Definition reads {A} (f : world -> A) : M A := fun w => (Returned (f w), w).
Definition writes (f : world -> world) : M unit := fun w => (Returned tt, f w).

#[global] Instance M_ret : MRet M := @ret.
#[global] Instance M_bind : MBind M := fun A B k m => bind m k.

(** [cursor = conn.execute(SELECT ...)] and [conn.execute(...); conn.commit()]. *)
Definition query {A} (s : statement) (f : world -> A) : M A := emit (Sql s) ;; reads f.
Definition execute (s : statement) (f : world -> world) : M unit := emit (Sql s) ;; writes f.
Definition logger (l : level) : M unit := emit (Logged l).

Definition result_of {A} (r : outcome A * world) : outcome A := fst r.
Definition world_of {A} (r : outcome A * world) : world := snd r.

(** ** RateLimiter *)

Module RateLimiter.
Import SecurityConfig.

Definition cleared : rate_limit :=
  {| attempts := 0; first_attempt := None; last_attempt := None; locked_until := None |}.

(** [record['locked_until'] and datetime.fromisoformat(record['locked_until']) > current_time] *)
Definition lock_pending (r : rate_limit) (current_time : Z) : bool :=
  match locked_until r with Some t => current_time <? t | None => false end.
(** [record['locked_until'] and datetime.fromisoformat(record['locked_until']) <= current_time] *)
Definition lock_elapsed (r : rate_limit) (current_time : Z) : bool :=
  match locked_until r with Some t => t <=? current_time | None => false end.

(** [int(time_remaining.total_seconds() / 60)]; the source divides in
    floating point, the quotient here is the exact one. *)
Definition time_remaining_minutes (r : rate_limit) (current_time : Z) : Z :=
  match locked_until r with Some t => Z.quot (t - current_time) 60000000 | None => 0 end.

Definition check_rate_limit (current_time : Z) (identifier : pystr) : M pydict :=
  record ← query SelectRateLimit (fun w => rate_limits w !! identifier);
  match record with
  | None => mret [("allowed"%string, PyBool true); ("attempts"%string, PyInt 0)]
  | Some r =>
      if lock_pending r current_time then
        mret [("allowed"%string, PyBool false); ("attempts"%string, PyInt (attempts r));
              ("locked_until"%string, of_opt_time (locked_until r));
              ("time_remaining_minutes"%string, PyInt (time_remaining_minutes r current_time))]
      else if lock_elapsed r current_time then
        execute ResetRateLimit (set_rate_limits (alter (fun _ => cleared) identifier)) ;;
        mret [("allowed"%string, PyBool true); ("attempts"%string, PyInt 0)]
      else
        mret [("allowed"%string, PyBool (attempts r <? MAX_LOGIN_ATTEMPTS));
              ("attempts"%string, PyInt (attempts r))]
  end.

(** An SQLite INTEGER has 64 bits: binding a larger [int] raises. *)
Definition sqlite_int_max : Z := 9223372036854775807.

Definition record_attempt (current_time : Z) (identifier : pystr) (success : bool) : M unit :=
  if success then
    execute DeleteRateLimit (set_rate_limits (delete identifier))
  else
    record ← query SelectRateLimit (fun w => rate_limits w !! identifier);
    match record with
    | Some r =>
        let new_attempts := attempts r + 1 in
        let locked :=
          if MAX_LOGIN_ATTEMPTS <=? new_attempts
          then Some (current_time + minutes LOCKOUT_DURATION_MINUTES) else None in
        if sqlite_int_max <? new_attempts then raise OverflowError
        else
          execute UpdateRateLimit
            (set_rate_limits
               (alter (fun old => {| attempts := new_attempts; first_attempt := first_attempt old;
                                     last_attempt := Some current_time; locked_until := locked |})
                      identifier))
    | None =>
        execute InsertRateLimit
          (set_rate_limits
             (insert identifier {| attempts := 1; first_attempt := Some current_time;
                                   last_attempt := Some current_time; locked_until := None |}))
    end.

End RateLimiter.

(** ** Reachable states of the rate limiter *)

(** One call of either operation of [RateLimiter], at any time, for any
    identifier. *)
Inductive limiter_step : world -> world -> Prop :=
| step_check current_time identifier w :
    limiter_step w (world_of (RateLimiter.check_rate_limit current_time identifier w))
| step_record current_time identifier ok w :
    limiter_step w (world_of (RateLimiter.record_attempt current_time identifier ok w)).

Inductive limiter_reachable : world -> Prop :=
| reach_empty w : rate_limits w = ∅ -> limiter_reachable w
| reach_step w w' : limiter_reachable w -> limiter_step w w' -> limiter_reachable w'.

(** [locked_until] is set only on a counter that reached the maximum. *)
Definition lock_invariant (w : world) : Prop :=
  forall identifier r,
    rate_limits w !! identifier = Some r ->
    is_Some (locked_until r) -> SecurityConfig.MAX_LOGIN_ATTEMPTS <= attempts r.

(** Five failed attempts in a row, at the times [t1] ... [t5]. *)
Definition five_failures (t1 t2 t3 t4 t5 : Z) (identifier : pystr) : M unit :=
  RateLimiter.record_attempt t1 identifier false ;;
  RateLimiter.record_attempt t2 identifier false ;;
  RateLimiter.record_attempt t3 identifier false ;;
  RateLimiter.record_attempt t4 identifier false ;;
  RateLimiter.record_attempt t5 identifier false.

(** ** PasswordPolicy *)

Notation "k ~> v" := (@pair string pyval k%string v) (at level 70, no associativity).

Definition str_in (s : pystr) (l : list pystr) : bool := existsb (str_eqb s) l.

Section PasswordPolicy.
Context {U : UnicodeData}.

Record validation := { valid : bool; errors : list string; strength : string }.

Definition special_characters : pystr := py "!@#$%^&*()_+-=[]{}|;:,.<>?".

Definition _calculate_strength (password : pystr) : string :=
  let score := Z.min (Z.of_nat (length password)) 25 in
  let score := if existsb isupper password then score + 6 else score in
  let score := if existsb islower password then score + 6 else score in
  let score := if existsb isdigit password then score + 6 else score in
  let score := if existsb (fun c => existsb (N.eqb c) special_characters) password
               then score + 6 else score in
  let score := if str_contains (str_lower password) password
                  || str_contains (str_upper password) password
               then score - 10 else score in
  if score <? 20 then "weak"%string
  else if score <? 35 then "medium"%string
  else "strong"%string.

Definition common_passwords : list pystr :=
  [py "password"; py "123456"; py "qwerty"; py "admin"; py "letmein"].

Definition validate_password (password : pystr) : validation :=
  let errors :=
    (if Z.of_nat (length password) <? 8
     then ["Password must be at least 8 characters long"%string] else []) ++
    (if 128 <? Z.of_nat (length password)
     then ["Password must be less than 128 characters"%string] else []) ++
    (if negb (existsb isupper password)
     then ["Password must contain at least one uppercase letter"%string] else []) ++
    (if negb (existsb islower password)
     then ["Password must contain at least one lowercase letter"%string] else []) ++
    (if negb (existsb isdigit password)
     then ["Password must contain at least one number"%string] else []) ++
    (if str_in (str_lower password) common_passwords
     then ["Password is too common"%string] else []) in
  {| valid := match errors with [] => true | _ => false end;
     errors := errors;
     strength := _calculate_strength password |}.
End PasswordPolicy.

(** ** AuditLogger *)

(** [write_fails] tells whether opening the connection, the INSERT or the
    commit raises: the whole [with] block then leaves no row. *)
Definition log_event (write_fails : bool) (event_type : string) (user_id : option Z)
    (username client_ip user_agent : option pystr) (details : pydict) (success : bool) : M unit :=
  try_except
    ((if write_fails then raise OperationalError
      else
        now ← reads db_clock;
        execute InsertAuditLog
          (set_audit_logs (fun l => l ++
             [{| timestamp := now; event_type := event_type; audit_user_id := user_id;
                 audit_username := username; audit_client_ip := client_ip;
                 audit_user_agent := user_agent;
                 details := match details with [] => None | _ => Some details end;
                 success := success |}]))) ;;
     logger Info)
    (fun _ => logger Error).

(** ** AuthService *)

Section AuthService.
Context {U : UnicodeData} {X : ExceptionText} {HL : Hashlib}.
Import SecurityConfig.

(** [fresh] is what [secrets.token_bytes(SALT_LENGTH)] returns if it is called. *)
Definition _hash_password (fresh : bytes) (password : pystr) (salt : option bytes)
  : M (bytes * bytes) :=
  let salt := match salt with None => fresh | Some s => s end in
  match encode_utf8 password with
  | None => raise UnicodeEncodeError
  | Some pw =>
      emit Kdf ;;
      mret (pbkdf2_hmac pw salt HASH_ITERATIONS, salt)
  end.

(** [hmac.compare_digest] on two [bytes] is their equality. *)
Definition _verify_password (password : pystr) (stored_hash salt : bytes) : M bool :=
  hs ← _hash_password [] password (Some salt);
  mret (bytes_eqb (fst hs) stored_hash).

(** [bytes.fromhex(v) if isinstance(v, str) else v] *)
Definition hex_or_bytes (v : text_or_blob) : M bytes :=
  match v with
  | Text s => match fromhex s with Some b => mret b | None => raise ValueError end
  | Blob b => mret b
  end.

(** [d[key]] *)
Definition item (key : string) (d : pydict) : M pyval :=
  match row_get key d with Some v => mret v | None => raise KeyError end.

(** [t_check] and [t_record] are the readings of [datetime.now()] in
    [check_rate_limit] and in [record_attempt]; [audit_fails] the fate of
    the audit record of this call.  The limiter and the audit logger write
    through connections of their own while the connection of this function
    is open: the three are run here in one world, which is how they behave
    as long as the SELECT on [users] has no second row left unread. *)
Definition authenticate_user (t_check t_record : Z) (audit_fails : bool)
    (name password : pystr) (client_ip user_agent : option pystr) : M (option pydict) :=
  rate_limit_result ← RateLimiter.check_rate_limit t_check name;
  allowed ← item "allowed" rate_limit_result;
  if negb (truthy allowed) then
    log_event audit_fails "login_blocked" None (Some name) client_ip user_agent
      ["reason" ~> PyStr (py "rate_limited")] false ;;
    mret None
  else
    try_except
      (found ← query SelectUserByName
                 (fun w => find (fun u => str_eqb (username u) name || str_eqb (email u) name)
                             (users w));
       match found with
       | None =>
           RateLimiter.record_attempt t_record name false ;;
           log_event audit_fails "login_failed" None (Some name) client_ip user_agent
             ["reason" ~> PyStr (py "user_not_found")] false ;;
           mret None
       | Some user =>
           if negb (user_is_active user) then
             RateLimiter.record_attempt t_record name false ;;
             log_event audit_fails "login_failed" (Some (user_id user)) (Some name)
               client_ip user_agent ["reason" ~> PyStr (py "account_disabled")] false ;;
             mret None
           else
             stored_hash ← hex_or_bytes (password_hash user);
             salt ← hex_or_bytes (salt user);
             ok ← _verify_password password stored_hash salt;
             if negb ok then
               RateLimiter.record_attempt t_record name false ;;
               log_event audit_fails "login_failed" (Some (user_id user)) (Some name)
                 client_ip user_agent ["reason" ~> PyStr (py "invalid_password")] false ;;
               mret None
             else
               RateLimiter.record_attempt t_record name true ;;
               log_event audit_fails "login_success" (Some (user_id user)) (Some name)
                 client_ip user_agent [] true ;;
               mret (Some ["id" ~> PyInt (user_id user); "username" ~> PyStr (username user);
                           "role" ~> PyStr (role user)])
       end)
      (fun e =>
         logger Error ;;
         log_event audit_fails "login_error" None (Some name) client_ip user_agent
           ["error" ~> PyStr (exception_text e)] false ;;
         mret None).

(** [session_token] is what [secrets.token_urlsafe] returns, [now] the
    reading of [datetime.now()].  The connection does not turn foreign keys
    on: the INSERT fails only on a token already in the table. *)
Definition create_session (session_token : pystr) (now : Z) (audit_fails : bool)
    (uid : Z) (client_ip user_agent : option pystr) (remember : bool) : M (option pystr) :=
  try_except
    (let expires_hours := if remember then SESSION_REMEMBER_HOURS else SESSION_EXPIRY_HOURS in
     let expires := now + hours expires_hours in
     taken ← reads (fun w => user_sessions w !! session_token);
     match taken with
     | Some _ => emit (Sql InsertSession) ;; raise IntegrityError
     | None =>
         last_id ← reads session_seq;
         created ← reads db_clock;
         execute InsertSession
           (fun w => set_session_seq (fun _ => last_id + 1)
              (set_user_sessions
                 (insert session_token
                    {| session_id := last_id + 1; session_user_id := uid;
                       expires_at := expires; created_at := created;
                       session_client_ip := client_ip; session_user_agent := user_agent;
                       session_is_active := true |}) w))
     end ;;
     log_event audit_fails "session_created" (Some uid) None client_ip user_agent
       ["remember" ~> PyBool remember] true ;;
     mret (Some session_token))
    (fun e => logger Error ;; mret None).

Definition deactivate (s : session) : session :=
  {| session_id := session_id s; session_user_id := session_user_id s;
     expires_at := expires_at s; created_at := created_at s;
     session_client_ip := session_client_ip s; session_user_agent := session_user_agent s;
     session_is_active := false |}.

(** The row of [SELECT s.*, u.username, u.role, u.is_active FROM user_sessions s
    JOIN users u ON s.user_id = u.id]: the columns of [user_sessions] as the
    table declares them, then the three of [users].  Two columns are named
    [is_active]. *)
Definition session_user_row (token : pystr) (s : session) (u : user) : row :=
  ["id" ~> PyInt (session_id s); "user_id" ~> PyInt (session_user_id s);
   "session_token" ~> PyStr token; "expires_at" ~> PyTime (expires_at s);
   "created_at" ~> PyTime (created_at s); "client_ip" ~> of_opt_str (session_client_ip s);
   "user_agent" ~> of_opt_str (session_user_agent s);
   "is_active" ~> of_bool (session_is_active s);
   "username" ~> PyStr (username u); "role" ~> PyStr (role u);
   "is_active" ~> of_bool (user_is_active u)].

(** [... WHERE s.session_token = ? AND s.is_active = 1], first row. *)
Definition select_session_user (token : pystr) (w : world) : option row :=
  match user_sessions w !! token with
  | Some s =>
      if session_is_active s then
        match find (fun u => user_id u =? session_user_id s) (users w) with
        | Some u => Some (session_user_row token s u)
        | None => None
        end
      else None
  | None => None
  end.

(** [row[name]] *)
Definition column (name : string) (r : row) : M pyval :=
  match row_get name r with Some v => mret v | None => raise IndexError end.

Definition fromisoformat (v : pyval) : M Z :=
  match v with
  | PyTime t => mret t
  | PyStr _ => raise ValueError
  | _ => raise TypeError
  end.

(** [not session_token] *)
Definition no_token (session_token : option pystr) : bool :=
  match session_token with None => true | Some [] => true | Some _ => false end.

Definition token_prefix (token : pystr) : pystr := firstn 16 token ++ py "...".

Definition validate_session (now : Z) (audit_fails : bool) (session_token : option pystr)
  : M (option pydict) :=
  if no_token session_token then mret None
  else
    let token := default [] session_token in
    try_except
      (found ← query SelectSessionJoinUser (select_session_user token);
       match found with
       | None => mret None
       | Some session =>
           expires ← column "expires_at" session ≫= fromisoformat;
           if expires <? now then
             execute DeactivateSession (set_user_sessions (alter deactivate token)) ;;
             uid ← column "user_id" session;
             log_event audit_fails "session_expired"
               (match uid with PyInt n => Some n | _ => None end) None None None
               ["session_token" ~> PyStr (token_prefix token)] false ;;
             mret None
           else
             active ← column "is_active" session;
             if negb (truthy active) then mret None
             else
               uid ← column "user_id" session;
               uname ← column "username" session;
               urole ← column "role" session;
               created ← column "created_at" session;
               expiry ← column "expires_at" session;
               mret (Some ["id" ~> uid; "username" ~> uname; "role" ~> urole;
                           "session_created" ~> created; "session_expires" ~> expiry])
       end)
      (fun e => logger Error ;; mret None).

(** [SELECT user_id FROM user_sessions WHERE session_token = ? AND is_active = 1] *)
Definition select_active_session (token : pystr) (w : world) : option Z :=
  match user_sessions w !! token with
  | Some s => if session_is_active s then Some (session_user_id s) else None
  | None => None
  end.

Definition logout_session (audit_fails : bool) (session_token : option pystr) : M bool :=
  if no_token session_token then mret false
  else
    let token := default [] session_token in
    try_except
      (found ← query SelectActiveSession (select_active_session token);
       match found with
       | Some uid =>
           execute DeactivateSession (set_user_sessions (alter deactivate token)) ;;
           log_event audit_fails "logout" (Some uid) None None None
             ["session_token" ~> PyStr (token_prefix token)] true ;;
           mret true
       | None => mret false
       end)
      (fun e => logger Error ;; mret false).

Definition cleanup_expired_sessions (now : Z) : M unit :=
  try_except
    (stale ← reads (fun w => filter (fun kv => expires_at (snd kv) < now
                                                /\ session_is_active (snd kv) = true)
                               (map_to_list (user_sessions w)));
     execute DeactivateExpiredSessions
       (set_user_sessions
          (fmap (fun s => if (expires_at s <? now) && session_is_active s
                          then deactivate s else s))) ;;
     if 0 <? Z.of_nat (length stale) then logger Info else mret tt)
    (fun e => logger Error).

(** [fresh_salt] is what [secrets.token_bytes] returns for the new salt. *)
Definition change_password (fresh_salt : bytes) (audit_fails : bool) (uid : Z)
    (current_password new_password : pystr) (client_ip : option pystr) : M pydict :=
  let password_validation := validate_password new_password in
  if negb (valid password_validation) then
    mret ["success" ~> PyBool false; "error" ~> PyStr (py "invalid_password");
          "details" ~> PyList (map (fun e => PyStr (py e)) (errors password_validation))]
  else
    try_except
      (found ← query SelectUserById (fun w => find (fun u => user_id u =? uid) (users w));
       match found with
       | None => mret ["success" ~> PyBool false; "error" ~> PyStr (py "user_not_found")]
       | Some user =>
           stored_hash ← hex_or_bytes (password_hash user);
           salt ← hex_or_bytes (salt user);
           ok ← _verify_password current_password stored_hash salt;
           if negb ok then
             log_event audit_fails "password_change_failed" (Some uid) (Some (username user))
               client_ip None ["reason" ~> PyStr (py "invalid_current_password")] false ;;
             mret ["success" ~> PyBool false;
                   "error" ~> PyStr (py "invalid_current_password")]
           else
             hs ← _hash_password fresh_salt new_password None;
             now ← reads db_clock;
             execute UpdateUserPassword
               (set_users
                  (map (fun u => if user_id u =? uid
                                 then {| user_id := user_id u; username := username u;
                                         email := email u;
                                         password_hash := Text (hex (fst hs));
                                         salt := Text (hex (snd hs)); role := role u;
                                         user_is_active := user_is_active u;
                                         password_changed_at := Some now |}
                                 else u))) ;;
             execute DeactivateUserSessions
               (set_user_sessions
                  (fmap (fun s => if session_user_id s =? uid then deactivate s else s))) ;;
             log_event audit_fails "password_changed" (Some uid) (Some (username user))
               client_ip None [] true ;;
             mret ["success" ~> PyBool true]
       end)
      (fun e => logger Error ;; mret ["success" ~> PyBool false;
                                       "error" ~> PyStr (py "internal_error")]).

End AuthService.

Definition empty_world : world :=
  {| users := []; user_sessions := ∅; session_seq := 0; rate_limits := ∅; audit_logs := []; audit_log := [];
     db_clock := 0; trace := [] |}.

(** ** Relations used to state the properties *)

(** Two worlds hold the same data: they may differ in the audit log of the
    authentication service and in the trace. *)
Definition same_data (w1 w2 : world) : Prop :=
  users w1 = users w2 /\ user_sessions w1 = user_sessions w2 /\
  session_seq w1 = session_seq w2 /\ rate_limits w1 = rate_limits w2 /\
  audit_log w1 = audit_log w2 /\ db_clock w1 = db_clock w2.

(** Two calls agree: from worlds holding the same data they return or raise
    the same, and leave the same data. *)
Definition agree {A} (m1 m2 : M A) : Prop :=
  forall w1 w2, same_data w1 w2 ->
    result_of (m1 w1) = result_of (m2 w2) /\ same_data (world_of (m1 w1)) (world_of (m2 w2)).

(** Referential integrity of [user_sessions]: tokens are not empty and the
    user of a session exists. *)
Definition store_ok (w : world) : Prop :=
  forall token s,
    user_sessions w !! token = Some s ->
    token <> [] /\ exists u, find (fun u => user_id u =? session_user_id s) (users w) = Some u.

(** ** Regular expressions of [re], as far as the middleware uses them *)

(** The patterns are compiled with [re.IGNORECASE] and only searched, so
    groups and laziness do not matter: a pattern is the set of strings it
    matches. *)
Inductive regex :=
| Eps
| Lit (c : N)                (* a character of the pattern *)
| AnyChar                    (* [.]: any character but a newline *)
| NotChar (c : N)            (* a negated set of one character *)
| WordChar                   (* \w *)
| DigitChar                  (* \d *)
| SpaceChar                  (* \s *)
| Boundary                   (* \b *)
| Seq (r1 r2 : regex)
| Alt (r1 r2 : regex)
| Star (r : regex).

Definition Plus (r : regex) : regex := Seq r (Star r).

Definition lit (s : string) : regex := fold_right (fun c r => Seq (Lit c) r) Eps (py s).

(** [r|r1|...|rn] *)
Definition alts (r : regex) (rs : list regex) : regex := fold_left Alt rs r.

Fixpoint seqs (rs : list regex) : regex :=
  match rs with
  | [] => Eps
  | r :: rs' => Seq r (seqs rs')
  end.

Section Regex.
Context {U : UnicodeData}.
Local Open Scope N_scope.

Definition is_word (c : N) : bool :=
  if is_ascii c
  then between 97 122 c || between 65 90 c || between 48 57 c || (c =? 95)
  else uni_isword c.
Definition is_decimal (c : N) : bool :=
  if is_ascii c then between 48 57 c else uni_isdecimal c.
Definition is_space (c : N) : bool :=
  if is_ascii c then between 9 13 c || between 28 32 c else uni_isspace c.

(** Two characters equal up to case. *)
Definition ignorecase_eq (p c : N) : bool :=
  if is_ascii p && is_ascii c then ascii_lower p =? ascii_lower c else uni_ignorecase_eq p c.

Definition word_before (prev : option N) : bool :=
  match prev with Some c => is_word c | None => false end.
Definition word_at (s : pystr) : bool :=
  match s with c :: _ => is_word c | [] => false end.

Definition one (test : N -> bool) (k : option N -> pystr -> bool) (s : pystr) : bool :=
  match s with
  | c :: s' => test c && k (Some c) s'
  | [] => false
  end.

(** [rmatch r k prev s]: some prefix of [s] matches [r] and the rest is
    accepted by [k]; [prev] is the character before [s]. *)
Fixpoint rmatch (r : regex) (k : option N -> pystr -> bool) (prev : option N) (s : pystr)
  : bool :=
  match r with
  | Eps => k prev s
  | Lit p => one (ignorecase_eq p) k s
  | AnyChar => one (fun c => negb (c =? 10)) k s
  | NotChar p => one (fun c => negb (ignorecase_eq p c)) k s
  | WordChar => one is_word k s
  | DigitChar => one is_decimal k s
  | SpaceChar => one is_space k s
  | Boundary => xorb (word_before prev) (word_at s) && k prev s
  | Seq r1 r2 => rmatch r1 (rmatch r2 k) prev s
  | Alt r1 r2 => rmatch r1 k prev s || rmatch r2 k prev s
  | Star r' =>
      (fix loop (fuel : nat) (prev : option N) (s : pystr) : bool :=
         k prev s ||
         match fuel with
         | O => false
         | S fuel' =>
             rmatch r' (fun prev' s' => (length s' <? length s)%nat && loop fuel' prev' s')
               prev s
         end) (length s) prev s
  end.

Fixpoint search_from (r : regex) (prev : option N) (s : pystr) : bool :=
  rmatch r (fun _ _ => true) prev s ||
  match s with
  | [] => false
  | c :: s' => search_from r (Some c) s'
  end.

(** [re.search(pattern, s, re.IGNORECASE)] is not [None]. *)
Definition re_search (r : regex) (s : pystr) : bool := search_from r None s.
End Regex.

(** [bytes.decode('utf-8')]; [None] is [UnicodeDecodeError]. *)
Section Utf8Decode.
Local Open Scope N_scope.

Definition continuation (b : byte) : bool := between 0x80 0xBF (Byte.to_N b).
Definition low6 (b : byte) : N := Byte.to_N b mod 64.

Fixpoint decode_utf8 (bs : bytes) : option pystr :=
  match bs with
  | [] => Some []
  | b0 :: r0 =>
      let n0 := Byte.to_N b0 in
      if n0 <? 0x80 then cons n0 <$> decode_utf8 r0
      else if between 0xC2 0xDF n0 then
        match r0 with
        | b1 :: r1 =>
            if continuation b1 then cons ((n0 - 0xC0) * 64 + low6 b1) <$> decode_utf8 r1
            else None
        | _ => None
        end
      else if between 0xE0 0xEF n0 then
        match r0 with
        | b1 :: b2 :: r2 =>
            let c := (n0 - 0xE0) * 4096 + low6 b1 * 64 + low6 b2 in
            if continuation b1 && continuation b2 && (0x800 <=? c)
               && negb (between 0xD800 0xDFFF c)
            then cons c <$> decode_utf8 r2 else None
        | _ => None
        end
      else if between 0xF0 0xF4 n0 then
        match r0 with
        | b1 :: b2 :: b3 :: r3 =>
            let c := (n0 - 0xF0) * 262144 + low6 b1 * 4096 + low6 b2 * 64 + low6 b3 in
            if continuation b1 && continuation b2 && continuation b3
               && between 0x10000 0x10FFFF c
            then cons c <$> decode_utf8 r3 else None
        | _ => None
        end
      else None
  end.
End Utf8Decode.

(** ** SecurityMiddleware *)

(** The keys of the WSGI environment the middleware reads; [None] is a key
    that is absent.  [wsgi_input] is what is left to read of the body. *)
Record wsgi_environ := {
  REQUEST_METHOD : option pystr;
  PATH_INFO : option pystr;
  QUERY_STRING : option pystr;
  HTTP_USER_AGENT : option pystr;
  REMOTE_ADDR : option pystr;
  CONTENT_LENGTH : option pystr;
  wsgi_input : bytes
}.

Definition with_input (body : bytes) (e : wsgi_environ) : wsgi_environ :=
  {| REQUEST_METHOD := REQUEST_METHOD e; PATH_INFO := PATH_INFO e;
     QUERY_STRING := QUERY_STRING e; HTTP_USER_AGENT := HTTP_USER_AGENT e;
     REMOTE_ADDR := REMOTE_ADDR e; CONTENT_LENGTH := CONTENT_LENGTH e; wsgi_input := body |}.

Module SecurityMiddleware.

Definition keywords (w : string) (ws : list string) : regex := alts (lit w) (map lit ws).
Definition apostrophe : regex := Lit 39%N.

Definition sql_injection_patterns : list regex :=
  [ seqs [Boundary;
          keywords "UNION" ["SELECT"; "INSERT"; "UPDATE"; "DELETE"; "DROP"; "CREATE";
                            "ALTER"]%string;
          Boundary];
    keywords "--" ["#"; "/*"; "*/"]%string;
    seqs [Boundary; keywords "OR" ["AND"]%string; Boundary; Plus SpaceChar; Plus DigitChar;
          Star SpaceChar; lit "="; Star SpaceChar; Plus DigitChar];
    seqs [apostrophe; Star SpaceChar; keywords "OR" ["AND"]%string; Plus SpaceChar;
          apostrophe; Plus WordChar; apostrophe; Star SpaceChar; lit "="; Star SpaceChar;
          apostrophe; Plus WordChar; apostrophe] ].

Definition element (tag : string) : regex :=
  seqs [lit "<"; lit tag; Star (NotChar 62%N); lit ">"; Star AnyChar; lit "</"; lit tag;
        lit ">"].

Definition xss_patterns : list regex :=
  [ element "script";
    lit "javascript:";
    seqs [lit "on"; Plus WordChar; Star SpaceChar; lit "="];
    element "iframe";
    element "object";
    element "embed" ].

Definition file_traversal_patterns : list regex :=
  [ lit "../"; lit "..\"; lit "/etc/passwd"; lit "/proc/"; lit "\windows\";
    lit "\system32\" ].

Definition agent (name : string) : regex := seqs [Star AnyChar; lit name; Star AnyChar].

Definition blocked_user_agents : list regex :=
  [ agent "sqlmap"; agent "nikto"; agent "nessus"; agent "masscan"; agent "nmap";
    agent "w3af"; agent "burp"; agent "acunetix" ].

Definition call (name : string) : regex := seqs [lit name; Star SpaceChar; lit "("].

Definition attack_patterns : list regex :=
  [ lit "<?php"; call "eval"; call "system"; call "exec"; call "shell_exec";
    call "passthru"; call "base64_decode"; call "gzinflate"; lit "<!--#exec";
    seqs [lit "<%"; Star AnyChar; lit "%>"];
    seqs [lit "${"; Star AnyChar; lit "}"];
    seqs [lit "{{"; Star AnyChar; lit "}}"] ].

Section Methods.
Context {U : UnicodeData}.

(** [for pattern in patterns: if re.search(pattern, s, re.IGNORECASE): ...] *)
Definition any_match (patterns : list regex) (s : pystr) : bool :=
  existsb (fun pattern => re_search pattern s) patterns.

Definition _check_security_threats (content : pystr) : option string :=
  let content_lower := str_lower content in
  if any_match sql_injection_patterns content_lower then Some "SQL Injection attempt"%string
  else if any_match xss_patterns content_lower then Some "XSS attempt"%string
  else if any_match file_traversal_patterns content_lower
  then Some "File traversal attempt"%string
  else if any_match attack_patterns content_lower then Some "Code injection attempt"%string
  else None.

(** [models.AuditLog.log]: the INSERT goes through
    [Database.execute_query], which rolls back and raises again when the
    statement fails ([write_fails]). *)
Definition AuditLog_log (write_fails : bool) (uid : option Z) (action : string)
    (details ip_address user_agent : option pystr) : M unit :=
  if write_fails then emit (Sql InsertAuditEntry) ;; raise OperationalError
  else
    now ← reads db_clock;
    execute InsertAuditEntry
      (set_audit_log (fun l => l ++
         [{| entry_user_id := uid; action := action; resource_type := None;
             resource_id := None; entry_details := details; ip_address := ip_address;
             entry_user_agent := user_agent; entry_created_at := now |}])).

Definition error_body (message : string) : pydict := ["error" ~> PyStr (py message)].

Definition is_post_or_put (method : pystr) : bool :=
  str_eqb method (py "POST") || str_eqb method (py "PUT").

(** The request body, for POST and PUT: the stream is read and replaced
    by a copy of what was read. *)
Definition check_body (environ : wsgi_environ) (client_ip : pystr)
  : M (option (Z * pydict) * wsgi_environ) :=
  content_length ←
    match CONTENT_LENGTH environ with
    | None => mret 0
    | Some text => match int_of_str text with Some n => mret n | None => raise ValueError end
    end;
  if 0 <? content_length then
    let body := firstn (Z.to_nat content_length) (wsgi_input environ) in
    let environ := with_input body environ in
    match decode_utf8 body with
    | Some body_str =>
        match _check_security_threats body_str with
        | Some _ =>
            logger Warning ;;
            mret (Some (403, error_body "Security threat detected in request body"),
                  environ)
        | None => mret (None, environ)
        end
    | None => mret (None, environ)
    end
  else mret (None, environ).

Definition process_request (audit_fails : bool) (environ : wsgi_environ)
  : M (option (Z * pydict) * wsgi_environ) :=
  try_except
    (let method := default [] (REQUEST_METHOD environ) in
     let path := default [] (PATH_INFO environ) in
     let query_string := default [] (QUERY_STRING environ) in
     let user_agent := default [] (HTTP_USER_AGENT environ) in
     let client_ip := default (py "unknown") (REMOTE_ADDR environ) in
     if any_match blocked_user_agents user_agent then
       logger Warning ;;
       mret (Some (403, error_body "Forbidden"), environ)
     else
       match _check_security_threats (path ++ py "?" ++ query_string) with
       | Some security_check =>
           logger Warning ;;
           AuditLog_log audit_fails None "SECURITY_THREAT"
             (Some (py "Threat: " ++ py security_check ++ py ", Path: " ++ path))
             (Some client_ip) (Some user_agent) ;;
           mret (Some (403, error_body "Security threat detected"), environ)
       | None =>
           if is_post_or_put method then check_body environ client_ip
           else mret (None, environ)
       end)
    (fun e => logger Error ;; mret (Some (500, error_body "Security check failed"), environ)).
End Methods.

End SecurityMiddleware.

(** ** Concrete worlds used as examples *)

(** The smallest instance of the exception texts. *)
Definition no_exception_text : ExceptionText := fun _ => [].

(** An employee whose account was deactivated after she logged in: her
    session, created at 0 and valid until 1000, is still active. *)
Definition mallory : user :=
  {| user_id := 7; username := py "mallory"; email := py "mallory@example.com";
     password_hash := Blob []; salt := Blob []; role := py "employee";
     user_is_active := false; password_changed_at := None |}.

Definition mallory_session : session :=
  {| session_id := 1; session_user_id := 7; expires_at := 1000; created_at := 0;
     session_client_ip := None; session_user_agent := None; session_is_active := true |}.

Definition deactivated_account_world : world :=
  {| users := [mallory]; user_sessions := {[ py "tok" := mallory_session ]}; session_seq := 1;
     rate_limits := ∅; audit_logs := []; audit_log := []; db_clock := 0; trace := [] |}.

(** A session whose user row does not exist: [create_session] stores it,
    the connections of auth.py do not turn foreign keys on.  It is created at
    0 and expires after eight hours. *)
Definition orphaned_session_world : world :=
  world_of (create_session (py "tok") 0 false 7 None None false empty_world).

(** A user whose password is [OldPassw0rd], with one live session. *)
Definition alice_salt : bytes := bytes_of_string "0123456789abcdef".

Definition alice : user :=
  {| user_id := 1; username := py "alice"; email := py "alice@example.com";
     password_hash :=
       Blob (@pbkdf2_hmac rfc8018 (bytes_of_string "OldPassw0rd") alice_salt
               SecurityConfig.HASH_ITERATIONS);
     salt := Blob alice_salt; role := py "admin";
     user_is_active := true; password_changed_at := None |}.

Definition alice_session : session :=
  {| session_id := 1; session_user_id := 1; expires_at := 1000; created_at := 0;
     session_client_ip := None; session_user_agent := None; session_is_active := true |}.

Definition alice_world : world :=
  {| users := [alice]; user_sessions := {[ py "alice-token" := alice_session ]};
     session_seq := 1; rate_limits := ∅; audit_logs := []; audit_log := []; db_clock := 0; trace := [] |}.

(** The admin account locked by five failed logins at the times 1 ... 5. *)
Definition locked_world : world :=
  world_of (five_failures 1 2 3 4 5 (py "admin") empty_world).

(** Alice after she logged out. *)
Definition logged_out_world : world :=
  {| users := [alice];
     user_sessions :=
       {[ py "alice-token" :=
            {| session_id := 1; session_user_id := 1; expires_at := 1000; created_at := 0;
               session_client_ip := None; session_user_agent := None;
               session_is_active := false |} ]};
     session_seq := 1; rate_limits := ∅; audit_logs := []; audit_log := []; db_clock := 0; trace := [] |}.

(** Two passwords: the first is longer than a SHA-256 block, the second is
    the string whose UTF-8 encoding is the SHA-256 digest of the first. *)
Definition long_password : pystr :=
  py "correct horse battery staple correct horse battery staple 0000-98662724".

Definition digest_password : pystr :=
  [64; 1509; 55; 79; 648; 58515; 82; 30; 13; 62721; 0; 78; 23; 74; 72; 24; 535; 41; 39; 127;
   22; 55; 972; 73]%N.

(** The probe of the SQL-injection scenario, sent by any client. *)
Definition probe_request (method user_agent client_ip content_length : option pystr)
    (body : bytes) : wsgi_environ :=
  {| REQUEST_METHOD := method; PATH_INFO := Some (py "/api/search");
     QUERY_STRING := Some (py "q=' OR 1=1--"); HTTP_USER_AGENT := user_agent;
     REMOTE_ADDR := client_ip; CONTENT_LENGTH := content_length; wsgi_input := body |}.

(** ** Sequences of calls used to state how the operations compose *)

(** Failed attempts in a row, at the times [ts]. *)
Fixpoint failures (ts : list Z) (identifier : pystr) : M unit :=
  match ts with
  | [] => mret tt
  | t :: ts' => RateLimiter.record_attempt t identifier false ;; failures ts' identifier
  end.

(** What may happen to the stored sessions between two worlds: none is
    deleted, reactivated, given to another user or given another expiry. *)
Definition sessions_only_deactivated (w w' : world) : Prop :=
  forall token s,
    user_sessions w !! token = Some s ->
    exists s',
      user_sessions w' !! token = Some s'
      /\ (session_is_active s' = true -> session_is_active s = true)
      /\ session_user_id s' = session_user_id s
      /\ expires_at s' = expires_at s.

(** What [authenticate_user] reads off the limiter: [rate_limit_result['allowed']]. *)
Definition limiter_allows (t : Z) (identifier : pystr) (w : world) : bool :=
  match result_of (RateLimiter.check_rate_limit t identifier w) with
  | Returned res => match row_get "allowed" res with Some v => truthy v | None => false end
  | Raised _ => false
  end.

(** The bytes a stored hash or salt stands for, if it is well formed. *)
Definition column_bytes (v : text_or_blob) : option bytes :=
  match v with
  | Text s => fromhex s
  | Blob b => Some b
  end.

(** [SELECT ... FROM users WHERE username = ? OR email = ?], first row. *)
Definition user_named (name : pystr) (w : world) : option user :=
  find (fun u => str_eqb (username u) name || str_eqb (email u) name) (users w).

(** The rows that SELECT returns.  [authenticate_user] fetches the first one
    only; a second row leaves the statement open and the database
    read-locked, and the commits of the limiter and of the audit logger, on
    connections of their own, then fail: the properties of a login are
    stated for names that match one row at most, where the three
    connections behave as one. *)
Definition rows_named (name : pystr) (w : world) : list user :=
  List.filter (fun u => str_eqb (username u) name || str_eqb (email u) name) (users w).

Section Credentials.
Context {HL : Hashlib}.

(** The password derives the stored hash of the user. *)
Definition password_matches (u : user) (password : pystr) : Prop :=
  exists hb sb pw,
    column_bytes (password_hash u) = Some hb
    /\ column_bytes (salt u) = Some sb
    /\ encode_utf8 password = Some pw
    /\ pbkdf2_hmac pw sb SecurityConfig.HASH_ITERATIONS = hb.

(** The three ways a login is refused on its credentials: no such user, a
    disabled account, a password that derives another hash. *)
Definition credentials_rejected (w : world) (name password : pystr) : Prop :=
  match user_named name w with
  | None => True
  | Some u =>
      user_is_active u = false
      \/ exists hb sb pw,
           column_bytes (password_hash u) = Some hb
           /\ column_bytes (salt u) = Some sb
           /\ encode_utf8 password = Some pw
           /\ pbkdf2_hmac pw sb SecurityConfig.HASH_ITERATIONS <> hb
  end.
End Credentials.

(** The counter of the identifier can take one more failure (an SQLite
    INTEGER has 64 bits). *)
Definition counter_has_room (identifier : pystr) (w : world) : Prop :=
  match rate_limits w !! identifier with
  | Some r => attempts r + 1 <= RateLimiter.sqlite_int_max
  | None => True
  end.

(** One login attempt: the two clock readings it makes and the password. *)
Record attempt := { at_check : Z; at_record : Z; with_password : pystr }.

Section LoginSequences.
Context {X : ExceptionText} {HL : Hashlib}.

(** Login attempts in a row for one identifier. *)
Fixpoint logins (tries : list attempt) (af : bool) (name : pystr)
    (ip ua : option pystr) : M unit :=
  match tries with
  | [] => mret tt
  | try :: rest =>
      authenticate_user (at_check try) (at_record try) af name (with_password try) ip ua ;;
      logins rest af name ip ua
  end.
End LoginSequences.

(** What one recorded failure does to the table of counters. *)
Definition after_failure (t : Z) (identifier : pystr) (m : gmap pystr rate_limit)
  : gmap pystr rate_limit :=
  match m !! identifier with
  | Some r =>
      <[identifier :=
          {| attempts := attempts r + 1; first_attempt := first_attempt r;
             last_attempt := Some t;
             locked_until :=
               if SecurityConfig.MAX_LOGIN_ATTEMPTS <=? attempts r + 1
               then Some (t + minutes SecurityConfig.LOCKOUT_DURATION_MINUTES) else None |}]> m
  | None =>
      <[identifier := {| attempts := 1; first_attempt := Some t; last_attempt := Some t;
                         locked_until := None |}]> m
  end.

(** The counter of the identifier stands at [k] and no lock is set. *)
Definition counting (name : pystr) (k : Z) (w : world) : Prop :=
  match rate_limits w !! name with
  | Some r => attempts r = k /\ locked_until r = None
  | None => k = 0
  end.

(** ** models.py and db_init.py: how accounts are seeded *)

(** [User.hash_password] of models.py.  [fresh] is what [secrets.token_bytes]
    returns inside [secrets.token_hex(32)], which is its [hex()]; [None] is
    the [UnicodeEncodeError] of [str.encode].  The hash comes back as
    hexadecimal text, the salt as the text it was given or drew. *)
Module User.
Section Hashing.
Context {HL : Hashlib}.

Definition hash_password (fresh : bytes) (password : pystr) (salt : option pystr)
  : option (pystr * pystr) :=
  let salt := match salt with None => hex fresh | Some s => s end in
  match encode_utf8 password, encode_utf8 salt with
  | Some pw, Some sb => Some (hex (pbkdf2_hmac pw sb 100000), salt)
  | _, _ => None
  end.
End Hashing.
End User.

(** [hash_password] of db_init.py, which [create_admin_user] and
    [insert_sample_data] call: the same code. *)
Module db_init.
Section Hashing.
Context {HL : Hashlib}.

Definition hash_password (fresh : bytes) (password : pystr) (salt : option pystr)
  : option (pystr * pystr) :=
  let salt := match salt with None => hex fresh | Some s => s end in
  match encode_utf8 password, encode_utf8 salt with
  | Some pw, Some sb => Some (hex (pbkdf2_hmac pw sb 100000), salt)
  | _, _ => None
  end.
End Hashing.
End db_init.

(** The administrator as [create_admin_user] inserts it, for a salt drawn as
    [seed_salt]: the columns [password_hash] and [salt] hold what
    [hash_password] returned. *)
Definition seed_salt : bytes := bytes_of_string "0123456789abcdef0123456789abcdef".

Definition psychy : user :=
  {| user_id := 1; username := py "psychy"; email := py "admin@matricanetworks.com";
     password_hash :=
       Text (hex (@pbkdf2_hmac rfc8018 (bytes_of_string "Ka05ml@2120")
                    (map byte_of_N (hex seed_salt)) 100000));
     salt := Text (hex seed_salt); role := py "admin";
     user_is_active := true; password_changed_at := None |}.

Definition seeded_world : world :=
  {| users := [psychy]; user_sessions := ∅; session_seq := 0; rate_limits := ∅;
     audit_logs := []; audit_log := []; db_clock := 0; trace := [] |}.

(** ** More of middleware.py *)

(** A string occurs in another up to the case of its ASCII letters. *)
Definition occurs_ignoring_case (name s : pystr) : Prop :=
  exists pre mid post,
    s = pre ++ mid ++ post /\ forallb is_ascii mid = true /\ map ascii_lower mid = name.

(** An instance of the Unicode data whose [int] reads the unsigned ASCII
    decimals; everything else is as in [ascii_only]. *)
Definition decimal_of (s : pystr) : option Z :=
  match s with
  | [] => None
  | _ =>
      fold_left
        (fun acc c =>
           match acc with
           | Some n => if between 48 57 c then Some (10 * n + Z.of_N (c - 48)) else None
           | None => None
           end) s (Some 0)
  end.

Definition ascii_decimal : UnicodeData :=
  {| uni_lower := fun s => s; uni_upper := fun s => s;
     uni_isupper := fun _ => false; uni_islower := fun _ => false;
     uni_isdigit := fun _ => false; uni_isword := fun _ => false;
     uni_isdecimal := fun _ => false; uni_isspace := fun _ => false;
     uni_ignorecase_eq := N.eqb; int_of_str := decimal_of |}.

(** A POST whose body is an SQL-injection probe followed by a byte that no
    UTF-8 text contains. *)
Definition undecodable_post : wsgi_environ :=
  {| REQUEST_METHOD := Some (py "POST"); PATH_INFO := Some (py "/api/contact");
     QUERY_STRING := None; HTTP_USER_AGENT := Some (py "Mozilla/5.0");
     REMOTE_ADDR := Some (py "10.0.0.1"); CONTENT_LENGTH := Some (py "13");
     wsgi_input := bytes_of_string "' OR 1=1 -- " ++ [byte_of_N 255] |}.

(** *** Strings *)

(** [s.split(sep)] for a separator of one character. *)
Fixpoint split_on (sep : N) (s : pystr) : list pystr :=
  match s with
  | [] => [[]]
  | c :: s' =>
      if (c =? sep)%N then [] :: split_on sep s'
      else match split_on sep s' with
           | piece :: pieces => (c :: piece) :: pieces
           | [] => [[c]]
           end
  end.

(** [s.split(sep, 1)] when [sep] occurs in [s]: what is before the first
    one and what is after it. *)
Fixpoint partition_at (sep : N) (s : pystr) : option (pystr * pystr) :=
  match s with
  | [] => None
  | c :: s' =>
      if (c =? sep)%N then Some ([], s')
      else match partition_at sep s' with
           | Some (before, after) => Some (c :: before, after)
           | None => None
           end
  end.

Section Strip.
Context {U : UnicodeData}.

Fixpoint lstrip (s : pystr) : pystr :=
  match s with
  | c :: s' => if is_space c then lstrip s' else s
  | [] => []
  end.

Definition rstrip (s : pystr) : pystr := rev (lstrip (rev s)).

(** [s.strip()] *)
Definition strip (s : pystr) : pystr := rstrip (lstrip s).
End Strip.

(** *** AuthMiddleware *)

Module AuthMiddleware.
Definition session_cookie_name : pystr := py "session_token".

Section Methods.
Context {U : UnicodeData}.

(** The body of the loop over [cookie_header.split(';')]; a cookie with
    a [=] still has it after [strip]. *)
Definition add_cookie (cookies : gmap pystr pystr) (cookie : pystr) : gmap pystr pystr :=
  if existsb (N.eqb 61) cookie then
    match partition_at 61 (strip cookie) with
    | Some (name, value) => <[name := value]> cookies
    | None => cookies
    end
  else cookies.

Definition _extract_session_token (cookie_header : pystr) : option pystr :=
  match cookie_header with
  | [] => None
  | _ => fold_left add_cookie (split_on 59 cookie_header) ∅ !! session_cookie_name
  end.

(** [HTTP_COOKIE] is [environ.get('HTTP_COOKIE')], [service] tells
    whether [init_auth_service] has run, [now] is the reading of the
    clock in [validate_session].  The answer is a refusal, status and
    body, or the session context: the token and the user. *)
Definition process_request (service : bool) (now : Z) (audit_fails : bool)
    (HTTP_COOKIE : option pystr) : M ((Z * pydict) + (pystr * pydict)) :=
  try_except
    (let cookie_header := default [] HTTP_COOKIE in
     let session_token := _extract_session_token cookie_header in
     if no_token session_token then
       mret (inl (401, ["error" ~> PyStr (py "Authentication required")]))
     else if negb service then
       mret (inl (500, ["error" ~> PyStr (py "Authentication service unavailable")]))
     else
       user ← validate_session now audit_fails session_token;
       match user with
       | None => mret (inl (401, ["error" ~> PyStr (py "Invalid or expired session")]))
       | Some user => mret (inr (default [] session_token, user))
       end)
    (fun e =>
       logger Error ;;
       mret (inl (500, ["error" ~> PyStr (py "Authentication check failed")]))).
End Methods.
End AuthMiddleware.

(** *** InputValidationMiddleware *)

Module InputValidationMiddleware.
Local Open Scope N_scope.

(** The characters [sanitize_input] deletes: the angle brackets, the two
    quotes, the backslash and the control characters 00-1f and 7f-9f. *)
Definition dangerous (c : N) : bool :=
  (c =? 60) || (c =? 62) || (c =? 34) || (c =? 39) || (c =? 92)
  || (c <=? 0x1f) || between 0x7f 0x9f c.

Section Methods.
Context {U : UnicodeData}.

(** What the loop of [sanitize_input] does to a value that is a [str].
    (The text of a [PyTime] holds nothing the sanitiser deletes, no
    white space and fewer than 1000 characters: it is left as it is.) *)
Definition sanitize_str (value : pystr) : pystr :=
  let value := List.filter (fun c => negb (dangerous c)) value in
  let value := strip value in
  if (1000 <? length value)%nat then firstn 1000 value else value.

Definition sanitize_value (value : pyval) : pyval :=
  match value with
  | PyStr s => PyStr (sanitize_str s)
  | _ => value
  end.

Definition sanitize_input (data : pydict) : pydict :=
  map (fun kv => (fst kv, sanitize_value (snd kv))) data.
End Methods.
End InputValidationMiddleware.

(** * Properties *)

(** ** Test vectors of the library functions *)

Example sha256_abc :
  hex (SHA256.sha256 (bytes_of_string "abc")) =
  py "ba7816bf8f01cfea414140de5dae2223b00361a396177a9cb410ff61f20015ad".
Proof. vm_compute. reflexivity. Qed.

Example sha256_two_blocks :
  hex (SHA256.sha256 (bytes_of_string "abcdbcdecdefdefgefghfghighijhijkijkljklmklmnlmnomnopnopq")) =
  py "248d6a61d20638b8e5c026930c3e6039a33ce45964ff2167f6ecedd419db06c1".
Proof. vm_compute. reflexivity. Qed.

Example pbkdf2_two_iterations :
  hex (pbkdf2_hmac_sha256 (bytes_of_string "password") (bytes_of_string "salt") 2) =
  py "ae4d0c95af6b46d32d0adff928f06dd02a303f8ef3c251dfd6e2d85a95474c43".
Proof. vm_compute. reflexivity. Qed.

Example utf8_euro : encode_utf8 [0x20AC%N] = Some [xe2; x82; xac].
Proof. reflexivity. Qed.

Example fromhex_spaces : fromhex (py "de ad BE ef") = Some [xde; xad; xbe; xef].
Proof. reflexivity. Qed.

Example hex_bytes : hex [xde; xad; x0f] = py "dead0f".
Proof. reflexivity. Qed.

(** ** The rate limiter *)

Ltac run :=
  unfold query, execute, logger, emit, reads, writes, mbind, M_bind, bind, mret, M_ret, ret,
    raise, try_except, result_of, world_of in *; simpl in *.

Section RateLimiterFacts.
Import SecurityConfig RateLimiter.
Implicit Types (w : world) (identifier : pystr) (r : rate_limit).

(** What a failed attempt leaves in the table. *)
Lemma record_failure_fresh t identifier w :
  rate_limits w !! identifier = None ->
  rate_limits (world_of (record_attempt t identifier false w)) =
  <[identifier := {| attempts := 1; first_attempt := Some t; last_attempt := Some t;
                     locked_until := None |}]> (rate_limits w).
Proof. intros H. unfold record_attempt. run. rewrite H. reflexivity. Qed.

Lemma record_failure_again t identifier w r :
  rate_limits w !! identifier = Some r ->
  attempts r + 1 <= sqlite_int_max ->
  rate_limits (world_of (record_attempt t identifier false w)) =
  <[identifier := {| attempts := attempts r + 1; first_attempt := first_attempt r;
                     last_attempt := Some t;
                     locked_until := if MAX_LOGIN_ATTEMPTS <=? attempts r + 1
                                     then Some (t + minutes LOCKOUT_DURATION_MINUTES)
                                     else None |}]> (rate_limits w).
Proof.
  intros H Hle. unfold record_attempt. run. rewrite H.
  destruct (Z.ltb_spec sqlite_int_max (attempts r + 1)); [lia|]. simpl.
  apply map_eq. intros k. rewrite lookup_alter, lookup_insert.
  repeat case_decide; try congruence. subst. rewrite H. reflexivity.
Qed.

Lemma five_failures_record t1 t2 t3 t4 t5 identifier w :
  rate_limits w !! identifier = None ->
  rate_limits (world_of (five_failures t1 t2 t3 t4 t5 identifier w)) !! identifier =
  Some {| attempts := 5; first_attempt := Some t1; last_attempt := Some t5;
          locked_until := Some (t5 + minutes LOCKOUT_DURATION_MINUTES) |}.
Proof.
  intros H. unfold five_failures, record_attempt, sqlite_int_max, MAX_LOGIN_ATTEMPTS. run.
  rewrite H. simpl.
  do 4 (rewrite ?alter_insert_eq, lookup_insert_eq; simpl).
  rewrite !lookup_alter_eq, lookup_insert_eq. reflexivity.
Qed.

(** A check while the lock is pending: denied, nothing written. *)
Lemma check_pending now identifier w r lock :
  rate_limits w !! identifier = Some r ->
  locked_until r = Some lock ->
  now < lock ->
  check_rate_limit now identifier w =
  (Returned [("allowed"%string, PyBool false); ("attempts"%string, PyInt (attempts r));
             ("locked_until"%string, PyTime lock);
             ("time_remaining_minutes"%string, PyInt (Z.quot (lock - now) 60000000))],
   set_trace (fun t => t ++ [Sql SelectRateLimit]) w).
Proof.
  intros H Hl Hlt. unfold check_rate_limit, lock_pending, time_remaining_minutes. run.
  rewrite H, Hl. simpl. destruct (Z.ltb_spec now lock); [reflexivity | lia].
Qed.

(** The first check once the lock has elapsed: allowed, the counter cleared. *)
Lemma check_elapsed now identifier w r lock :
  rate_limits w !! identifier = Some r ->
  locked_until r = Some lock ->
  lock <= now ->
  check_rate_limit now identifier w =
  (Returned [("allowed"%string, PyBool true); ("attempts"%string, PyInt 0)],
   set_rate_limits (alter (fun _ => cleared) identifier)
     (set_trace (fun t => t ++ [Sql ResetRateLimit])
        (set_trace (fun t => t ++ [Sql SelectRateLimit]) w))).
Proof.
  intros H Hl Hle. unfold check_rate_limit, lock_pending, lock_elapsed. run.
  rewrite H, Hl. simpl.
  destruct (Z.ltb_spec now lock); [lia|].
  destruct (Z.leb_spec lock now); [reflexivity | lia].
Qed.

Lemma check_preserves now identifier w :
  lock_invariant w -> lock_invariant (world_of (check_rate_limit now identifier w)).
Proof.
  intros Inv. unfold check_rate_limit. run.
  destruct (rate_limits w !! identifier) as [r|] eqn:E; simpl; [|exact Inv].
  destruct (lock_pending r now); simpl; [exact Inv|].
  destruct (lock_elapsed r now); simpl; [|exact Inv].
  intros k r'. simpl. rewrite lookup_alter. case_decide.
  - subst. rewrite E. simpl. intros [= <-] [x Hx]. discriminate.
  - apply Inv.
Qed.

Lemma record_preserves now identifier ok w :
  lock_invariant w -> lock_invariant (world_of (record_attempt now identifier ok w)).
Proof.
  intros Inv. unfold record_attempt. destruct ok; run.
  - intros k r'. simpl. rewrite lookup_delete. case_decide; [discriminate | apply Inv].
  - destruct (rate_limits w !! identifier) as [r|] eqn:E; simpl.
    + destruct (Z.ltb_spec sqlite_int_max (attempts r + 1)); simpl; [exact Inv|].
      intros k r'. simpl. rewrite lookup_alter. case_decide; [|apply Inv].
      subst. rewrite E. simpl. intros [= <-]. simpl.
      destruct (Z.leb_spec MAX_LOGIN_ATTEMPTS (attempts r + 1)); [lia|].
      intros [x Hx]. discriminate.
    + intros k r'. simpl. rewrite lookup_insert. case_decide; [|apply Inv].
      intros [= <-] [x Hx]. discriminate.
Qed.

Lemma reachable_invariant w : limiter_reachable w -> lock_invariant w.
Proof.
  induction 1 as [w E | w w' _ IH Hstep].
  - intros k r. rewrite E, lookup_empty. discriminate.
  - destruct Hstep; [apply check_preserves | apply record_preserves]; exact IH.
Qed.

Lemma record_success_deletes now identifier w :
  record_attempt now identifier true w =
  (Returned tt, set_rate_limits (delete identifier)
                  (set_trace (fun t => t ++ [Sql DeleteRateLimit]) w)).
Proof. reflexivity. Qed.

(** C2.  Starting from no record for the identifier, five failed attempts
    in a row lock it: a check made before the lock instant is denied and
    reports that instant, which lies in its future; a check made once the
    instant has passed is allowed and clears the stored counter. *)
Theorem lockout_after_max_attempts t1 t2 t3 t4 t5 identifier w0 :
  rate_limits w0 !! identifier = None ->
  let w5 := world_of (five_failures t1 t2 t3 t4 t5 identifier w0) in
  let lock := t5 + minutes LOCKOUT_DURATION_MINUTES in
  (forall w now,
      rate_limits w !! identifier = rate_limits w5 !! identifier ->
      now < lock ->
      result_of (check_rate_limit now identifier w) =
        Returned [("allowed"%string, PyBool false); ("attempts"%string, PyInt MAX_LOGIN_ATTEMPTS);
                  ("locked_until"%string, PyTime lock);
                  ("time_remaining_minutes"%string, PyInt (Z.quot (lock - now) 60000000))]
      /\ rate_limits (world_of (check_rate_limit now identifier w)) = rate_limits w)
  /\ (forall w now,
      rate_limits w !! identifier = rate_limits w5 !! identifier ->
      lock <= now ->
      result_of (check_rate_limit now identifier w) =
        Returned [("allowed"%string, PyBool true); ("attempts"%string, PyInt 0)]
      /\ rate_limits (world_of (check_rate_limit now identifier w)) !! identifier =
         Some {| attempts := 0; first_attempt := None; last_attempt := None;
                 locked_until := None |}).
Proof.
  intros H w5 lock.
  pose proof (five_failures_record t1 t2 t3 t4 t5 identifier w0 H) as H5.
  fold w5 in H5. split; intros w now Hw Hnow; rewrite H5 in Hw.
  - rewrite (check_pending now identifier w _ lock Hw eq_refl Hnow). split; reflexivity.
  - rewrite (check_elapsed now identifier w _ lock Hw eq_refl Hnow). split; [reflexivity|].
    unfold world_of. simpl. rewrite lookup_alter_eq, Hw. reflexivity.
Qed.

(** C9.  In every state reached from an empty table by [check_rate_limit]
    and [record_attempt], a record carries [locked_until] only if its
    counter is at least the maximum; both operations keep this true; a
    successful [record_attempt] deletes the record and the first check
    after [locked_until] has elapsed resets it to zero attempts. *)
Theorem lock_only_at_max_attempts w :
  limiter_reachable w ->
  lock_invariant w
  /\ (forall now identifier, lock_invariant (world_of (check_rate_limit now identifier w)))
  /\ (forall now identifier ok,
         lock_invariant (world_of (record_attempt now identifier ok w)))
  /\ (forall now identifier,
         rate_limits (world_of (record_attempt now identifier true w)) !! identifier = None)
  /\ (forall now identifier r lock,
         rate_limits w !! identifier = Some r -> locked_until r = Some lock -> lock <= now ->
         rate_limits (world_of (check_rate_limit now identifier w)) !! identifier =
         Some {| attempts := 0; first_attempt := None; last_attempt := None;
                 locked_until := None |}).
Proof.
  intros R. pose proof (reachable_invariant w R) as Inv.
  split; [exact Inv|]. split; [|split; [|split]].
  - intros. apply check_preserves, Inv.
  - intros. apply record_preserves, Inv.
  - intros. rewrite record_success_deletes. unfold world_of. simpl. apply lookup_delete_eq.
  - intros now identifier r lock Hr Hl Hle.
    rewrite (check_elapsed now identifier w r lock Hr Hl Hle).
    unfold world_of. simpl. rewrite lookup_alter_eq, Hr. reflexivity.
Qed.

End RateLimiterFacts.

Lemma lockout_after_max_attempts_witness :
  rate_limits empty_world !! py "admin" = None
  /\ result_of (RateLimiter.check_rate_limit 100
                  (py "admin")
                  (world_of (five_failures 1 2 3 4 5 (py "admin") empty_world))) =
     Returned [("allowed"%string, PyBool false); ("attempts"%string, PyInt 5);
               ("locked_until"%string, PyTime 900000005);
               ("time_remaining_minutes"%string, PyInt 14)].
Proof.
  split; [reflexivity|].
  apply (lockout_after_max_attempts 1 2 3 4 5 (py "admin") empty_world eq_refl);
    [reflexivity | reflexivity].
Defined.

Lemma lock_only_at_max_attempts_witness :
  limiter_reachable (world_of (RateLimiter.record_attempt 10 (py "admin") false empty_world))
  /\ lock_invariant (world_of (RateLimiter.record_attempt 10 (py "admin") false empty_world)).
Proof.
  assert (R : limiter_reachable
                (world_of (RateLimiter.record_attempt 10 (py "admin") false empty_world))).
  { apply (reach_step empty_world); [apply reach_empty; reflexivity | apply step_record]. }
  split; [exact R | apply (lock_only_at_max_attempts _ R)].
Defined.

(** ** The audit logger never fails its caller *)

Section Agreement.
Context {U : UnicodeData} {X : ExceptionText} {HL : Hashlib}.

Lemma same_data_refl w : same_data w w.
Proof. repeat split. Qed.

Lemma agree_ret {A} (a : A) : agree (mret a) (mret a).
Proof. intros w1 w2 H. split; [reflexivity | exact H]. Qed.

Lemma agree_raise {A} e : agree (@raise A e) (raise e).
Proof. intros w1 w2 H. split; [reflexivity | exact H]. Qed.

Lemma agree_bind {A B} (m1 m2 : M A) (k1 k2 : A -> M B) :
  agree m1 m2 -> (forall a, agree (k1 a) (k2 a)) -> agree (m1 ≫= k1) (m2 ≫= k2).
Proof.
  intros Hm Hk w1 w2 H. specialize (Hm w1 w2 H). run.
  destruct (m1 w1) as [[a1|e1] w1'], (m2 w2) as [[a2|e2] w2']; simpl in *;
    destruct Hm as [Hr Hw]; try discriminate; injection Hr as ->.
  - apply (Hk a2 w1' w2' Hw).
  - split; [reflexivity | exact Hw].
Qed.

Lemma agree_try {A} (m1 m2 : M A) (h1 h2 : exn -> M A) :
  agree m1 m2 -> (forall e, agree (h1 e) (h2 e)) -> agree (try_except m1 h1) (try_except m2 h2).
Proof.
  intros Hm Hh w1 w2 H. specialize (Hm w1 w2 H). run.
  destruct (m1 w1) as [[a1|e1] w1'], (m2 w2) as [[a2|e2] w2']; simpl in *;
    destruct Hm as [Hr Hw]; try discriminate; injection Hr as ->.
  - split; [reflexivity | exact Hw].
  - apply (Hh e2 w1' w2' Hw).
Qed.

(** What goes to the trace is not data: two runs may log differently. *)
Lemma agree_emit e1 e2 : agree (emit e1) (emit e2).
Proof. intros w1 w2 H. split; [reflexivity | exact H]. Qed.

Lemma agree_reads {A} (f : world -> A) :
  (forall w1 w2, same_data w1 w2 -> f w1 = f w2) -> agree (reads f) (reads f).
Proof. intros Hf w1 w2 H. split; [run; f_equal; auto | exact H]. Qed.

Lemma agree_writes (f : world -> world) :
  (forall w1 w2, same_data w1 w2 -> same_data (f w1) (f w2)) -> agree (writes f) (writes f).
Proof. intros Hf w1 w2 H. split; [reflexivity | apply Hf, H]. Qed.

Lemma agree_query {A} s (f : world -> A) :
  (forall w1 w2, same_data w1 w2 -> f w1 = f w2) -> agree (query s f) (query s f).
Proof. intros Hf. apply agree_bind; [apply agree_emit | intros _; apply agree_reads, Hf]. Qed.

Lemma agree_execute s (f : world -> world) :
  (forall w1 w2, same_data w1 w2 -> same_data (f w1) (f w2)) ->
  agree (execute s f) (execute s f).
Proof. intros Hf. apply agree_bind; [apply agree_emit | intros _; apply agree_writes, Hf]. Qed.

(** The audit logger: whatever the fate of the write, it returns, and the
    data it leaves are those it found. *)
Lemma log_event_returns b et uid un ip ua d ok w :
  result_of (log_event b et uid un ip ua d ok w) = Returned tt
  /\ same_data (world_of (log_event b et uid un ip ua d ok w)) w.
Proof. destruct b; split; try reflexivity; repeat split. Qed.

Lemma agree_log_event b1 b2 et uid un ip ua d ok :
  agree (log_event b1 et uid un ip ua d ok) (log_event b2 et uid un ip ua d ok).
Proof.
  intros w1 w2 H.
  destruct (log_event_returns b1 et uid un ip ua d ok w1) as [R1 (a1&a2&a3&a4&a5&a6)].
  destruct (log_event_returns b2 et uid un ip ua d ok w2) as [R2 (c1&c2&c3&c4&c5&c6)].
  destruct H as (h1&h2&h3&h4&h5&h6).
  split; [congruence | repeat split; congruence].
Qed.
End Agreement.

Ltac data_tac :=
  intros [] [] (?&?&?&?&?&?); simpl in *; subst; first [reflexivity | repeat split].

Ltac agree_case :=
  match goal with
  | |- agree (if ?b then _ else _) _ => destruct b
  | |- agree (match ?x with _ => _ end) _ => destruct x
  end.

Ltac agree_step :=
  first [ apply agree_ret | apply agree_raise | apply agree_log_event | apply agree_emit
        | apply agree_query; data_tac | apply agree_execute; data_tac
        | apply agree_reads; data_tac
        | apply agree_bind; [| intros ?] | apply agree_try; [| intros ?]
        | agree_case ].

Section Noninterference.
Context {U : UnicodeData} {X : ExceptionText} {HL : Hashlib}.
Import RateLimiter.

Lemma agree_check_rate_limit t identifier :
  agree (check_rate_limit t identifier) (check_rate_limit t identifier).
Proof. unfold check_rate_limit. repeat agree_step. Qed.

Lemma agree_record_attempt t identifier ok :
  agree (record_attempt t identifier ok) (record_attempt t identifier ok).
Proof. unfold record_attempt. repeat agree_step. Qed.

Lemma agree_hash_password fresh password salt :
  agree (_hash_password fresh password salt) (_hash_password fresh password salt).
Proof. unfold _hash_password. repeat agree_step. Qed.

Lemma agree_verify_password password h s :
  agree (_verify_password password h s) (_verify_password password h s).
Proof. unfold _verify_password. apply agree_bind; [apply agree_hash_password|]. intros; agree_step. Qed.

Lemma agree_hex_or_bytes v : agree (hex_or_bytes v) (hex_or_bytes v).
Proof. unfold hex_or_bytes. repeat agree_step. Qed.

Lemma agree_item k d : agree (item k d) (item k d).
Proof. unfold item. repeat agree_step. Qed.

Lemma agree_column k d : agree (column k d) (column k d).
Proof. unfold column. repeat agree_step. Qed.

Lemma agree_fromisoformat v : agree (fromisoformat v) (fromisoformat v).
Proof. unfold fromisoformat. repeat agree_step. Qed.

Ltac agree_auto :=
  repeat first [ apply agree_check_rate_limit | apply agree_record_attempt
               | apply agree_hash_password | apply agree_verify_password
               | apply agree_hex_or_bytes | apply agree_item | apply agree_column
               | apply agree_fromisoformat | agree_step ].

Lemma agree_authenticate_user t1 t2 b1 b2 name password ip ua :
  agree (authenticate_user t1 t2 b1 name password ip ua)
        (authenticate_user t1 t2 b2 name password ip ua).
Proof. unfold authenticate_user. agree_auto. Qed.

Lemma agree_create_session tok now b1 b2 uid ip ua remember :
  agree (create_session tok now b1 uid ip ua remember)
        (create_session tok now b2 uid ip ua remember).
Proof. unfold create_session. agree_auto. Qed.

Lemma agree_validate_session now b1 b2 tok :
  agree (validate_session now b1 tok) (validate_session now b2 tok).
Proof. unfold validate_session. agree_auto. Qed.

Lemma agree_logout_session b1 b2 tok :
  agree (logout_session b1 tok) (logout_session b2 tok).
Proof. unfold logout_session. agree_auto. Qed.

Lemma agree_change_password fresh b1 b2 uid cur new ip :
  agree (change_password fresh b1 uid cur new ip) (change_password fresh b2 uid cur new ip).
Proof. unfold change_password. agree_auto. Qed.

End Noninterference.

Section SessionFacts.
Context {U : UnicodeData} {X : ExceptionText} {HL : Hashlib}.

Lemma no_token_some token : token <> [] -> no_token (Some token) = false.
Proof. destruct token; [congruence | reflexivity]. Qed.

(** The audit logger, run: what it leaves in each case. *)
Lemma log_event_failed et uid un ip ua d ok w :
  log_event true et uid un ip ua d ok w =
  (Returned tt, set_trace (fun t => t ++ [Logged Error]) w).
Proof. reflexivity. Qed.

Lemma log_event_written et uid un ip ua d ok w :
  log_event false et uid un ip ua d ok w =
  (Returned tt,
   set_trace (fun t => t ++ [Logged Info])
     (set_audit_logs
        (fun l => l ++ [{| timestamp := db_clock w; event_type := et; audit_user_id := uid;
                           audit_username := un; audit_client_ip := ip;
                           audit_user_agent := ua;
                           details := match d with [] => None | _ => Some d end;
                           success := ok |}])
        (set_trace (fun t => t ++ [Sql InsertAuditLog]) w))).
Proof. reflexivity. Qed.

Lemma validate_expired now af token s u w :
  token <> [] ->
  user_sessions w !! token = Some s ->
  session_is_active s = true ->
  find (fun u => user_id u =? session_user_id s) (users w) = Some u ->
  expires_at s < now ->
  result_of (validate_session now af (Some token) w) = Returned None
  /\ user_sessions (world_of (validate_session now af (Some token) w)) =
     alter deactivate token (user_sessions w).
Proof.
  intros Ht Hs Ha Hu He. unfold validate_session. rewrite (no_token_some _ Ht).
  unfold select_session_user, column, fromisoformat. run.
  rewrite Hs, Ha, Hu. simpl.
  destruct (Z.ltb_spec (expires_at s) now); [|lia]. simpl.
  destruct af; split; reflexivity.
Qed.

Lemma validate_live now af token s u w :
  token <> [] ->
  user_sessions w !! token = Some s ->
  session_is_active s = true ->
  find (fun u => user_id u =? session_user_id s) (users w) = Some u ->
  now <= expires_at s ->
  validate_session now af (Some token) w =
  (Returned (Some ["id" ~> PyInt (session_user_id s); "username" ~> PyStr (username u);
                   "role" ~> PyStr (role u); "session_created" ~> PyTime (created_at s);
                   "session_expires" ~> PyTime (expires_at s)]),
   set_trace (fun t => t ++ [Sql SelectSessionJoinUser]) w).
Proof.
  intros Ht Hs Ha Hu He. unfold validate_session. rewrite (no_token_some _ Ht).
  unfold select_session_user, column, fromisoformat. run.
  rewrite Hs, Ha, Hu. simpl.
  destruct (Z.ltb_spec (expires_at s) now); [lia|]. simpl. rewrite Ha. reflexivity.
Qed.

Lemma validate_inactive now af token s w :
  user_sessions w !! token = Some s ->
  session_is_active s = false ->
  result_of (validate_session now af (Some token) w) = Returned None.
Proof.
  intros Hs Ha. unfold validate_session.
  destruct (no_token (Some token)); [reflexivity|].
  unfold select_session_user. run. rewrite Hs, Ha. reflexivity.
Qed.

Lemma create_session_fresh token t af uid ip ua remember w :
  user_sessions w !! token = None ->
  result_of (create_session token t af uid ip ua remember w) = Returned (Some token)
  /\ user_sessions (world_of (create_session token t af uid ip ua remember w)) =
     <[token := {| session_id := session_seq w + 1; session_user_id := uid;
                   expires_at := t + hours (if remember
                                            then SecurityConfig.SESSION_REMEMBER_HOURS
                                            else SecurityConfig.SESSION_EXPIRY_HOURS);
                   created_at := db_clock w; session_client_ip := ip;
                   session_user_agent := ua; session_is_active := true |}]> (user_sessions w)
  /\ users (world_of (create_session token t af uid ip ua remember w)) = users w.
Proof.
  intros Hn. unfold create_session. run. rewrite Hn. simpl.
  destruct af; repeat split; reflexivity.
Qed.

(** A session whose user row is missing is not in the join: the token is
    refused and nothing is written. *)
Lemma validate_orphaned now af token s w :
  user_sessions w !! token = Some s ->
  find (fun u => user_id u =? session_user_id s) (users w) = None ->
  result_of (validate_session now af (Some token) w) = Returned None
  /\ user_sessions (world_of (validate_session now af (Some token) w)) = user_sessions w.
Proof.
  intros Hs Hu. unfold validate_session.
  destruct (no_token (Some token)); [split; reflexivity|].
  unfold select_session_user. run. rewrite Hs, Hu.
  destruct (session_is_active s); split; reflexivity.
Qed.

(** C5.  An active stored session whose [expires_at] lies in the past, with
    a token that is not empty and a user row that exists, is refused and
    marked inactive; when the user row is missing the token is refused
    too, but the session is left as it is.  A token just created for a
    user validates, while unexpired, to that user's id and role. *)
Theorem session_expiry_and_fresh_token :
  (forall now af token s u w,
      token <> [] ->
      user_sessions w !! token = Some s ->
      session_is_active s = true ->
      find (fun u => user_id u =? session_user_id s) (users w) = Some u ->
      expires_at s < now ->
      result_of (validate_session now af (Some token) w) = Returned None
      /\ session_is_active <$>
           user_sessions (world_of (validate_session now af (Some token) w)) !! token
         = Some false)
  /\ (forall now af token s w,
      user_sessions w !! token = Some s ->
      find (fun u => user_id u =? session_user_id s) (users w) = None ->
      result_of (validate_session now af (Some token) w) = Returned None
      /\ user_sessions (world_of (validate_session now af (Some token) w)) !! token
         = Some s)
  /\ (forall token t af uid ip ua remember w u,
      token <> [] ->
      user_sessions w !! token = None ->
      find (fun u => user_id u =? uid) (users w) = Some u ->
      let created := create_session token t af uid ip ua remember w in
      result_of created = Returned (Some token)
      /\ forall now af',
          now <= t + hours (if remember then SecurityConfig.SESSION_REMEMBER_HOURS
                            else SecurityConfig.SESSION_EXPIRY_HOURS) ->
          exists d,
            result_of (validate_session now af' (Some token) (world_of created)) =
              Returned (Some d)
            /\ row_get "id" d = Some (PyInt uid)
            /\ row_get "role" d = Some (PyStr (role u))).
Proof.
  split; [|split].
  - intros now af token s u w Ht Hs Ha Hu He.
    destruct (validate_expired now af token s u w Ht Hs Ha Hu He) as [-> ->].
    split; [reflexivity|]. rewrite lookup_alter_eq, Hs. reflexivity.
  - intros now af token s w Hs Hu.
    destruct (validate_orphaned now af token s w Hs Hu) as [-> ->].
    split; [reflexivity|exact Hs].
  - intros token t af uid ip ua remember w u Ht Hn Hu created.
    destruct (create_session_fresh token t af uid ip ua remember w Hn) as (Hr & Hs & Hus).
    fold created in Hr, Hs, Hus. split; [exact Hr|].
    intros now af' Hnow.
    match type of Hs with _ = <[_ := ?x]> _ => set (s := x) in Hs end.
    assert (Hl : user_sessions (world_of created) !! token = Some s)
      by (rewrite Hs; apply lookup_insert_eq).
    assert (Hu' : find (fun u => user_id u =? session_user_id s) (users (world_of created))
                  = Some u) by (rewrite Hus; exact Hu).
    rewrite (validate_live now af' token s u _ Ht Hl eq_refl Hu' Hnow).
    eexists. split; [reflexivity | split; reflexivity].
Qed.

End SessionFacts.

Section AuthFacts.
Context {U : UnicodeData} {X : ExceptionText} {HL : Hashlib}.
Import RateLimiter.

(** C10.  Without a token ([None] or the empty string) [validate_session]
    returns [None] and [logout_session] returns [False] at once: the world,
    trace included, is the one they found, so nothing was read, written or
    audited.  [logout_session] on a stored session that is already inactive
    returns [False] and changes neither the sessions nor the audit log. *)
Theorem missing_token_short_circuits now af w :
  validate_session now af None w = (Returned None, w)
  /\ validate_session now af (Some []) w = (Returned None, w)
  /\ logout_session af None w = (Returned false, w)
  /\ logout_session af (Some []) w = (Returned false, w)
  /\ (forall token s,
        user_sessions w !! token = Some s ->
        session_is_active s = false ->
        result_of (logout_session af (Some token) w) = Returned false
        /\ user_sessions (world_of (logout_session af (Some token) w)) = user_sessions w
        /\ audit_logs (world_of (logout_session af (Some token) w)) = audit_logs w).
Proof.
  do 4 (split; [reflexivity|]).
  intros token s Hs Hinactive. unfold logout_session.
  destruct (no_token (Some token)); [repeat split; reflexivity|].
  unfold select_active_session. run. rewrite Hs, Hinactive.
  repeat split; reflexivity.
Qed.

(** A denied check leaves the table as it was. *)
Lemma check_denied t name w res w1 :
  check_rate_limit t name w = (Returned res, w1) ->
  row_get "allowed" res = Some (PyBool false) ->
  w1 = set_trace (fun tr => tr ++ [Sql SelectRateLimit]) w.
Proof.
  unfold check_rate_limit. run.
  destruct (rate_limits w !! name) as [r|]; simpl.
  - destruct (lock_pending r t); simpl; [intros [= <- <-]; reflexivity|].
    destruct (lock_elapsed r t); simpl; intros [= <- <-]; [discriminate | reflexivity].
  - intros [= <- <-]. discriminate.
Qed.

(** C6.  When the rate limiter denies the identifier, [authenticate_user]
    returns [None]; the statements it ran are the rate-limit SELECT and the
    INSERT of the [login_blocked] audit record (which is in the audit log,
    unless its write failed): no lookup in [users], no key derivation,
    whatever the password. *)
Theorem blocked_login_touches_no_credentials
    t_check t_record af name password ip ua w res w1 :
  check_rate_limit t_check name w = (Returned res, w1) ->
  row_get "allowed" res = Some (PyBool false) ->
  let r := authenticate_user t_check t_record af name password ip ua w in
  result_of r = Returned None
  /\ trace (world_of r) =
     trace w ++ [Sql SelectRateLimit] ++
       (if af then [Logged Error] else [Sql InsertAuditLog; Logged Info])
  /\ audit_logs (world_of r) =
     audit_logs w ++
       (if af then []
        else [{| timestamp := db_clock w; event_type := "login_blocked";
                 audit_user_id := None; audit_username := Some name;
                 audit_client_ip := ip; audit_user_agent := ua;
                 details := Some ["reason" ~> PyStr (py "rate_limited")];
                 success := false |}])
  /\ users (world_of r) = users w
  /\ user_sessions (world_of r) = user_sessions w
  /\ rate_limits (world_of r) = rate_limits w.
Proof.
  intros Hc Ha r. pose proof (check_denied _ _ _ _ _ Hc Ha) as ->.
  subst r. unfold authenticate_user, item. run. rewrite Hc. simpl. rewrite Ha. simpl.
  destruct af; simpl; rewrite <- ?app_assoc, ?app_nil_r; repeat split; reflexivity.
Qed.

End AuthFacts.

Section PasswordChange.
Context {U : UnicodeData} {X : ExceptionText} {HL : Hashlib}.

Lemma bytes_eqb_refl b : bytes_eqb b b = true.
Proof.
  induction b as [|x b IH]; [reflexivity|]. simpl. rewrite IH, andb_true_r.
  apply Byte.byte_dec_lb. reflexivity.
Qed.

Lemma bytes_eqb_eq a b : bytes_eqb a b = true <-> a = b.
Proof.
  split; [|intros ->; apply bytes_eqb_refl].
  revert b. induction a as [|x a IH]; intros [|y b]; simpl; try discriminate; [reflexivity|].
  intros H. apply andb_true_iff in H as [H1 H2].
  apply Byte.byte_dec_bl in H1. subst. f_equal. apply IH, H2.
Qed.

(** A password change that reports success has deactivated every session
    of the user. *)
Lemma change_password_success_sessions fresh af uid cur new ip w res w' :
  change_password fresh af uid cur new ip w = (Returned res, w') ->
  row_get "success" res = Some (PyBool true) ->
  user_sessions w' =
  (fun s => if session_user_id s =? uid then deactivate s else s) <$> user_sessions w.
Proof.
  unfold change_password.
  destruct (valid (validate_password new)); simpl; [|intros [= <- <-]; discriminate].
  unfold hex_or_bytes, _verify_password, _hash_password. run.
  destruct (find _ (users w)) as [u|]; simpl; [|intros [= <- <-]; discriminate].
  destruct (password_hash u) as [hs|hb]; [destruct (fromhex hs) as [hb|]|]; simpl;
    try (intros [= <- <-]; discriminate);
    (destruct (salt u) as [ss|sb]; [destruct (fromhex ss) as [sb|]|]; simpl;
     try (intros [= <- <-]; discriminate);
     (destruct (encode_utf8 cur); simpl; try (intros [= <- <-]; discriminate);
      destruct (bytes_eqb _ hb); simpl;
      [ destruct (encode_utf8 new); simpl; try (intros [= <- <-]; discriminate);
        destruct af; simpl; intros [= <- <-]; reflexivity
      | destruct af; simpl; intros [= <- <-]; discriminate ])).
Qed.

(** A token validates only if a session is stored for it, for the user
    the result names. *)
Lemma validate_some_stored now af token w d :
  result_of (validate_session now af (Some token) w) = Returned (Some d) ->
  exists s, user_sessions w !! token = Some s
            /\ row_get "id" d = Some (PyInt (session_user_id s)).
Proof.
  unfold validate_session. destruct (no_token (Some token)); [discriminate|].
  unfold select_session_user, column, fromisoformat. run.
  destruct (user_sessions w !! token) as [s|]; simpl; [|discriminate].
  destruct (session_is_active s) eqn:Ea; simpl; [|discriminate].
  destruct (find _ (users w)) as [u|]; simpl; [|discriminate].
  destruct (expires_at s <? now); simpl.
  - destruct af; discriminate.
  - rewrite Ea. simpl. intros [= <-]. exists s. split; reflexivity.
Qed.

(** C4.  After [change_password] has returned success, every token that
    validated for that user before the change is refused by
    [validate_session]. *)
Theorem password_change_revokes_sessions fresh af uid cur new ip w res w' :
  change_password fresh af uid cur new ip w = (Returned res, w') ->
  row_get "success" res = Some (PyBool true) ->
  forall token now0 af0 d,
    result_of (validate_session now0 af0 (Some token) w) = Returned (Some d) ->
    row_get "id" d = Some (PyInt uid) ->
    forall now af', result_of (validate_session now af' (Some token) w') = Returned None.
Proof.
  intros Hc Hs token now0 af0 d Hv Hid now af'.
  destruct (validate_some_stored _ _ _ _ _ Hv) as (s & Hst & Hid').
  rewrite Hid in Hid'. injection Hid' as Huid.
  apply (validate_inactive now af' token (deactivate s)); [|reflexivity].
  rewrite (change_password_success_sessions _ _ _ _ _ _ _ _ _ Hc Hs).
  rewrite lookup_fmap, Hst. simpl. rewrite <- Huid, Z.eqb_refl. reflexivity.
Qed.

(** C7.  [log_event] returns whether or not its write fails, and every
    audited operation returns the same and leaves the same data for both
    fates of its audit record. *)
Theorem audit_failure_is_isolated :
  (forall b et uid un ip ua d ok w,
      result_of (log_event b et uid un ip ua d ok w) = Returned tt
      /\ same_data (world_of (log_event b et uid un ip ua d ok w)) w)
  /\ (forall b1 b2,
        (forall t1 t2 name password ip ua,
            agree (authenticate_user t1 t2 b1 name password ip ua)
                  (authenticate_user t1 t2 b2 name password ip ua))
        /\ (forall token now uid ip ua remember,
               agree (create_session token now b1 uid ip ua remember)
                     (create_session token now b2 uid ip ua remember))
        /\ (forall now token,
               agree (validate_session now b1 token) (validate_session now b2 token))
        /\ (forall token, agree (logout_session b1 token) (logout_session b2 token))
        /\ (forall fresh uid cur new ip,
               agree (change_password fresh b1 uid cur new ip)
                     (change_password fresh b2 uid cur new ip))).
Proof.
  split; [intros; apply log_event_returns|].
  intros b1 b2. split; [|split; [|split; [|split]]]; intros.
  - apply agree_authenticate_user.
  - apply agree_create_session.
  - apply agree_validate_session.
  - apply agree_logout_session.
  - apply agree_change_password.
Qed.

End PasswordChange.

(** C1.  The session of a deactivated account still validates: the row of
    the join has two columns named [is_active], and the one the program reads
    is the session's. *)
Theorem deactivated_account_session_still_validates :
  validate_session 500 false (Some (py "tok")) deactivated_account_world =
  (Returned (Some ["id" ~> PyInt 7; "username" ~> PyStr (py "mallory");
                   "role" ~> PyStr (py "employee"); "session_created" ~> PyTime 0;
                   "session_expires" ~> PyTime 1000]),
   set_trace (fun t => t ++ [Sql SelectSessionJoinUser]) deactivated_account_world).
Proof. reflexivity. Qed.

(** ** Referential integrity is kept by the session operations *)

Section StoreInvariant.
Context {U : UnicodeData} {X : ExceptionText} {HL : Hashlib}.

(** In the row of the join, [is_active] is the session's column: the
    user's comes later under the same name. *)
Lemma join_row_is_active token s u :
  row_get "is_active" (session_user_row token s u) = Some (of_bool (session_is_active s)).
Proof. reflexivity. Qed.

Lemma store_ok_same w w' :
  users w' = users w -> user_sessions w' = user_sessions w -> store_ok w -> store_ok w'.
Proof. intros Hu Hs Hok token s. rewrite Hu, Hs. apply Hok. Qed.

Lemma store_ok_deactivate w w' token :
  users w' = users w ->
  user_sessions w' = alter deactivate token (user_sessions w) ->
  store_ok w -> store_ok w'.
Proof.
  intros Hu Hs Hok t s. rewrite Hu, Hs, lookup_alter. case_decide.
  - subst t. destruct (user_sessions w !! token) as [s0|] eqn:E; simpl; [|discriminate].
    intros [= <-]. apply (Hok token s0 E).
  - apply Hok.
Qed.

Lemma store_ok_validate_session now af token w :
  store_ok w -> store_ok (world_of (validate_session now af token w)).
Proof.
  intros Hok. unfold validate_session. destruct (no_token token); [exact Hok|].
  unfold select_session_user, column, fromisoformat. run.
  destruct (user_sessions w !! default [] token) as [s|]; simpl; [|exact Hok].
  destruct (session_is_active s) eqn:Ea; simpl; [|exact Hok].
  destruct (find _ (users w)) as [u|]; simpl; [|exact Hok].
  destruct (expires_at s <? now); simpl.
  - destruct af; simpl;
      (eapply store_ok_deactivate; [| |exact Hok]; reflexivity).
  - rewrite Ea. simpl. exact Hok.
Qed.

Lemma store_ok_logout_session af token w :
  store_ok w -> store_ok (world_of (logout_session af token w)).
Proof.
  intros Hok. unfold logout_session. destruct (no_token token); [exact Hok|].
  unfold select_active_session. run.
  destruct (user_sessions w !! default [] token) as [s|]; simpl; [|exact Hok].
  destruct (session_is_active s); simpl; [|exact Hok].
  destruct af; simpl; (eapply store_ok_deactivate; [| |exact Hok]; reflexivity).
Qed.

(** A session created with a token that is not empty, for a user that
    exists, keeps the store well formed. *)
Lemma store_ok_create_session token t af uid ip ua remember w u :
  token <> [] ->
  find (fun u => user_id u =? uid) (users w) = Some u ->
  store_ok w ->
  store_ok (world_of (create_session token t af uid ip ua remember w)).
Proof.
  intros Ht Hu Hok. unfold create_session. run.
  destruct (user_sessions w !! token) as [s0|] eqn:E; simpl; [exact Hok|].
  destruct af; simpl; intros t' s'; simpl; rewrite lookup_insert; case_decide;
    try apply Hok; subst t'; intros [= <-]; (split; [exact Ht | exists u; exact Hu]).
Qed.

Lemma find_user_map (f : user -> user) x l u :
  (forall v, user_id (f v) = user_id v) ->
  find (fun v => user_id v =? x) l = Some u ->
  find (fun v => user_id v =? x) (map f l) = Some (f u).
Proof.
  intros Hf. induction l as [|v l IH]; simpl; [discriminate|].
  rewrite Hf. destruct (user_id v =? x); [intros [= ->]; reflexivity | exact IH].
Qed.

Lemma store_ok_password_changed (f : user -> user) uid w w' :
  (forall v, user_id (f v) = user_id v) ->
  users w' = map f (users w) ->
  user_sessions w' =
    (fun s => if session_user_id s =? uid then deactivate s else s) <$> user_sessions w ->
  store_ok w -> store_ok w'.
Proof.
  intros Hf Hu Hs Hok token s. rewrite Hu, Hs, lookup_fmap.
  destruct (user_sessions w !! token) as [s0|] eqn:E; simpl; [|discriminate].
  intros [= <-]. destruct (Hok token s0 E) as [Ht [u Hfind]].
  split; [exact Ht|]. exists (f u).
  destruct (session_user_id s0 =? uid); apply find_user_map; assumption.
Qed.

Lemma store_ok_change_password fresh af uid cur new ip w :
  store_ok w -> store_ok (world_of (change_password fresh af uid cur new ip w)).
Proof.
  intros Hok. unfold change_password.
  destruct (valid (validate_password new)); simpl; [|exact Hok].
  unfold hex_or_bytes, _verify_password, _hash_password. run.
  destruct (find _ (users w)) as [u|]; simpl; [|exact Hok].
  destruct (password_hash u) as [hs|hb]; [destruct (fromhex hs) as [hb|]|]; simpl;
    try exact Hok;
    (destruct (salt u) as [ss|sb]; [destruct (fromhex ss) as [sb|]|]; simpl;
     try exact Hok;
     (destruct (encode_utf8 cur); simpl; try exact Hok;
      destruct (bytes_eqb _ hb); simpl;
      [ destruct (encode_utf8 new); simpl; try exact Hok;
        destruct af; simpl;
        (eapply store_ok_password_changed; [| | |exact Hok];
         [|reflexivity|reflexivity]; intros v; simpl; destruct (user_id v =? uid);
         reflexivity)
      | destruct af; exact Hok ])).
Qed.
End StoreInvariant.

Section PasswordChangeRuns.
Context {U : UnicodeData} {X : ExceptionText} {HL : Hashlib}.

(** A password change goes through when the new password passes the
    policy and the current one derives the stored hash. *)
Lemma change_password_accepted fresh af uid cur new ip w u hb sb pwc pwn :
  valid (validate_password new) = true ->
  find (fun u => user_id u =? uid) (users w) = Some u ->
  password_hash u = Blob hb ->
  salt u = Blob sb ->
  encode_utf8 cur = Some pwc ->
  encode_utf8 new = Some pwn ->
  pbkdf2_hmac pwc sb SecurityConfig.HASH_ITERATIONS = hb ->
  result_of (change_password fresh af uid cur new ip w) = Returned ["success" ~> PyBool true].
Proof.
  intros Hv Hu Hh Hs Hc Hn Hk. unfold change_password. rewrite Hv. simpl.
  unfold hex_or_bytes, _verify_password, _hash_password. run.
  rewrite Hu. simpl. rewrite Hh, Hs. simpl. rewrite Hc. simpl.
  rewrite Hk, bytes_eqb_refl. simpl. rewrite Hn. simpl.
  destruct af; reflexivity.
Qed.
End PasswordChangeRuns.

Lemma run_pairing {A} (r : outcome A * world) : r = (result_of r, world_of r).
Proof. destruct r; reflexivity. Qed.

Lemma password_change_revokes_sessions_witness :
  let changed :=
    @change_password ascii_only rfc8018 [] false 1 (py "OldPassw0rd") (py "NewPassw0rd1") None
      alice_world in
  result_of changed = Returned ["success" ~> PyBool true]
  /\ result_of (validate_session 10 false (Some (py "alice-token")) alice_world) =
     Returned (Some ["id" ~> PyInt 1; "username" ~> PyStr (py "alice");
                     "role" ~> PyStr (py "admin"); "session_created" ~> PyTime 0;
                     "session_expires" ~> PyTime 1000])
  /\ result_of (validate_session 20 false (Some (py "alice-token")) (world_of changed)) =
     Returned None.
Proof.
  intros changed.
  assert (Hr : result_of changed = Returned ["success" ~> PyBool true]).
  { apply (@change_password_accepted ascii_only rfc8018 [] false 1 (py "OldPassw0rd")
             (py "NewPassw0rd1") None alice_world alice
             (@pbkdf2_hmac rfc8018 (bytes_of_string "OldPassw0rd") alice_salt
                SecurityConfig.HASH_ITERATIONS) alice_salt
             (bytes_of_string "OldPassw0rd") (bytes_of_string "NewPassw0rd1"));
      reflexivity. }
  split; [exact Hr|]. split; [reflexivity|].
  exact (@password_change_revokes_sessions ascii_only rfc8018 [] false 1 (py "OldPassw0rd")
           (py "NewPassw0rd1") None alice_world ["success" ~> PyBool true] (world_of changed)
           (eq_trans (run_pairing changed) (f_equal (fun o => (o, world_of changed)) Hr))
           eq_refl (py "alice-token") 10 false _ eq_refl eq_refl 20 false).
Defined.

(** ** Password hashing *)

Section Sha256Facts.
Import SHA256.

Lemma sha256_length m : length (sha256 m) = digest_size.
Proof. reflexivity. Qed.

Lemma hmac_key_block_long key :
  (block_size < length key)%nat -> hmac_key_block key = hmac_key_block (sha256 key).
Proof.
  intros Hlong. unfold hmac_key_block.
  destruct (Nat.ltb_spec block_size (length key)); [|lia].
  rewrite sha256_length. reflexivity.
Qed.

(** RFC 2104: a key longer than a block is replaced by its digest. *)
Lemma hmac_long_key key msg :
  (block_size < length key)%nat -> hmac_sha256 key msg = hmac_sha256 (sha256 key) msg.
Proof. intros Hlong. unfold hmac_sha256. rewrite (hmac_key_block_long key Hlong). reflexivity. Qed.

Lemma N_iter_ext {A} (f g : A -> A) n x : (forall a, f a = g a) -> N.iter n f x = N.iter n g x.
Proof.
  intros E. induction n as [|n IH] using N.peano_ind; [reflexivity|].
  rewrite !N.iter_succ, IH. apply E.
Qed.

Lemma pbkdf2_long_key password salt iterations :
  (block_size < length password)%nat ->
  pbkdf2_hmac_sha256 password salt iterations =
  pbkdf2_hmac_sha256 (sha256 password) salt iterations.
Proof.
  intros Hlong. unfold pbkdf2_hmac_sha256. rewrite (hmac_long_key _ _ Hlong).
  f_equal. apply N_iter_ext. intros [u t]. simpl. rewrite (hmac_long_key _ _ Hlong). reflexivity.
Qed.
End Sha256Facts.

Section PasswordHashing.
Context {HL : Hashlib}.
Import SecurityConfig.

Lemma hash_password_runs fresh password pw salt w :
  encode_utf8 password = Some pw ->
  _hash_password fresh password (Some salt) w =
  (Returned (pbkdf2_hmac pw salt HASH_ITERATIONS, salt), set_trace (fun t => t ++ [Kdf]) w).
Proof. intros E. unfold _hash_password. rewrite E. reflexivity. Qed.

Lemma verify_password_runs password pw stored salt w :
  encode_utf8 password = Some pw ->
  _verify_password password stored salt w =
  (Returned (bytes_eqb (pbkdf2_hmac pw salt HASH_ITERATIONS) stored),
   set_trace (fun t => t ++ [Kdf]) w).
Proof. intros E. unfold _verify_password. run. rewrite (hash_password_runs _ _ _ _ _ E). reflexivity. Qed.

(** C3, as amended.  Verifying a password against the digest derived from
    it with the same salt returns true; verifying any password and salt
    against a digest returns true exactly when they derive that digest. *)
Theorem verify_accepts_equal_digests fresh password salt pw w :
  encode_utf8 password = Some pw ->
  let digest := pbkdf2_hmac pw salt HASH_ITERATIONS in
  result_of (_hash_password fresh password (Some salt) w) = Returned (digest, salt)
  /\ (forall w', result_of (_verify_password password digest salt w') = Returned true)
  /\ (forall other salt' pw' w',
         encode_utf8 other = Some pw' ->
         exists accepted,
           result_of (_verify_password other digest salt' w') = Returned accepted
           /\ (accepted = true <-> pbkdf2_hmac pw' salt' HASH_ITERATIONS = digest)).
Proof.
  intros E digest. split; [|split].
  - rewrite (hash_password_runs _ _ _ _ _ E). reflexivity.
  - intros w'. rewrite (verify_password_runs _ _ _ _ _ E). unfold result_of. simpl.
    subst digest. rewrite bytes_eqb_refl. reflexivity.
  - intros other salt' pw' w' E'. rewrite (verify_password_runs _ _ _ _ _ E').
    eexists. split; [reflexivity|]. apply bytes_eqb_eq.
Qed.
End PasswordHashing.

Lemma long_password_utf8 :
  encode_utf8 long_password =
  Some (bytes_of_string
          "correct horse battery staple correct horse battery staple 0000-98662724").
Proof. vm_compute. reflexivity. Qed.

Lemma digest_password_utf8 :
  encode_utf8 digest_password =
  Some (SHA256.sha256
          (bytes_of_string
             "correct horse battery staple correct horse battery staple 0000-98662724")).
Proof. vm_compute. reflexivity. Qed.

Lemma rfc8018_unfold password salt iterations :
  @pbkdf2_hmac rfc8018 password salt iterations = pbkdf2_hmac_sha256 password salt iterations.
Proof. reflexivity. Qed.

(** A password longer than a block and the string that encodes its SHA-256
    digest derive the same key: each verifies against the other's digest. *)
Lemma long_key_verifies password other pw salt w :
  encode_utf8 password = Some pw ->
  (SHA256.block_size < length pw)%nat ->
  encode_utf8 other = Some (SHA256.sha256 pw) ->
  result_of (@_verify_password rfc8018 other
               (@pbkdf2_hmac rfc8018 pw salt SecurityConfig.HASH_ITERATIONS) salt w) =
  Returned true.
Proof.
  intros E Hlong E'. rewrite (verify_password_runs _ _ _ _ _ E').
  unfold result_of. cbn [fst].
  generalize SecurityConfig.HASH_ITERATIONS. intros iterations.
  rewrite (rfc8018_unfold pw), (rfc8018_unfold (SHA256.sha256 pw)).
  rewrite (pbkdf2_long_key pw salt iterations Hlong), bytes_eqb_refl. reflexivity.
Qed.

Lemma long_password_length :
  (SHA256.block_size <
   length (bytes_of_string
             "correct horse battery staple correct horse battery staple 0000-98662724"))%nat.
Proof. vm_compute. lia. Qed.

(** C3 as stated fails: the two passwords differ, yet the second verifies
    against the digest of the first. *)
Lemma different_password_verifies :
  long_password <> digest_password
  /\ result_of (@_hash_password rfc8018 [] long_password (Some alice_salt) empty_world) =
       Returned (@pbkdf2_hmac rfc8018
                   (bytes_of_string
                      "correct horse battery staple correct horse battery staple 0000-98662724")
                   alice_salt SecurityConfig.HASH_ITERATIONS, alice_salt)
  /\ result_of (@_verify_password rfc8018 digest_password
                  (@pbkdf2_hmac rfc8018
                     (bytes_of_string
                        "correct horse battery staple correct horse battery staple 0000-98662724")
                     alice_salt SecurityConfig.HASH_ITERATIONS)
                  alice_salt empty_world) = Returned true.
Proof.
  split; [discriminate|]. split.
  - rewrite (hash_password_runs _ _ _ _ _ long_password_utf8). reflexivity.
  - exact (long_key_verifies long_password digest_password _ alice_salt empty_world
             long_password_utf8 long_password_length digest_password_utf8).
Qed.

Lemma verify_accepts_equal_digests_witness :
  encode_utf8 (py "OldPassw0rd") = Some (bytes_of_string "OldPassw0rd")
  /\ result_of
       (@_verify_password rfc8018 (py "OldPassw0rd")
          (@pbkdf2_hmac rfc8018 (bytes_of_string "OldPassw0rd") alice_salt
             SecurityConfig.HASH_ITERATIONS)
          alice_salt empty_world) = Returned true.
Proof.
  split; [reflexivity|].
  apply (@verify_accepts_equal_digests rfc8018 [] (py "OldPassw0rd") alice_salt
           (bytes_of_string "OldPassw0rd") empty_world eq_refl).
Defined.

(** ** The security middleware *)

Section Middleware.
Context {U : UnicodeData}.
Import SecurityMiddleware.

Lemma probe_is_sql_injection :
  _check_security_threats (py "/api/search" ++ py "?" ++ py "q=' OR 1=1--") =
  Some "SQL Injection attempt"%string.
Proof. vm_compute. reflexivity. Qed.

(** The two ways [process_request] refuses a request before it looks at
    the body. *)
Lemma process_request_blocked_agent audit_fails environ w :
  any_match blocked_user_agents (default [] (HTTP_USER_AGENT environ)) = true ->
  process_request audit_fails environ w =
  (Returned (Some (403, error_body "Forbidden"), environ),
   set_trace (fun t => t ++ [Logged Warning]) w).
Proof. intros Hua. unfold process_request. rewrite Hua. reflexivity. Qed.

Lemma process_request_threat environ w label :
  any_match blocked_user_agents (default [] (HTTP_USER_AGENT environ)) = false ->
  _check_security_threats
    (default [] (PATH_INFO environ) ++ py "?" ++ default [] (QUERY_STRING environ)) =
    Some label ->
  result_of (process_request false environ w) =
    Returned (Some (403, error_body "Security threat detected"), environ)
  /\ audit_log (world_of (process_request false environ w)) =
     audit_log w ++
     [{| entry_user_id := None; action := "SECURITY_THREAT"; resource_type := None;
         resource_id := None;
         entry_details :=
           Some (py "Threat: " ++ py label ++ py ", Path: "
                 ++ default [] (PATH_INFO environ));
         ip_address := Some (default (py "unknown") (REMOTE_ADDR environ));
         entry_user_agent := Some (default [] (HTTP_USER_AGENT environ));
         entry_created_at := db_clock w |}]
  /\ result_of (process_request true environ w) =
     Returned (Some (500, error_body "Security check failed"), environ).
Proof.
  intros Hua Hthreat. unfold process_request. rewrite Hua, Hthreat.
  repeat split; reflexivity.
Qed.

(** C8.  The request for [/api/search] with the query string
    [q=' OR 1=1--] is answered 403 whoever sends it; the category detected
    on the path and query is "SQL Injection attempt", and for a client
    whose user agent is not on the block list that category is what the
    audit entry records. *)
Theorem sql_injection_probe_is_blocked method user_agent client_ip content_length body w :
  let environ := probe_request method user_agent client_ip content_length body in
  let blocked := any_match blocked_user_agents (default [] user_agent) in
  let served := process_request false environ w in
  _check_security_threats (py "/api/search" ++ py "?" ++ py "q=' OR 1=1--") =
    Some "SQL Injection attempt"%string
  /\ result_of served =
     Returned (Some (403, if blocked then error_body "Forbidden"
                          else error_body "Security threat detected"), environ)
  /\ audit_log (world_of served) =
     audit_log w ++
     (if blocked then []
      else [{| entry_user_id := None; action := "SECURITY_THREAT"; resource_type := None;
               resource_id := None;
               entry_details :=
                 Some (py "Threat: SQL Injection attempt, Path: /api/search");
               ip_address := Some (default (py "unknown") client_ip);
               entry_user_agent := Some (default [] user_agent);
               entry_created_at := db_clock w |}]).
Proof.
  intros environ blocked served. split; [apply probe_is_sql_injection|].
  destruct blocked eqn:Hua; subst served.
  - rewrite (process_request_blocked_agent false environ w Hua).
    split; [reflexivity | symmetry; apply app_nil_r].
  - destruct (process_request_threat environ w _ Hua probe_is_sql_injection)
      as (Hr & Ha & _).
    split; [exact Hr | exact Ha].
Qed.

(** When the audit entry cannot be written the exception reaches the
    handler of [process_request]: the answer is 500. *)
Lemma probe_with_failing_audit method user_agent client_ip content_length body w :
  any_match blocked_user_agents (default [] user_agent) = false ->
  let environ := probe_request method user_agent client_ip content_length body in
  result_of (process_request true environ w) =
  Returned (Some (500, error_body "Security check failed"), environ).
Proof.
  intros Hua environ.
  apply (process_request_threat environ w _ Hua probe_is_sql_injection).
Qed.
End Middleware.

(** The patterns against [re], on strings the Python module was run on. *)
Example sql_patterns_on_probe :
  map (fun p => @re_search ascii_only p (py "/api/search?q=' or 1=1--"))
    SecurityMiddleware.sql_injection_patterns = [false; true; true; false].
Proof. vm_compute. reflexivity. Qed.

Example sql_keyword_needs_boundaries :
  map (fun s => @re_search ascii_only (hd Eps SecurityMiddleware.sql_injection_patterns) (py s))
    ["a select b"; "selection"; "x_drop"; "/api/users?select=1"]%string =
  [true; false; false; true].
Proof. vm_compute. reflexivity. Qed.

Example script_element_spans_no_newline :
  map (fun s => @re_search ascii_only (hd Eps SecurityMiddleware.xss_patterns) s)
    [py "<script>alert(1)</script>"; py "<script x='>'>a</script>";
     py "<script>" ++ [10%N] ++ py "</script>"] =
  [true; true; false].
Proof. vm_compute. reflexivity. Qed.

Example clean_path_passes :
  @SecurityMiddleware._check_security_threats ascii_only (py "/api/projects?page=2") = None.
Proof. vm_compute. reflexivity. Qed.

(** ** The properties at concrete inputs *)

Lemma alice_world_ok : store_ok alice_world.
Proof.
  intros token s Hs. change (user_sessions alice_world) with
    ({[ py "alice-token" := alice_session ]} : gmap pystr session) in Hs.
  apply lookup_singleton_Some in Hs as [<- <-].
  split; [discriminate | exists alice; reflexivity].
Qed.

Lemma session_expiry_and_fresh_token_witness :
  user_sessions alice_world !! py "alice-token" = Some alice_session
  /\ result_of (validate_session 2000 false (Some (py "alice-token")) alice_world) =
     Returned None
  /\ session_is_active <$>
       user_sessions
         (world_of (validate_session 2000 false (Some (py "alice-token")) alice_world))
       !! py "alice-token" = Some false.
Proof.
  split; [reflexivity|].
  refine (proj1 session_expiry_and_fresh_token 2000 false (py "alice-token") alice_session
            alice alice_world _ eq_refl eq_refl eq_refl eq_refl).
  discriminate.
Defined.

(** C5 as stated fails: the session is stored, active and expired, the
    token is refused, and the session is still active afterwards. *)
Lemma orphaned_session_stays_active :
  (exists s, user_sessions orphaned_session_world !! py "tok" = Some s
             /\ session_is_active s = true
             /\ expires_at s < hours 9)
  /\ result_of (validate_session (hours 9) false (Some (py "tok")) orphaned_session_world) =
     Returned None
  /\ session_is_active <$>
       user_sessions
         (world_of (validate_session (hours 9) false (Some (py "tok")) orphaned_session_world))
       !! py "tok" = Some true.
Proof.
  split; [|split; reflexivity].
  eexists. split; [reflexivity|]. split; [reflexivity|]. vm_compute. reflexivity.
Qed.

Lemma blocked_login_touches_no_credentials_witness :
  RateLimiter.check_rate_limit 100 (py "admin") locked_world =
    (Returned ["allowed" ~> PyBool false; "attempts" ~> PyInt 5;
               "locked_until" ~> PyTime 900000005; "time_remaining_minutes" ~> PyInt 14],
     set_trace (fun t => t ++ [Sql SelectRateLimit]) locked_world)
  /\ result_of (@authenticate_user no_exception_text rfc8018 100 101 false (py "admin")
                  (py "Correct-Horse-1") None None locked_world) = Returned None.
Proof.
  split; [reflexivity|].
  exact (proj1 (@blocked_login_touches_no_credentials no_exception_text rfc8018 100 101 false
                  (py "admin") (py "Correct-Horse-1") None None locked_world _ _
                  eq_refl eq_refl)).
Defined.

Lemma missing_token_short_circuits_witness :
  session_is_active <$> user_sessions logged_out_world !! py "alice-token" = Some false
  /\ result_of (logout_session false (Some (py "alice-token")) logged_out_world) =
     Returned false.
Proof.
  split; [reflexivity|].
  exact (proj1 (proj2 (proj2 (proj2 (proj2 (missing_token_short_circuits 0 false
                                               logged_out_world))))
                  (py "alice-token") _ eq_refl eq_refl)).
Defined.

(** ** More on the rate limiter *)

Section RateLimiterMore.
Import SecurityConfig RateLimiter.
Implicit Types (w : world) (identifier : pystr) (r : rate_limit).

Lemma record_failure_runs t identifier w r :
  rate_limits w !! identifier = Some r ->
  attempts r + 1 <= sqlite_int_max ->
  result_of (record_attempt t identifier false w) = Returned tt.
Proof.
  intros Hr Hle. unfold record_attempt. run. rewrite Hr.
  destruct (Z.ltb_spec sqlite_int_max (attempts r + 1)); [lia | reflexivity].
Qed.

Lemma failures_cons t ts identifier w :
  result_of (record_attempt t identifier false w) = Returned tt ->
  failures (t :: ts) identifier w =
  failures ts identifier (world_of (record_attempt t identifier false w)).
Proof.
  intros Hr.
  change (failures (t :: ts) identifier w)
    with ((record_attempt t identifier false ;; failures ts identifier) w).
  unfold mbind, M_bind, bind, result_of, world_of in *.
  destruct (record_attempt t identifier false w) as [[[]|e] w']; simpl in *;
    [reflexivity | discriminate].
Qed.

Lemma failures_nil identifier w : failures [] identifier w = (Returned tt, w).
Proof. reflexivity. Qed.

Lemma world_of_pair {A} (o : outcome A) w : world_of (o, w) = w.
Proof. reflexivity. Qed.

Lemma result_of_pair {A} (o : outcome A) w : result_of (o, w) = o.
Proof. reflexivity. Qed.

Lemma last_cons_default {A} (l : list A) a d : List.last (a :: l) d = List.last l a.
Proof.
  revert a d. induction l as [|b l IH]; intros a d; [reflexivity|].
  change (List.last (a :: b :: l) d) with (List.last (b :: l) d).
  rewrite (IH b d), (IH b a). reflexivity.
Qed.

(** Failures on top of a record: each adds one, the last one decides the lock. *)
Lemma failures_on_record ts : forall t identifier w r,
  rate_limits w !! identifier = Some r ->
  attempts r + Z.of_nat (length (t :: ts)) <= sqlite_int_max ->
  result_of (failures (t :: ts) identifier w) = Returned tt
  /\ rate_limits (world_of (failures (t :: ts) identifier w)) !! identifier =
     Some {| attempts := attempts r + Z.of_nat (length (t :: ts));
             first_attempt := first_attempt r;
             last_attempt := Some (List.last ts t);
             locked_until :=
               if MAX_LOGIN_ATTEMPTS <=? attempts r + Z.of_nat (length (t :: ts))
               then Some (List.last ts t + minutes LOCKOUT_DURATION_MINUTES) else None |}.
Proof.
  induction ts as [|t' ts IH]; intros t identifier w r Hr Hle.
  - assert (Hone : attempts r + 1 <= sqlite_int_max) by (simpl in Hle; lia).
    pose proof (record_failure_runs t identifier w r Hr Hone) as Hrun.
    pose proof (record_failure_again t identifier w r Hr Hone) as Hrec.
    rewrite (failures_cons _ _ _ _ Hrun), failures_nil, world_of_pair.
    split; [reflexivity|]. rewrite Hrec, lookup_insert_eq. reflexivity.
  - assert (Hone : attempts r + 1 <= sqlite_int_max)
      by (change (length (t :: t' :: ts)) with (S (length (t' :: ts))) in Hle; lia).
    pose proof (record_failure_runs t identifier w r Hr Hone) as Hrun.
    pose proof (record_failure_again t identifier w r Hr Hone) as Hrec.
    rewrite (failures_cons _ _ _ _ Hrun).
    set (w1 := world_of (record_attempt t identifier false w)) in *.
    assert (Hr1 : rate_limits w1 !! identifier =
                  Some {| attempts := attempts r + 1; first_attempt := first_attempt r;
                          last_attempt := Some t;
                          locked_until := if MAX_LOGIN_ATTEMPTS <=? attempts r + 1
                                          then Some (t + minutes LOCKOUT_DURATION_MINUTES)
                                          else None |})
      by (rewrite Hrec; apply lookup_insert_eq).
    destruct (IH t' identifier w1 _ Hr1) as [Hres Hfin].
    { simpl attempts. change (length (t :: t' :: ts)) with (S (length (t' :: ts))) in Hle.
      lia. }
    split; [exact Hres|]. rewrite Hfin, (last_cons_default ts t' t).
    cbn [attempts first_attempt].
    change (length (t :: t' :: ts)) with (S (length (t' :: ts))).
    replace (attempts r + 1 + Z.of_nat (length (t' :: ts)))
      with (attempts r + Z.of_nat (S (length (t' :: ts)))) by lia.
    reflexivity.
Qed.

(** X1.  From no record, [n >= 1] failed attempts in a row leave a counter
    of exactly [n], first seen at the first attempt and last at the last;
    it is locked if and only if [n] is at least the maximum, and then until
    fifteen minutes after the LAST failure: each further failure moves the
    lock. *)
Theorem failures_count_and_lock t ts identifier w :
  rate_limits w !! identifier = None ->
  Z.of_nat (length (t :: ts)) <= sqlite_int_max ->
  result_of (failures (t :: ts) identifier w) = Returned tt
  /\ rate_limits (world_of (failures (t :: ts) identifier w)) !! identifier =
     Some {| attempts := Z.of_nat (length (t :: ts));
             first_attempt := Some t;
             last_attempt := Some (List.last ts t);
             locked_until :=
               if MAX_LOGIN_ATTEMPTS <=? Z.of_nat (length (t :: ts))
               then Some (List.last ts t + minutes LOCKOUT_DURATION_MINUTES) else None |}.
Proof.
  intros Hn Hle.
  assert (Hrun : result_of (record_attempt t identifier false w) = Returned tt)
    by (unfold record_attempt; run; rewrite Hn; reflexivity).
  pose proof (record_failure_fresh t identifier w Hn) as Hrec.
  destruct ts as [|t' ts].
  - rewrite (failures_cons _ _ _ _ Hrun), failures_nil, world_of_pair.
    split; [reflexivity|]. rewrite Hrec, lookup_insert_eq. reflexivity.
  - rewrite (failures_cons _ _ _ _ Hrun).
    set (w1 := world_of (record_attempt t identifier false w)) in *.
    assert (Hr1 : rate_limits w1 !! identifier =
                  Some {| attempts := 1; first_attempt := Some t; last_attempt := Some t;
                          locked_until := None |})
      by (rewrite Hrec; apply lookup_insert_eq).
    destruct (failures_on_record ts t' identifier w1 _ Hr1) as [Hres Hfin].
    { simpl attempts. change (length (t :: t' :: ts)) with (S (length (t' :: ts))) in Hle.
      lia. }
    split; [exact Hres|]. rewrite Hfin, (last_cons_default ts t' t).
    cbn [attempts first_attempt].
    change (length (t :: t' :: ts)) with (S (length (t' :: ts))).
    replace (1 + Z.of_nat (length (t' :: ts))) with (Z.of_nat (S (length (t' :: ts))))
      by lia.
    reflexivity.
Qed.

(** X2.  The limiter is scoped to the identifier: a check or a recorded
    attempt for one identifier leaves the record of every other one as it
    was. *)
Theorem limiter_scoped_to_identifier now identifier other ok w :
  identifier <> other ->
  rate_limits (world_of (check_rate_limit now identifier w)) !! other = rate_limits w !! other
  /\ rate_limits (world_of (record_attempt now identifier ok w)) !! other =
     rate_limits w !! other.
Proof.
  intros Hne. split.
  - unfold check_rate_limit. run.
    destruct (rate_limits w !! identifier) as [r|]; simpl; [|reflexivity].
    destruct (lock_pending r now); simpl; [reflexivity|].
    destruct (lock_elapsed r now); simpl; [|reflexivity].
    apply lookup_alter_ne, Hne.
  - unfold record_attempt. destruct ok; run.
    + apply lookup_delete_ne, Hne.
    + destruct (rate_limits w !! identifier) as [r|]; simpl.
      * destruct (sqlite_int_max <? attempts r + 1); simpl; [reflexivity|].
        apply lookup_alter_ne, Hne.
      * apply lookup_insert_ne, Hne.
Qed.

(** X3.  One successful attempt forgives everything: whatever the record
    was, locked or not, the next check at any time is allowed and reports
    no attempts. *)
Theorem success_forgives t now identifier w :
  result_of (record_attempt t identifier true w) = Returned tt
  /\ result_of (check_rate_limit now identifier
                  (world_of (record_attempt t identifier true w))) =
     Returned ["allowed" ~> PyBool true; "attempts" ~> PyInt 0].
Proof.
  split; [reflexivity|].
  unfold check_rate_limit, record_attempt. run. rewrite lookup_delete_eq. reflexivity.
Qed.
End RateLimiterMore.

Lemma failures_count_and_lock_witness :
  rate_limits empty_world !! py "admin" = None
  /\ rate_limits (world_of (failures [10; 20; 30; 40; 50; 60; 70] (py "admin") empty_world))
       !! py "admin" =
     Some {| attempts := 7; first_attempt := Some 10; last_attempt := Some 70;
             locked_until := Some 900000070 |}.
Proof.
  split; [reflexivity|].
  exact (proj2 (failures_count_and_lock 10 [20; 30; 40; 50; 60; 70] (py "admin") empty_world
                  eq_refl ltac:(vm_compute; discriminate))).
Defined.

Lemma limiter_scoped_to_identifier_witness :
  py "admin" <> py "alice"
  /\ rate_limits (world_of (RateLimiter.record_attempt 80 (py "alice") false locked_world))
       !! py "admin" = rate_limits locked_world !! py "admin".
Proof.
  split; [discriminate|].
  exact (proj2 (limiter_scoped_to_identifier 80 (py "alice") (py "admin") false locked_world
                  ltac:(discriminate))).
Defined.

(** ** More on sessions *)

Section SessionsMore.
Context {U : UnicodeData} {X : ExceptionText} {HL : Hashlib}.
Import SecurityConfig.

(** X4.  The token column is unique: [create_session] with a token that is
    already stored returns [None], and leaves the sessions, the users and
    the audit log as they were. *)
Theorem create_session_duplicate_token token t af uid ip ua remember w s :
  user_sessions w !! token = Some s ->
  let r := create_session token t af uid ip ua remember w in
  result_of r = Returned None
  /\ user_sessions (world_of r) = user_sessions w
  /\ session_seq (world_of r) = session_seq w
  /\ audit_logs (world_of r) = audit_logs w.
Proof.
  intros Hs r. subst r. unfold create_session. run. rewrite Hs. simpl.
  repeat split; reflexivity.
Qed.

(** X5.  A session lives eight hours, a week with [remember]: the token
    created at [t] validates at every instant up to and including
    [t + lifetime], and at any later instant it is refused and the session
    is switched off. *)
Theorem session_lifetime_is_exact token t af uid ip ua remember w u :
  token <> [] ->
  user_sessions w !! token = None ->
  find (fun u => user_id u =? uid) (users w) = Some u ->
  let w1 := world_of (create_session token t af uid ip ua remember w) in
  let lifetime := hours (if remember then 168 else 8) in
  forall now af',
    (now <= t + lifetime ->
     exists d, result_of (validate_session now af' (Some token) w1) = Returned (Some d))
    /\ (t + lifetime < now ->
        result_of (validate_session now af' (Some token) w1) = Returned None
        /\ session_is_active <$>
             user_sessions (world_of (validate_session now af' (Some token) w1)) !! token
           = Some false).
Proof.
  intros Ht Hn Hu w1 lifetime now af'.
  destruct (create_session_fresh token t af uid ip ua remember w Hn) as (_ & Hs & Hus).
  fold w1 in Hs, Hus.
  match type of Hs with _ = <[_ := ?x]> _ => set (s := x) in Hs end.
  assert (Hl : user_sessions w1 !! token = Some s) by (rewrite Hs; apply lookup_insert_eq).
  assert (Hu' : find (fun u => user_id u =? session_user_id s) (users w1) = Some u)
    by (rewrite Hus; exact Hu).
  split; intros Hnow.
  - rewrite (validate_live now af' token s u w1 Ht Hl eq_refl Hu' Hnow). eexists. reflexivity.
  - destruct (validate_expired now af' token s u w1 Ht Hl eq_refl Hu' Hnow) as [-> ->].
    split; [reflexivity|]. rewrite lookup_alter_eq, Hl. reflexivity.
Qed.

Lemma logout_active af token s w :
  token <> [] ->
  user_sessions w !! token = Some s ->
  session_is_active s = true ->
  result_of (logout_session af (Some token) w) = Returned true
  /\ user_sessions (world_of (logout_session af (Some token) w)) =
     alter deactivate token (user_sessions w).
Proof.
  intros Ht Hs Ha. unfold logout_session. rewrite (no_token_some _ Ht).
  unfold select_active_session. run. rewrite Hs, Ha. simpl.
  destruct af; split; reflexivity.
Qed.

Lemma logout_inactive af token s w :
  user_sessions w !! token = Some s ->
  session_is_active s = false ->
  result_of (logout_session af (Some token) w) = Returned false.
Proof.
  intros Hs Ha. unfold logout_session. destruct (no_token (Some token)); [reflexivity|].
  unfold select_active_session. run. rewrite Hs, Ha. reflexivity.
Qed.

(** X6.  Logging out an active session returns [True]; from then on the
    token is refused by [validate_session] at any time, and a second
    logout returns [False]. *)
Theorem logout_ends_the_session af token s w :
  token <> [] ->
  user_sessions w !! token = Some s ->
  session_is_active s = true ->
  let w1 := world_of (logout_session af (Some token) w) in
  result_of (logout_session af (Some token) w) = Returned true
  /\ (forall now af', result_of (validate_session now af' (Some token) w1) = Returned None)
  /\ (forall af', result_of (logout_session af' (Some token) w1) = Returned false).
Proof.
  intros Ht Hs Ha w1.
  destruct (logout_active af token s w Ht Hs Ha) as [Hr Hw]. fold w1 in Hw.
  assert (Hl : user_sessions w1 !! token = Some (deactivate s))
    by (rewrite Hw, lookup_alter_eq, Hs; reflexivity).
  split; [exact Hr|]. split.
  - intros now af'. apply (validate_inactive now af' token _ w1 Hl). reflexivity.
  - intros af'. apply (logout_inactive af' token _ w1 Hl). reflexivity.
Qed.

(** *** Sessions are only ever switched off *)

Lemma only_deactivated_refl w : sessions_only_deactivated w w.
Proof. intros token s Hs. exists s. repeat split; [exact Hs | auto]. Qed.

Lemma only_deactivated_same w w' :
  user_sessions w' = user_sessions w -> sessions_only_deactivated w w'.
Proof. intros E token s Hs. exists s. rewrite E. repeat split; [exact Hs | auto]. Qed.

Lemma only_deactivated_alter w w' token :
  user_sessions w' = alter deactivate token (user_sessions w) ->
  sessions_only_deactivated w w'.
Proof.
  intros E t s Hs. rewrite E, lookup_alter. case_decide.
  - subst t. rewrite Hs. exists (deactivate s). repeat split. discriminate.
  - exists s. repeat split; [exact Hs | auto].
Qed.

Lemma only_deactivated_fmap w w' (test : session -> bool) :
  user_sessions w' = (fun s => if test s then deactivate s else s) <$> user_sessions w ->
  sessions_only_deactivated w w'.
Proof.
  intros E t s Hs. rewrite E, lookup_fmap, Hs. simpl.
  destruct (test s); [exists (deactivate s) | exists s]; repeat split; auto. discriminate.
Qed.

Lemma only_deactivated_insert w w' token s0 :
  user_sessions w !! token = None ->
  user_sessions w' = <[token := s0]> (user_sessions w) ->
  sessions_only_deactivated w w'.
Proof.
  intros Hn E t s Hs. rewrite E, lookup_insert. case_decide.
  - subst t. congruence.
  - exists s. repeat split; [exact Hs | auto].
Qed.

Lemma only_deactivated_validate now af token w :
  sessions_only_deactivated w (world_of (validate_session now af token w)).
Proof.
  unfold validate_session. destruct (no_token token); [apply only_deactivated_refl|].
  unfold select_session_user, column, fromisoformat. run.
  destruct (user_sessions w !! default [] token) as [s|]; simpl;
    [|apply only_deactivated_same; reflexivity].
  destruct (session_is_active s) eqn:Ea; simpl; [|apply only_deactivated_same; reflexivity].
  destruct (find _ (users w)) as [u|]; simpl; [|apply only_deactivated_same; reflexivity].
  destruct (expires_at s <? now); simpl.
  - destruct af; simpl; (eapply only_deactivated_alter; reflexivity).
  - rewrite Ea. simpl. apply only_deactivated_same; reflexivity.
Qed.

Lemma only_deactivated_logout af token w :
  sessions_only_deactivated w (world_of (logout_session af token w)).
Proof.
  unfold logout_session. destruct (no_token token); [apply only_deactivated_refl|].
  unfold select_active_session. run.
  destruct (user_sessions w !! default [] token) as [s|]; simpl;
    [|apply only_deactivated_same; reflexivity].
  destruct (session_is_active s); simpl; [|apply only_deactivated_same; reflexivity].
  destruct af; simpl; (eapply only_deactivated_alter; reflexivity).
Qed.

Lemma only_deactivated_create token t af uid ip ua remember w :
  sessions_only_deactivated w (world_of (create_session token t af uid ip ua remember w)).
Proof.
  unfold create_session. run.
  destruct (user_sessions w !! token) as [s0|] eqn:E; simpl;
    [apply only_deactivated_same; reflexivity|].
  destruct af; simpl; (eapply only_deactivated_insert; [exact E | reflexivity]).
Qed.

Lemma only_deactivated_cleanup now w :
  sessions_only_deactivated w (world_of (cleanup_expired_sessions now w)).
Proof.
  unfold cleanup_expired_sessions. run.
  match goal with
  | |- context [if ?b then _ else _] => destruct b
  end; simpl;
    apply (only_deactivated_fmap _ _ (fun s => (expires_at s <? now) && session_is_active s));
    reflexivity.
Qed.

Lemma only_deactivated_change_password fresh af uid cur new ip w :
  sessions_only_deactivated w (world_of (change_password fresh af uid cur new ip w)).
Proof.
  unfold change_password.
  destruct (valid (validate_password new)); simpl; [|apply only_deactivated_refl].
  unfold hex_or_bytes, _verify_password, _hash_password. run.
  destruct (find _ (users w)) as [u|]; simpl; [|apply only_deactivated_same; reflexivity].
  destruct (password_hash u) as [hs|hb]; [destruct (fromhex hs) as [hb|]|]; simpl;
    try (apply only_deactivated_same; reflexivity);
    (destruct (salt u) as [ss|sb]; [destruct (fromhex ss) as [sb|]|]; simpl;
     try (apply only_deactivated_same; reflexivity);
     (destruct (encode_utf8 cur); simpl; try (apply only_deactivated_same; reflexivity);
      destruct (bytes_eqb _ hb); simpl;
      [ destruct (encode_utf8 new); simpl; try (apply only_deactivated_same; reflexivity);
        destruct af; simpl;
        (apply (only_deactivated_fmap _ _ (fun s => session_user_id s =? uid)); reflexivity)
      | destruct af; apply only_deactivated_same; reflexivity ])).
Qed.

(** [authenticate_user] reads [users] and never touches the sessions. *)
Lemma authenticate_keeps_users_and_sessions t1 t2 af name password ip ua w :
  users (world_of (authenticate_user t1 t2 af name password ip ua w)) = users w
  /\ user_sessions (world_of (authenticate_user t1 t2 af name password ip ua w)) =
     user_sessions w.
Proof.
  unfold authenticate_user, item, hex_or_bytes, _verify_password, _hash_password,
    RateLimiter.check_rate_limit, RateLimiter.record_attempt, log_event.
  run.
  repeat (match goal with
          | |- context [match ?x with _ => _ end] =>
              match x with
              | context [match _ with _ => _ end] => fail 1
              | _ => destruct x; simpl
              end
          end); split; reflexivity.
Qed.

Lemma only_deactivated_authenticate t1 t2 af name password ip ua w :
  sessions_only_deactivated w (world_of (authenticate_user t1 t2 af name password ip ua w)).
Proof. apply only_deactivated_same, authenticate_keeps_users_and_sessions. Qed.

(** X7.  No operation of the service deletes a stored session, switches
    one back on, hands it to another user or moves its expiry: whatever is
    called, with whatever arguments, a session that is inactive stays
    inactive. *)
Theorem sessions_are_only_switched_off w :
  (forall now af token,
      sessions_only_deactivated w (world_of (validate_session now af token w)))
  /\ (forall af token, sessions_only_deactivated w (world_of (logout_session af token w)))
  /\ (forall token t af uid ip ua remember,
         sessions_only_deactivated w
           (world_of (create_session token t af uid ip ua remember w)))
  /\ (forall now, sessions_only_deactivated w (world_of (cleanup_expired_sessions now w)))
  /\ (forall fresh af uid cur new ip,
         sessions_only_deactivated w
           (world_of (change_password fresh af uid cur new ip w)))
  /\ (forall t1 t2 af name password ip ua,
         sessions_only_deactivated w
           (world_of (authenticate_user t1 t2 af name password ip ua w))).
Proof.
  split; [intros; apply only_deactivated_validate|].
  split; [intros; apply only_deactivated_logout|].
  split; [intros; apply only_deactivated_create|].
  split; [intros; apply only_deactivated_cleanup|].
  split; [intros; apply only_deactivated_change_password|].
  intros; apply only_deactivated_authenticate.
Qed.

(** *** The periodic sweep *)

Lemma cleanup_sessions now w :
  user_sessions (world_of (cleanup_expired_sessions now w)) =
  (fun s => if (expires_at s <? now) && session_is_active s then deactivate s else s)
    <$> user_sessions w
  /\ users (world_of (cleanup_expired_sessions now w)) = users w.
Proof.
  unfold cleanup_expired_sessions. run.
  match goal with
  | |- context [if ?b then _ else _] => destruct b
  end; split; reflexivity.
Qed.

(** X8.  The sweep is idempotent, and it never changes what
    [validate_session] answers at the instant of the sweep: a token is
    accepted after the sweep exactly when it was before. *)
Theorem sweep_is_idempotent_and_invisible now w :
  let w1 := world_of (cleanup_expired_sessions now w) in
  user_sessions (world_of (cleanup_expired_sessions now w1)) = user_sessions w1
  /\ (forall af token,
        result_of (validate_session now af token w1) =
        result_of (validate_session now af token w)).
Proof.
  intros w1. destruct (cleanup_sessions now w) as [Hs Hu]. fold w1 in Hs, Hu.
  split.
  - destruct (cleanup_sessions now w1) as [-> _]. rewrite Hs.
    apply map_eq. intros token. rewrite !lookup_fmap.
    destruct (user_sessions w !! token) as [s|]; simpl; [|reflexivity].
    destruct ((expires_at s <? now) && session_is_active s) eqn:E; simpl.
    + rewrite andb_false_r. reflexivity.
    + rewrite E. reflexivity.
  - intros af token. unfold validate_session.
    destruct (no_token token); [reflexivity|].
    unfold select_session_user, column, fromisoformat. run.
    rewrite Hs, Hu, lookup_fmap.
    destruct (user_sessions w !! default [] token) as [s|]; simpl; [|reflexivity].
    destruct (session_is_active s) eqn:Ea; simpl.
    + destruct (expires_at s <? now) eqn:Ee; simpl.
      * destruct (find _ (users w)) as [u|]; simpl; [|reflexivity].
        rewrite Ee. destruct af; reflexivity.
      * rewrite Ea. simpl. destruct (find _ (users w)) as [u|]; simpl; [|reflexivity].
        rewrite Ee. simpl. rewrite Ea. reflexivity.
    + rewrite andb_false_r, Ea. reflexivity.
Qed.
End SessionsMore.

Lemma create_session_duplicate_token_witness :
  user_sessions alice_world !! py "alice-token" = Some alice_session
  /\ result_of (create_session (py "alice-token") 5 false 1 None None false alice_world) =
     Returned None.
Proof.
  split; [reflexivity|].
  exact (proj1 (create_session_duplicate_token (py "alice-token") 5 false 1 None None false
                  alice_world alice_session eq_refl)).
Defined.

Lemma session_lifetime_is_exact_witness :
  user_sessions alice_world !! py "second-token" = None
  /\ result_of
       (validate_session (5 + hours 8 + 1) false (Some (py "second-token"))
          (world_of (create_session (py "second-token") 5 false 1 None None false
                       alice_world))) = Returned None.
Proof.
  split; [reflexivity|].
  exact (proj1 (proj2 (session_lifetime_is_exact (py "second-token") 5 false 1 None None false
                         alice_world alice ltac:(discriminate) eq_refl eq_refl
                         (5 + hours 8 + 1) false) eq_refl)).
Defined.

Lemma logout_ends_the_session_witness :
  user_sessions alice_world !! py "alice-token" = Some alice_session
  /\ result_of (logout_session false (Some (py "alice-token")) alice_world) = Returned true
  /\ result_of
       (validate_session 10 false (Some (py "alice-token"))
          (world_of (logout_session false (Some (py "alice-token")) alice_world))) =
     Returned None.
Proof.
  split; [reflexivity|].
  pose proof (logout_ends_the_session false (py "alice-token") alice_session alice_world
                ltac:(discriminate) eq_refl eq_refl) as (Hout & Hval & _).
  split; [exact Hout | exact (Hval 10 false)].
Defined.

(** ** Logging in *)

Section Login.
Context {U : UnicodeData} {X : ExceptionText} {HL : Hashlib}.
Import SecurityConfig RateLimiter.

(** A check changes nothing but the record it resets. *)
Lemma check_keeps_data now identifier w :
  users (world_of (check_rate_limit now identifier w)) = users w
  /\ user_sessions (world_of (check_rate_limit now identifier w)) = user_sessions w
  /\ audit_logs (world_of (check_rate_limit now identifier w)) = audit_logs w
  /\ db_clock (world_of (check_rate_limit now identifier w)) = db_clock w
  /\ exists res, result_of (check_rate_limit now identifier w) = Returned res.
Proof.
  unfold check_rate_limit. run.
  destruct (rate_limits w !! identifier) as [r|]; simpl; [|repeat split; eauto].
  destruct (lock_pending r now); simpl; [repeat split; eauto|].
  destruct (lock_elapsed r now); simpl; repeat split; eauto.
Qed.

Lemma record_keeps_data now identifier ok w :
  users (world_of (record_attempt now identifier ok w)) = users w
  /\ user_sessions (world_of (record_attempt now identifier ok w)) = user_sessions w
  /\ audit_logs (world_of (record_attempt now identifier ok w)) = audit_logs w
  /\ db_clock (world_of (record_attempt now identifier ok w)) = db_clock w.
Proof.
  unfold record_attempt. destruct ok; run; [repeat split|].
  destruct (rate_limits w !! identifier) as [r|]; simpl; [|repeat split].
  destruct (sqlite_int_max <? attempts r + 1); repeat split.
Qed.

Lemma hex_or_bytes_runs v b w :
  column_bytes v = Some b -> hex_or_bytes v w = (Returned b, w).
Proof. destruct v as [s|b']; simpl; [intros ->|intros [= ->]]; reflexivity. Qed.

(** What the limiter returned when it allows. *)
Lemma limiter_allows_run t_check name w :
  limiter_allows t_check name w = true ->
  exists res w1,
    check_rate_limit t_check name w = (Returned res, w1)
    /\ w1 = world_of (check_rate_limit t_check name w)
    /\ row_get "allowed" res = Some (PyBool true).
Proof.
  unfold limiter_allows, check_rate_limit. run.
  destruct (rate_limits w !! name) as [r|]; simpl.
  - destruct (lock_pending r t_check); simpl; [discriminate|].
    destruct (lock_elapsed r t_check); simpl; [eauto|].
    intros ->. eauto.
  - eauto.
Qed.

(** X9.  A login that the limiter allows, by a name that matches one row
    of [users] only, for an active user and with a password that derives
    the stored hash, returns the user's id, username and role and nothing
    else; it clears the identifier's failure counter and writes the
    [login_success] audit record; users and sessions are untouched. *)
Theorem login_succeeds t_check t_record af name password ip ua w u :
  limiter_allows t_check name w = true ->
  (length (rows_named name w) <= 1)%nat ->
  user_named name w = Some u ->
  user_is_active u = true ->
  password_matches u password ->
  let r := authenticate_user t_check t_record af name password ip ua w in
  result_of r =
    Returned (Some ["id" ~> PyInt (user_id u); "username" ~> PyStr (username u);
                    "role" ~> PyStr (role u)])
  /\ rate_limits (world_of r) !! name = None
  /\ users (world_of r) = users w
  /\ user_sessions (world_of r) = user_sessions w
  /\ audit_logs (world_of r) =
     audit_logs w ++
     (if af then []
      else [{| timestamp := db_clock w; event_type := "login_success";
               audit_user_id := Some (user_id u); audit_username := Some name;
               audit_client_ip := ip; audit_user_agent := ua; details := None;
               success := true |}]).
Proof.
  intros Hallow _ Hu Hact (hb & sb & pw & Hh & Hs & He & Hk) r.
  destruct (limiter_allows_run t_check name w Hallow)
    as (res & w1 & Hc & Hw1 & Hres).
  destruct (check_keeps_data t_check name w) as (Cu & Cs & Ca & Cc & _).
  rewrite <- Hw1 in Cu, Cs, Ca, Cc.
  subst r. unfold authenticate_user, item. run. rewrite Hc. simpl. rewrite Hres. simpl.
  unfold user_named in Hu. rewrite Cu, Hu. simpl. rewrite Hact. simpl.
  rewrite (hex_or_bytes_runs _ _ _ Hh), (hex_or_bytes_runs _ _ _ Hs).
  unfold _verify_password, _hash_password. run. rewrite He. simpl.
  rewrite Hk, bytes_eqb_refl. simpl.
  unfold record_attempt. run.
  destruct af; simpl; rewrite ?lookup_delete_eq, ?app_nil_r, ?Cu, ?Cs, ?Ca, ?Cc;
    repeat split; reflexivity.
Qed.
End Login.

Section FailedLogins.
Context {U : UnicodeData} {X : ExceptionText} {HL : Hashlib}.
Import SecurityConfig RateLimiter.
Local Arguments record_attempt : simpl never.
Local Arguments check_rate_limit : simpl never.

Ltac step :=
  unfold query, execute, logger, emit, reads, writes, mbind, M_bind, bind, mret, M_ret, ret,
    raise, try_except, result_of, world_of; simpl.

(** A recorded failure, run on any world with room in the counter. *)
Lemma record_failure_spec t identifier w :
  counter_has_room identifier w ->
  exists w2,
    record_attempt t identifier false w = (Returned tt, w2)
    /\ rate_limits w2 = after_failure t identifier (rate_limits w)
    /\ users w2 = users w /\ user_sessions w2 = user_sessions w
    /\ audit_logs w2 = audit_logs w /\ db_clock w2 = db_clock w.
Proof.
  unfold counter_has_room, after_failure, record_attempt. step.
  destruct (rate_limits w !! identifier) as [r|] eqn:E; simpl.
  - intros Hroom. destruct (Z.ltb_spec sqlite_int_max (attempts r + 1)); [lia|].
    eexists. split; [reflexivity|]. simpl. repeat split.
    apply map_eq. intros k. rewrite lookup_alter, lookup_insert.
    repeat case_decide; try congruence. subst. rewrite E. reflexivity.
  - intros _. eexists. split; [reflexivity|]. repeat split.
Qed.

(** For an active user with well-formed columns whom the limiter lets
    through, the digest decides. *)
Lemma login_decided_by_digest t_check t_record af name password ip ua w u hb sb pw :
  limiter_allows t_check name w = true ->
  user_named name w = Some u ->
  user_is_active u = true ->
  column_bytes (password_hash u) = Some hb ->
  column_bytes (salt u) = Some sb ->
  encode_utf8 password = Some pw ->
  result_of (authenticate_user t_check t_record af name password ip ua w) =
    Returned (if bytes_eqb (pbkdf2_hmac pw sb HASH_ITERATIONS) hb
              then Some ["id" ~> PyInt (user_id u); "username" ~> PyStr (username u);
                         "role" ~> PyStr (role u)]
              else None).
Proof.
  intros Hallow Hu Hact Hh Hs He.
  destruct (limiter_allows_run t_check name w Hallow) as (res & w1 & Hc & Hw1 & Hres).
  destruct (check_keeps_data t_check name w) as (Cu & _).
  rewrite <- Hw1 in Cu.
  unfold authenticate_user, item. step. rewrite Hc. simpl. rewrite Hres. simpl.
  unfold user_named in Hu. rewrite Cu, Hu. simpl. rewrite Hact. simpl.
  rewrite (hex_or_bytes_runs _ _ _ Hh), (hex_or_bytes_runs _ _ _ Hs).
  unfold _verify_password, _hash_password. step. rewrite He. simpl.
  destruct (bytes_eqb _ hb); simpl.
  - unfold record_attempt, log_event. step. destruct af; reflexivity.
  - match goal with
    | |- context [record_attempt ?t ?n false ?W] =>
        destruct (record_attempt t n false W) as [[[]|e] w2]
    end; unfold log_event; step; destruct af; reflexivity.
Qed.

(** A refused login, run: it returns [None] and what it leaves is the
    world of the check with one failure recorded and one audit record. *)
Lemma failed_login_runs t_check t_record af name password ip ua w :
  limiter_allows t_check name w = true ->
  credentials_rejected w name password ->
  counter_has_room name (world_of (check_rate_limit t_check name w)) ->
  let r := authenticate_user t_check t_record af name password ip ua w in
  result_of r = Returned None
  /\ rate_limits (world_of r) =
     after_failure t_record name
       (rate_limits (world_of (check_rate_limit t_check name w)))
  /\ users (world_of r) = users w
  /\ user_sessions (world_of r) = user_sessions w
  /\ exists ev, audit_logs (world_of r) = audit_logs w ++ (if af then [] else [ev])
                /\ event_type ev = "login_failed"%string /\ success ev = false.
Proof.
  intros Hallow Hrej Hroom r.
  destruct (limiter_allows_run t_check name w Hallow) as (res & w1 & Hc & Hw1 & Hres).
  destruct (check_keeps_data t_check name w) as (Cu & Cs & Ca & Cc & _).
  rewrite <- Hw1 in Cu, Cs, Ca, Cc, Hroom |- *.
  assert (Hdummy : exists ev : audit_event,
             event_type ev = "login_failed"%string /\ success ev = false).
  { exists {| timestamp := 0; event_type := "login_failed"; audit_user_id := None;
              audit_username := None; audit_client_ip := None; audit_user_agent := None;
              details := None; success := false |}. split; reflexivity. }
  destruct Hdummy as (ev0 & D1 & D2).
  subst r. unfold authenticate_user, item. step. rewrite Hc. simpl. rewrite Hres. simpl.
  unfold credentials_rejected, user_named in Hrej. rewrite Cu.
  destruct (find _ (users w)) as [u|]; simpl.
  - destruct (user_is_active u) eqn:Hact; simpl.
    + destruct Hrej as [Hina | (hb & sb & pw & Hh & Hs & He & Hk)]; [discriminate|].
      rewrite (hex_or_bytes_runs _ _ _ Hh), (hex_or_bytes_runs _ _ _ Hs).
      unfold _verify_password, _hash_password. step. rewrite He. simpl.
      assert (Hne : bytes_eqb (pbkdf2_hmac pw sb HASH_ITERATIONS) hb = false).
      { destruct (bytes_eqb _ hb) eqn:B; [|reflexivity].
        apply bytes_eqb_eq in B. contradiction. }
      rewrite Hne. simpl.
      match goal with
      | |- context [record_attempt ?t ?n false ?W] =>
          destruct (record_failure_spec t n W Hroom) as (w2 & Hr2 & Hm & Hu & Hs2 & Ha & Hk2)
      end.
      rewrite Hr2. simpl in *.
      destruct af; simpl; rewrite ?Hm, ?Hu, ?Hs2, ?Ha, ?Cu, ?Cs, ?Ca;
        (repeat split; try reflexivity);
        [exists ev0; rewrite app_nil_r; auto | eexists; repeat split].
    + match goal with
      | |- context [record_attempt ?t ?n false ?W] =>
          destruct (record_failure_spec t n W Hroom) as (w2 & Hr2 & Hm & Hu & Hs2 & Ha & Hk2)
      end.
      rewrite Hr2. simpl in *.
      destruct af; simpl; rewrite ?Hm, ?Hu, ?Hs2, ?Ha, ?Cu, ?Cs, ?Ca;
        (repeat split; try reflexivity);
        [exists ev0; rewrite app_nil_r; auto | eexists; repeat split].
  - match goal with
    | |- context [record_attempt ?t ?n false ?W] =>
        destruct (record_failure_spec t n W Hroom) as (w2 & Hr2 & Hm & Hu & Hs2 & Ha & Hk2)
    end.
    rewrite Hr2. simpl in *.
    destruct af; simpl; rewrite ?Hm, ?Hu, ?Hs2, ?Ha, ?Cu, ?Cs, ?Ca;
      (repeat split; try reflexivity);
      [exists ev0; rewrite app_nil_r; auto | eexists; repeat split].
Qed.

(** The identifier has no lock set: no record, or a record without one. *)
Lemma check_unlocked t name w :
  (forall r, rate_limits w !! name = Some r -> locked_until r = None /\ attempts r < 5) ->
  limiter_allows t name w = true
  /\ rate_limits (world_of (check_rate_limit t name w)) = rate_limits w.
Proof.
  intros Hun. unfold limiter_allows, check_rate_limit. step.
  destruct (rate_limits w !! name) as [r|]; simpl; [|split; reflexivity].
  destruct (Hun r eq_refl) as [Hl Ha]. unfold lock_pending, lock_elapsed. rewrite Hl. simpl.
  split; [|reflexivity]. unfold MAX_LOGIN_ATTEMPTS. apply Z.ltb_lt. exact Ha.
Qed.

(** X10.  A login by a name that matches one row of [users] at most,
    refused on its credentials (unknown user, disabled account or wrong
    password: the caller cannot tell which), returns [None] and is counted
    once against the identifier: the counter grows by one and the lock is
    set exactly when it reaches five; no other counter, no user and no
    session changes, and the audit log gains one [login_failed] record. *)
Theorem refused_login_is_counted t_check t_record af name password ip ua w :
  limiter_allows t_check name w = true ->
  (length (rows_named name w) <= 1)%nat ->
  credentials_rejected w name password ->
  counter_has_room name (world_of (check_rate_limit t_check name w)) ->
  let before :=
    match rate_limits (world_of (check_rate_limit t_check name w)) !! name with
    | Some r => attempts r
    | None => 0
    end in
  let r := authenticate_user t_check t_record af name password ip ua w in
  result_of r = Returned None
  /\ (exists rec,
        rate_limits (world_of r) !! name = Some rec
        /\ attempts rec = before + 1
        /\ last_attempt rec = Some t_record
        /\ locked_until rec =
           if MAX_LOGIN_ATTEMPTS <=? before + 1
           then Some (t_record + minutes LOCKOUT_DURATION_MINUTES) else None)
  /\ (forall other, other <> name -> rate_limits (world_of r) !! other = rate_limits w !! other)
  /\ users (world_of r) = users w
  /\ user_sessions (world_of r) = user_sessions w
  /\ exists ev, audit_logs (world_of r) = audit_logs w ++ (if af then [] else [ev])
                /\ event_type ev = "login_failed"%string /\ success ev = false.
Proof.
  intros Hallow _ Hrej Hroom before r.
  destruct (failed_login_runs t_check t_record af name password ip ua w Hallow Hrej Hroom)
    as (Hres & Hm & Hu & Hs & Hev).
  fold r in Hres, Hm, Hu, Hs, Hev.
  split; [exact Hres|]. split; [|split; [|split; [exact Hu|split; [exact Hs|exact Hev]]]].
  - rewrite Hm. unfold after_failure. subst before.
    destruct (rate_limits (world_of (check_rate_limit t_check name w)) !! name) as [r0|];
      rewrite lookup_insert_eq; eexists; (split; [reflexivity|]); simpl; repeat split.
  - intros other Hne. rewrite Hm. unfold after_failure.
    assert (Hc : rate_limits (world_of (check_rate_limit t_check name w)) !! other =
                 rate_limits w !! other).
    { unfold check_rate_limit. step.
      destruct (rate_limits w !! name) as [r0|]; simpl; [|reflexivity].
      destruct (lock_pending r0 t_check); simpl; [reflexivity|].
      destruct (lock_elapsed r0 t_check); simpl; [|reflexivity].
      apply lookup_alter_ne. congruence. }
    destruct (rate_limits (world_of (check_rate_limit t_check name w)) !! name) as [r0|];
      rewrite lookup_insert_ne by congruence; exact Hc.
Qed.

Lemma rejected_same_users w w' name password :
  users w' = users w ->
  credentials_rejected w name password -> credentials_rejected w' name password.
Proof. unfold credentials_rejected, user_named. intros ->. exact id. Qed.

Lemma logins_cons try rest af name ip ua w :
  logins (try :: rest) af name ip ua w =
  match authenticate_user (at_check try) (at_record try) af name (with_password try) ip ua w
  with
  | (Returned _, w') => logins rest af name ip ua w'
  | (Raised e, w') => (Raised e, w')
  end.
Proof. reflexivity. Qed.

(** Refused logins in a row, while the counter stays below five before
    each of them. *)
Lemma refused_logins_run rest : forall try af name ip ua w k,
  counting name k w -> 0 <= k ->
  k + Z.of_nat (length (try :: rest)) <= 5 ->
  (forall a, In a (try :: rest) -> credentials_rejected w name (with_password a)) ->
  let r := logins (try :: rest) af name ip ua w in
  result_of r = Returned tt
  /\ users (world_of r) = users w
  /\ user_sessions (world_of r) = user_sessions w
  /\ exists rec,
       rate_limits (world_of r) !! name = Some rec
       /\ attempts rec = k + Z.of_nat (length (try :: rest))
       /\ locked_until rec =
          if 5 <=? k + Z.of_nat (length (try :: rest))
          then Some (at_record (List.last rest try) + minutes LOCKOUT_DURATION_MINUTES)
          else None.
Proof.
  induction rest as [|next rest IH]; intros try af name ip ua w k Hk Hk0 Hlen Hrej r.
  - assert (Hun : forall r0, rate_limits w !! name = Some r0 ->
                             locked_until r0 = None /\ attempts r0 < 5).
    { intros r0 E. unfold counting in Hk. rewrite E in Hk. destruct Hk as [Hk1 Hk2].
      split; [exact Hk2|]. simpl length in Hlen. lia. }
    destruct (check_unlocked (at_check try) name w Hun) as [Hallow Hsame].
    assert (Hroom : counter_has_room name
                      (world_of (check_rate_limit (at_check try) name w))).
    { unfold counter_has_room. rewrite Hsame.
      destruct (rate_limits w !! name) as [r0|] eqn:E; [|exact I].
      destruct (Hun r0 eq_refl). unfold sqlite_int_max. lia. }
    destruct (failed_login_runs (at_check try) (at_record try) af name (with_password try)
                ip ua w Hallow (Hrej try (or_introl eq_refl)) Hroom)
      as (Hres & Hm & Hu & Hs & _).
    subst r. rewrite logins_cons.
    destruct (authenticate_user _ _ _ _ _ _ _ w) as [o w'].
    change (world_of (o, w')) with w' in Hm, Hu, Hs.
    change (result_of (o, w')) with o in Hres. subst o. cbv iota beta.
    change (logins [] af name ip ua w') with (Returned tt, w').
    change (world_of (Returned tt, w')) with w'.
    split; [reflexivity|]. split; [exact Hu|]. split; [exact Hs|].
    rewrite Hm, Hsame. unfold after_failure, counting in *.
    destruct (rate_limits w !! name) as [r0|]; rewrite lookup_insert_eq;
      eexists; (split; [reflexivity|]); simpl.
    + destruct Hk as [-> _]. split; [lia|]. unfold MAX_LOGIN_ATTEMPTS. reflexivity.
    + subst k. split; reflexivity.
  - assert (Hun : forall r0, rate_limits w !! name = Some r0 ->
                             locked_until r0 = None /\ attempts r0 < 5).
    { intros r0 E. unfold counting in Hk. rewrite E in Hk. destruct Hk as [Hk1 Hk2].
      split; [exact Hk2|]. simpl length in Hlen. lia. }
    destruct (check_unlocked (at_check try) name w Hun) as [Hallow Hsame].
    assert (Hroom : counter_has_room name
                      (world_of (check_rate_limit (at_check try) name w))).
    { unfold counter_has_room. rewrite Hsame.
      destruct (rate_limits w !! name) as [r0|] eqn:E; [|exact I].
      destruct (Hun r0 eq_refl). unfold sqlite_int_max. lia. }
    destruct (failed_login_runs (at_check try) (at_record try) af name (with_password try)
                ip ua w Hallow (Hrej try (or_introl eq_refl)) Hroom)
      as (Hres & Hm & Hu & Hs & _).
    subst r. rewrite logins_cons.
    destruct (authenticate_user _ _ _ _ _ _ _ w) as [o w'].
    change (world_of (o, w')) with w' in Hm, Hu, Hs.
    change (result_of (o, w')) with o in Hres. subst o. cbv iota beta.
    assert (Hk' : counting name (k + 1) w').
    { unfold counting in *. rewrite Hm, Hsame. unfold after_failure.
      destruct (rate_limits w !! name) as [r0|]; rewrite lookup_insert_eq; simpl.
      - destruct Hk as [Hk1 Hk2]. split; [lia|].
        unfold MAX_LOGIN_ATTEMPTS.
        destruct (Z.leb_spec 5 (attempts r0 + 1)); [|reflexivity].
        simpl length in Hlen. lia.
      - subst k. split; reflexivity. }
    destruct (IH next af name ip ua w' (k + 1) Hk') as (R1 & R2 & R3 & rec & R4 & R5 & R6).
    + lia.
    + simpl length in *. lia.
    + intros a Ha. apply (rejected_same_users w); [exact Hu|]. apply Hrej. right. exact Ha.
    + split; [exact R1|]. split; [congruence|]. split; [congruence|].
      exists rec. split; [exact R4|].
      replace (k + Z.of_nat (length (try :: next :: rest)))
        with (k + 1 + Z.of_nat (length (next :: rest))) by (simpl length; lia).
      split; [exact R5|]. rewrite (last_cons_default rest next try). exact R6.
Qed.

(** A login while the lock is pending. *)
Lemma locked_login_runs t_check t_record af name password ip ua w rec :
  rate_limits w !! name = Some rec ->
  lock_pending rec t_check = true ->
  let r := authenticate_user t_check t_record af name password ip ua w in
  result_of r = Returned None
  /\ trace (world_of r) =
     trace w ++ [Sql SelectRateLimit] ++
       (if af then [Logged Error] else [Sql InsertAuditLog; Logged Info])
  /\ rate_limits (world_of r) = rate_limits w
  /\ users (world_of r) = users w
  /\ user_sessions (world_of r) = user_sessions w.
Proof.
  intros Hrec Hp r. subst r. unfold authenticate_user, item, check_rate_limit. step.
  rewrite Hrec. simpl. rewrite Hp. simpl.
  destruct af; simpl; rewrite <- ?app_assoc; repeat split; reflexivity.
Qed.

(** X11.  Guessing stops at five: after five refused logins in a row for an
    identifier without a record, by a name that matches one row of
    [users] at most, whatever the times and the passwords tried, the
    record holds five attempts and a lock of fifteen minutes from the last
    one; until then every login for the identifier, also one with the
    right password, returns [None] without reading [users] and without
    deriving a key, and is not counted.  The users are as they were, so
    the name matches the same rows throughout. *)
Theorem five_refused_logins_lock_out a1 a2 a3 a4 a5 af name ip ua w :
  rate_limits w !! name = None ->
  (length (rows_named name w) <= 1)%nat ->
  (forall a, In a [a1; a2; a3; a4; a5] -> credentials_rejected w name (with_password a)) ->
  let w5 := world_of (logins [a1; a2; a3; a4; a5] af name ip ua w) in
  result_of (logins [a1; a2; a3; a4; a5] af name ip ua w) = Returned tt
  /\ users w5 = users w
  /\ rows_named name w5 = rows_named name w
  /\ (exists rec,
        rate_limits w5 !! name = Some rec /\ attempts rec = 5
        /\ locked_until rec = Some (at_record a5 + minutes LOCKOUT_DURATION_MINUTES))
  /\ forall t_check t_record af' password ip' ua',
       t_check < at_record a5 + minutes LOCKOUT_DURATION_MINUTES ->
       let r := authenticate_user t_check t_record af' name password ip' ua' w5 in
       result_of r = Returned None
       /\ trace (world_of r) =
          trace w5 ++ [Sql SelectRateLimit] ++
            (if af' then [Logged Error] else [Sql InsertAuditLog; Logged Info])
       /\ rate_limits (world_of r) = rate_limits w5.
Proof.
  intros Hnone _ Hrej w5.
  destruct (refused_logins_run [a2; a3; a4; a5] a1 af name ip ua w 0) as (R1 & R2 & R3 & rec & R4 & R5 & R6).
  - unfold counting. rewrite Hnone. reflexivity.
  - lia.
  - simpl. lia.
  - exact Hrej.
  - fold w5 in R2, R3, R4. simpl in R5, R6.
    split; [exact R1|]. split; [exact R2|].
    split; [unfold rows_named; rewrite R2; reflexivity|]. split; [exists rec; auto|].
    intros t_check t_record af' password ip' ua' Ht r.
    destruct (locked_login_runs t_check t_record af' name password ip' ua' w5 rec R4)
      as (L1 & L2 & L3 & _).
    + unfold lock_pending. rewrite R6. apply Z.ltb_lt. exact Ht.
    + auto.
Qed.
End FailedLogins.

Lemma login_succeeds_witness :
  result_of (@authenticate_user no_exception_text rfc8018 10 11 false (py "alice")
               (py "OldPassw0rd") None None alice_world) =
  Returned (Some ["id" ~> PyInt 1; "username" ~> PyStr (py "alice");
                  "role" ~> PyStr (py "admin")]).
Proof.
  refine (proj1 (@login_succeeds no_exception_text rfc8018 10 11 false (py "alice")
                   (py "OldPassw0rd") None None alice_world alice eq_refl (le_n 1) eq_refl
                   eq_refl _)).
  exists (@pbkdf2_hmac rfc8018 (bytes_of_string "OldPassw0rd") alice_salt
            SecurityConfig.HASH_ITERATIONS), alice_salt, (bytes_of_string "OldPassw0rd").
  repeat split; reflexivity.
Defined.

Lemma refused_login_is_counted_witness :
  result_of (@authenticate_user no_exception_text rfc8018 10 11 false (py "mallory")
               (py "anything") None None deactivated_account_world) = Returned None.
Proof.
  refine (proj1 (@refused_login_is_counted no_exception_text rfc8018 10 11 false (py "mallory")
                   (py "anything") None None deactivated_account_world eq_refl (le_n 1) _ I)).
  left. reflexivity.
Defined.

Lemma five_refused_logins_lock_out_witness :
  let guess p := {| at_check := 1; at_record := 2; with_password := p |} in
  let tries := [guess (py "a"); guess (py "b"); guess (py "c"); guess (py "d"); guess (py "e")] in
  result_of (@logins no_exception_text rfc8018 tries false (py "mallory") None None
               deactivated_account_world) = Returned tt.
Proof.
  intros guess tries.
  refine (proj1 (@five_refused_logins_lock_out no_exception_text rfc8018 _ _ _ _ _ false
                   (py "mallory") None None deactivated_account_world eq_refl (le_n 1) _)).
  intros a _. left. reflexivity.
Defined.

(** ** Who gets in, and what a password change leaves *)

Section Credentials.
Context {U : UnicodeData} {X : ExceptionText} {HL : Hashlib}.
Import SecurityConfig RateLimiter.
Local Arguments record_attempt : simpl never.
Local Arguments check_rate_limit : simpl never.
Local Arguments log_event : simpl never.

Ltac step_in H :=
  unfold query, execute, logger, emit, reads, writes, mbind, M_bind, bind, mret, M_ret, ret,
    raise, try_except, result_of, world_of in H; simpl in H.

Ltac finish H :=
  repeat match type of H with
    | context [log_event ?a ?b ?c ?d ?e ?f ?g ?h ?w] =>
        destruct (log_event a b c d e f g h w) as [[[]|?] ?]; simpl in H
    | context [record_attempt ?a ?b ?c ?w] =>
        destruct (record_attempt a b c w) as [[[]|?] ?]; simpl in H
    end;
  try discriminate; try congruence.

Lemma column_bytes_runs v w :
  hex_or_bytes v w =
  match column_bytes v with
  | Some b => (Returned b, w)
  | None => (Raised ValueError, w)
  end.
Proof. destruct v as [s|b]; simpl; [destruct (fromhex s)|]; reflexivity. Qed.

(** X12.  Nobody gets in without the password: [authenticate_user] returns
    a user only if the limiter allowed the attempt, the name (or e-mail)
    is that of an active user, and the password derives the hash stored
    for that user; what it returns is then that user's id, username and
    role. *)
Theorem login_requires_matching_password t_check t_record af name password ip ua w d :
  result_of (authenticate_user t_check t_record af name password ip ua w) =
    Returned (Some d) ->
  limiter_allows t_check name w = true
  /\ exists u,
       user_named name w = Some u
       /\ user_is_active u = true
       /\ password_matches u password
       /\ d = ["id" ~> PyInt (user_id u); "username" ~> PyStr (username u);
               "role" ~> PyStr (role u)].
Proof.
  intros H. unfold limiter_allows, user_named, password_matches.
  destruct (check_keeps_data t_check name w) as (Cu & _).
  unfold authenticate_user, item in H. step_in H.
  unfold result_of, world_of in *.
  destruct (check_rate_limit t_check name w) as [[res|e] w1]; simpl in *; [|discriminate].
  destruct (row_get "allowed" res) as [v|]; simpl in *; [|discriminate].
  destruct (truthy v); simpl in *; [|finish H].
  split; [reflexivity|]. rewrite Cu in H.
  destruct (find _ (users w)) as [u|]; simpl in *; [|finish H].
  exists u. split; [reflexivity|].
  destruct (user_is_active u); simpl in *; [|finish H].
  split; [reflexivity|].
  rewrite !column_bytes_runs in H.
  destruct (column_bytes (password_hash u)) as [hb|]; simpl in *; [|finish H].
  rewrite !column_bytes_runs in H.
  destruct (column_bytes (salt u)) as [sb|]; simpl in *; [|finish H].
  unfold _verify_password, _hash_password in H. step_in H.
  destruct (encode_utf8 password) as [pw|]; simpl in *; [|finish H].
  destruct (bytes_eqb (pbkdf2_hmac pw sb HASH_ITERATIONS) hb) eqn:B; simpl in *;
    [|finish H].
  apply bytes_eqb_eq in B.
  split; [exists hb, sb, pw; auto|].
  finish H.
Qed.

(** X13.  A password change is all or nothing.  [change_password] never
    raises; it answers [success: True] or [success: False], and in the
    second case no user row and no session has changed.  A new password
    that fails the policy is turned down before anything is read: the
    world, trace included, is as it was. *)
Theorem change_password_all_or_nothing fresh af uid cur new ip w :
  let r := change_password fresh af uid cur new ip w in
  (exists res,
     result_of r = Returned res
     /\ (row_get "success" res = Some (PyBool true)
         \/ row_get "success" res = Some (PyBool false)
            /\ users (world_of r) = users w
            /\ user_sessions (world_of r) = user_sessions w))
  /\ (valid (validate_password new) = false ->
      r = (Returned ["success" ~> PyBool false; "error" ~> PyStr (py "invalid_password");
                     "details" ~>
                       PyList (map (fun e => PyStr (py e))
                                 (errors (validate_password new)))], w)).
Proof.
  intros r. subst r. unfold change_password.
  destruct (valid (validate_password new)); simpl.
  2:{ split; [|reflexivity]. eexists. split; [reflexivity|]. right. repeat split. }
  split; [|discriminate].
  unfold _verify_password, _hash_password.
  unfold query, execute, logger, emit, reads, writes, mbind, M_bind, bind, mret, M_ret, ret,
    raise, try_except, result_of, world_of. simpl.
  destruct (find _ (users w)) as [u|]; simpl.
  2:{ eexists. split; [reflexivity|]. right. repeat split. }
  rewrite column_bytes_runs.
  destruct (column_bytes (password_hash u)) as [hb|]; simpl.
  2:{ eexists. split; [reflexivity|]. right. repeat split. }
  rewrite column_bytes_runs.
  destruct (column_bytes (salt u)) as [sb|]; simpl.
  2:{ eexists. split; [reflexivity|]. right. repeat split. }
  destruct (encode_utf8 cur) as [pwc|]; simpl.
  2:{ eexists. split; [reflexivity|]. right. repeat split. }
  destruct (bytes_eqb _ hb); simpl.
  - destruct (encode_utf8 new) as [pwn|]; simpl.
    2:{ eexists. split; [reflexivity|]. right. repeat split. }
    unfold log_event.
    unfold query, execute, logger, emit, reads, writes, mbind, M_bind, bind, mret, M_ret, ret,
      raise, try_except, result_of, world_of.
    destruct af; simpl; eexists; (split; [reflexivity|]); left; reflexivity.
  - unfold log_event.
    unfold query, execute, logger, emit, reads, writes, mbind, M_bind, bind, mret, M_ret, ret,
      raise, try_except, result_of, world_of.
    destruct af; simpl; eexists; (split; [reflexivity|]); right; repeat split.
Qed.

(** What a successful change has written to [users]. *)
Lemma change_password_success_users fresh af uid cur new ip w res w' :
  change_password fresh af uid cur new ip w = (Returned res, w') ->
  row_get "success" res = Some (PyBool true) ->
  exists pwn,
    encode_utf8 new = Some pwn
    /\ rate_limits w' = rate_limits w
    /\ users w' =
       map (fun u => if user_id u =? uid
                     then {| user_id := user_id u; username := username u; email := email u;
                             password_hash :=
                               Text (hex (pbkdf2_hmac pwn fresh HASH_ITERATIONS));
                             salt := Text (hex fresh); role := role u;
                             user_is_active := user_is_active u;
                             password_changed_at := Some (db_clock w) |}
                     else u) (users w).
Proof.
  unfold change_password.
  destruct (valid (validate_password new)); simpl; [|intros [= <- <-]; discriminate].
  unfold _verify_password, _hash_password.
  unfold query, execute, logger, emit, reads, writes, mbind, M_bind, bind, mret, M_ret, ret,
    raise, try_except, result_of, world_of. simpl.
  destruct (find _ (users w)) as [u|]; simpl; [|intros [= <- <-]; discriminate].
  rewrite column_bytes_runs.
  destruct (column_bytes (password_hash u)) as [hb|]; simpl;
    [|intros [= <- <-]; discriminate].
  rewrite column_bytes_runs.
  destruct (column_bytes (salt u)) as [sb|]; simpl; [|intros [= <- <-]; discriminate].
  destruct (encode_utf8 cur) as [pwc|]; simpl; [|intros [= <- <-]; discriminate].
  destruct (bytes_eqb _ hb); simpl.
  - destruct (encode_utf8 new) as [pwn|]; simpl; [|intros [= <- <-]; discriminate].
    unfold log_event.
    unfold query, execute, logger, emit, reads, writes, mbind, M_bind, bind, mret, M_ret, ret,
      raise, try_except, result_of, world_of.
    destruct af; simpl; intros [= <- <-]; exists pwn; repeat split.
  - unfold log_event.
    unfold query, execute, logger, emit, reads, writes, mbind, M_bind, bind, mret, M_ret, ret,
      raise, try_except, result_of, world_of.
    destruct af; simpl; intros [= <- <-]; discriminate.
Qed.

(** [bytes.fromhex] reads back what [bytes.hex] wrote. *)
Lemma fromhex_hex_cons b bs :
  fromhex (hex (b :: bs)) =
  match fromhex (hex bs) with Some r => Some (b :: r) | None => None end.
Proof. destruct b; reflexivity. Qed.

Lemma fromhex_hex bs : fromhex (hex bs) = Some bs.
Proof.
  induction bs as [|b bs IH]; [reflexivity|]. rewrite fromhex_hex_cons, IH. reflexivity.
Qed.

Lemma find_map_same_test {A} (test : A -> bool) (f : A -> A) l :
  (forall a, test (f a) = test a) ->
  find test (map f l) = option_map f (find test l).
Proof.
  intros Hf. induction l as [|a l IH]; [reflexivity|]. simpl. rewrite Hf.
  destruct (test a); [reflexivity|exact IH].
Qed.

Lemma filter_map_same_test_length {A} (test : A -> bool) (f : A -> A) l :
  (forall a, test (f a) = test a) ->
  length (List.filter test (map f l)) = length (List.filter test l).
Proof.
  intros Hf. induction l as [|a l IH]; [reflexivity|]. simpl. rewrite Hf.
  destruct (test a); simpl; rewrite IH; reflexivity.
Qed.

Lemma limiter_allows_same_limits t name w w' :
  rate_limits w' = rate_limits w -> limiter_allows t name w' = limiter_allows t name w.
Proof.
  intros Hl. unfold limiter_allows, check_rate_limit.
  unfold query, execute, logger, emit, reads, writes, mbind, M_bind, bind, mret, M_ret, ret,
    raise, try_except, result_of, world_of. simpl. rewrite Hl.
  destruct (rate_limits w !! name) as [r|]; simpl; [|reflexivity].
  destruct (lock_pending r t); simpl; [reflexivity|].
  destruct (lock_elapsed r t); reflexivity.
Qed.

(** X14.  The new password works at once: after [change_password] has
    answered [success: True] for a user, a login of that user (by a name
    that matches that one row of [users] only and that the limiter does
    not block) with the new password is accepted.  The change leaves the
    names and e-mails alone, so the name still matches one row only; the
    hash and the salt are stored as hexadecimal text and read back by
    [bytes.fromhex]. *)
Theorem changed_password_logs_in fresh af uid cur new ip w res w'
    t_check t_record af' name ip' ua u :
  change_password fresh af uid cur new ip w = (Returned res, w') ->
  row_get "success" res = Some (PyBool true) ->
  (length (rows_named name w) <= 1)%nat ->
  user_named name w = Some u ->
  user_id u = uid ->
  user_is_active u = true ->
  limiter_allows t_check name w = true ->
  (length (rows_named name w') <= 1)%nat
  /\ result_of (authenticate_user t_check t_record af' name new ip' ua w') =
     Returned (Some ["id" ~> PyInt uid; "username" ~> PyStr (username u);
                     "role" ~> PyStr (role u)]).
Proof.
  intros Hc Hs Hone Hu Hid Hact Hallow. subst uid.
  destruct (change_password_success_users _ _ _ _ _ _ _ _ _ Hc Hs) as (pwn & He & Hl & Hus).
  split.
  { unfold rows_named in *. rewrite Hus, filter_map_same_test_length; [exact Hone|].
    intros a. destruct (user_id a =? user_id u); reflexivity. }
  rewrite <- (limiter_allows_same_limits t_check name w w' Hl) in Hallow.
  pose (u' := {| user_id := user_id u; username := username u; email := email u;
                 password_hash := Text (hex (pbkdf2_hmac pwn fresh HASH_ITERATIONS));
                 salt := Text (hex fresh); role := role u;
                 user_is_active := user_is_active u;
                 password_changed_at := Some (db_clock w) |}).
  assert (Hu' : user_named name w' = Some u').
  { unfold user_named in *. rewrite Hus, find_map_same_test.
    - rewrite Hu. simpl. rewrite Z.eqb_refl. reflexivity.
    - intros a. destruct (user_id a =? user_id u); reflexivity. }
  rewrite (login_decided_by_digest t_check t_record af' name new ip' ua w' u'
             (pbkdf2_hmac pwn fresh HASH_ITERATIONS) fresh pwn Hallow Hu' Hact);
    [rewrite bytes_eqb_refl; reflexivity| | |exact He]; simpl; apply fromhex_hex.
Qed.
End Credentials.

Lemma login_requires_matching_password_witness :
  limiter_allows 10 (py "alice") alice_world = true
  /\ exists u,
       user_named (py "alice") alice_world = Some u
       /\ user_is_active u = true
       /\ @password_matches rfc8018 u (py "OldPassw0rd")
       /\ ["id" ~> PyInt 1; "username" ~> PyStr (py "alice"); "role" ~> PyStr (py "admin")] =
          ["id" ~> PyInt (user_id u); "username" ~> PyStr (username u);
           "role" ~> PyStr (role u)].
Proof.
  apply (@login_requires_matching_password no_exception_text rfc8018 10 11 false (py "alice")
           (py "OldPassw0rd") None None alice_world
           ["id" ~> PyInt 1; "username" ~> PyStr (py "alice"); "role" ~> PyStr (py "admin")]).
  rewrite (@login_decided_by_digest no_exception_text rfc8018 10 11 false (py "alice")
             (py "OldPassw0rd") None None alice_world alice
             (@pbkdf2_hmac rfc8018 (bytes_of_string "OldPassw0rd") alice_salt
                SecurityConfig.HASH_ITERATIONS)
             alice_salt (bytes_of_string "OldPassw0rd")
             eq_refl eq_refl eq_refl eq_refl eq_refl eq_refl).
  rewrite bytes_eqb_refl. reflexivity.
Defined.

Lemma changed_password_logs_in_witness :
  let changed :=
    @change_password ascii_only rfc8018 [] false 1 (py "OldPassw0rd") (py "NewPassw0rd1") None
      alice_world in
  result_of changed = Returned ["success" ~> PyBool true]
  /\ result_of (@authenticate_user no_exception_text rfc8018 10 11 false (py "alice")
                  (py "NewPassw0rd1") None None (world_of changed)) =
     Returned (Some ["id" ~> PyInt 1; "username" ~> PyStr (py "alice");
                     "role" ~> PyStr (py "admin")]).
Proof.
  intros changed.
  assert (Hr : result_of changed = Returned ["success" ~> PyBool true]).
  { apply (@change_password_accepted ascii_only rfc8018 [] false 1 (py "OldPassw0rd")
             (py "NewPassw0rd1") None alice_world alice
             (@pbkdf2_hmac rfc8018 (bytes_of_string "OldPassw0rd") alice_salt
                SecurityConfig.HASH_ITERATIONS) alice_salt
             (bytes_of_string "OldPassw0rd") (bytes_of_string "NewPassw0rd1"));
      reflexivity. }
  split; [exact Hr|].
  exact (proj2
           (@changed_password_logs_in ascii_only no_exception_text rfc8018 [] false 1
              (py "OldPassw0rd") (py "NewPassw0rd1") None alice_world
              ["success" ~> PyBool true] (world_of changed) 10 11 false (py "alice") None None
              alice
              (eq_trans (run_pairing changed) (f_equal (fun o => (o, world_of changed)) Hr))
              eq_refl (le_n 1) eq_refl eq_refl eq_refl eq_refl)).
Defined.

(** ** The password policy on ASCII passwords *)

Section PolicyFacts.
Context {U : UnicodeData}.
Local Open Scope Z_scope.

Lemma existsb_class_lower (cls : N -> bool) (lo hi : N) p :
  (forall c, is_ascii c = true -> cls c = between lo hi c) ->
  (forall c, between lo hi c = true -> ascii_lower c = c) ->
  forallb is_ascii p = true ->
  existsb cls p = true ->
  existsb (between lo hi) (map ascii_lower p) = true.
Proof.
  intros Hcls Hfix. induction p as [|c p IH]; simpl; [discriminate|].
  intros Ha He. apply andb_prop in Ha as [Hc Hp].
  apply orb_prop in He as [He|He].
  - rewrite (Hcls c Hc) in He. rewrite (Hfix c He), He. reflexivity.
  - rewrite (IH Hp He). apply orb_true_r.
Qed.

Lemma digits_survive_lower p :
  forallb is_ascii p = true -> existsb isdigit p = true ->
  existsb (between 48 57) (map ascii_lower p) = true.
Proof.
  apply existsb_class_lower.
  - intros c Hc. unfold isdigit. rewrite Hc. reflexivity.
  - intros c Hc. unfold ascii_lower, between in *.
    apply andb_prop in Hc as [H1 H2]. apply N.leb_le in H1, H2.
    destruct (N.leb_spec 65 c); simpl; [|reflexivity].
    destruct (N.leb_spec c 90); [lia|reflexivity].
Qed.

Lemma lowercase_survives_lower p :
  forallb is_ascii p = true -> existsb islower p = true ->
  existsb (between 97 122) (map ascii_lower p) = true.
Proof.
  apply existsb_class_lower.
  - intros c Hc. unfold islower. rewrite Hc. reflexivity.
  - intros c Hc. unfold ascii_lower, between in *.
    apply andb_prop in Hc as [H1 H2]. apply N.leb_le in H1, H2.
    destruct (N.leb_spec 65 c); simpl; [|reflexivity].
    destruct (N.leb_spec c 90); [lia|reflexivity].
Qed.

(** No entry of the deny list is the lower-case form of a password with a
    digit and a lower-case letter. *)
Lemma deny_list_never_fires p :
  forallb is_ascii p = true ->
  existsb islower p = true -> existsb isdigit p = true ->
  str_in (str_lower p) common_passwords = false.
Proof.
  intros Ha Hl Hd. unfold str_lower. rewrite Ha.
  pose proof (digits_survive_lower p Ha Hd) as Dg.
  pose proof (lowercase_survives_lower p Ha Hl) as Lw.
  destruct (str_in (map ascii_lower p) common_passwords) eqn:E; [|reflexivity].
  unfold str_in in E. apply existsb_exists in E as (x & Hx & Heq).
  unfold str_eqb in Heq. apply bool_decide_eq_true in Heq. rewrite Heq in Dg, Lw.
  simpl in Hx.
  destruct Hx as [<-|[<-|[<-|[<-|[<-|[]]]]]]; vm_compute in Dg, Lw; discriminate.
Qed.

(** X15.  On ASCII passwords the deny list of common passwords never
    decides: [validate_password] accepts exactly the passwords of 8 to 128
    characters with an upper-case letter, a lower-case letter and a digit.
    Every entry of the list already fails one of those tests. *)
Theorem deny_list_is_redundant p :
  forallb is_ascii p = true ->
  valid (validate_password p) =
    (8 <=? Z.of_nat (length p)) && (Z.of_nat (length p) <=? 128)
    && existsb isupper p && existsb islower p && existsb isdigit p.
Proof.
  intros Ha. unfold validate_password. cbn [valid].
  destruct (Z.ltb_spec (Z.of_nat (length p)) 8) as [L1|L1];
    [replace (8 <=? Z.of_nat (length p)) with false by (symmetry; apply Z.leb_gt; lia);
     reflexivity|].
  replace (8 <=? Z.of_nat (length p)) with true by (symmetry; apply Z.leb_le; lia).
  destruct (Z.ltb_spec 128 (Z.of_nat (length p))) as [L2|L2];
    [replace (Z.of_nat (length p) <=? 128) with false by (symmetry; apply Z.leb_gt; lia);
     reflexivity|].
  replace (Z.of_nat (length p) <=? 128) with true by (symmetry; apply Z.leb_le; lia).
  destruct (existsb isupper p); [|reflexivity].
  destruct (existsb islower p) eqn:Hl; [|reflexivity].
  destruct (existsb isdigit p) eqn:Hd; [|reflexivity].
  rewrite (deny_list_never_fires p Ha Hl Hd). reflexivity.
Qed.

Lemma starts_with_length q s : starts_with q s = true -> (length q <= length s)%nat.
Proof.
  revert s. induction q as [|x q IH]; intros [|y s]; simpl; try discriminate; try lia.
  intros H. apply andb_prop in H as [_ H]. apply IH in H. lia.
Qed.

Lemma str_contains_length q s : str_contains q s = true -> (length q <= length s)%nat.
Proof.
  induction s as [|y s IH]; simpl.
  - rewrite orb_false_r. apply starts_with_length.
  - intros H. apply orb_prop in H as [H|H].
    + apply starts_with_length in H. exact H.
    + apply IH in H. lia.
Qed.

Lemma starts_with_same_length q s :
  length q = length s -> starts_with q s = true -> q = s.
Proof.
  revert s. induction q as [|x q IH]; intros [|y s]; simpl; try discriminate;
    [reflexivity|].
  intros [= Hlen] H. apply andb_prop in H as [Hx H]. apply N.eqb_eq in Hx.
  rewrite Hx, (IH s Hlen H). reflexivity.
Qed.

(** [q in s] for strings of one length is [q == s]. *)
Lemma str_contains_same_length q s :
  length q = length s -> str_contains q s = true -> q = s.
Proof.
  intros Hlen H. destruct s as [|y s]; simpl in H.
  - rewrite orb_false_r in H. apply starts_with_same_length; assumption.
  - apply orb_prop in H as [H|H]; [apply starts_with_same_length; assumption|].
    apply str_contains_length in H. simpl in Hlen. lia.
Qed.

Lemma map_fixed_point (f : N -> N) (cls : N -> bool) p :
  (forall c, cls c = true -> f c <> c) ->
  existsb cls p = true -> map f p <> p.
Proof.
  intros Hf. induction p as [|c p IH]; simpl; [discriminate|].
  intros He [= Hc Hp]. apply orb_prop in He as [He|He].
  - exact (Hf c He Hc).
  - exact (IH He Hp).
Qed.

(** The penalty of [_calculate_strength] is for passwords of one case. *)
Lemma mixed_case_has_no_penalty p :
  forallb is_ascii p = true ->
  existsb isupper p = true -> existsb islower p = true ->
  str_contains (str_lower p) p || str_contains (str_upper p) p = false.
Proof.
  intros Ha Hu Hl. unfold str_lower, str_upper. rewrite Ha.
  assert (Hasc : forall (cls : N -> bool) lo hi,
             (forall c, is_ascii c = true -> cls c = between lo hi c) ->
             existsb cls p = true -> existsb (between lo hi) p = true).
  { intros cls lo hi Hcls. clear Hu Hl. induction p as [|c p IH]; simpl; [discriminate|].
    simpl in Ha. apply andb_prop in Ha as [Hc Hp]. rewrite (Hcls c Hc).
    intros He. apply orb_prop in He as [->|He]; [reflexivity|].
    rewrite (IH Hp He). apply orb_true_r. }
  apply orb_false_intro.
  - destruct (str_contains (map ascii_lower p) p) eqn:E; [|reflexivity].
    apply str_contains_same_length in E; [|apply length_map].
    exfalso. revert E. apply (map_fixed_point ascii_lower (between 65 90)).
    + intros c Hc. unfold ascii_lower. rewrite Hc. lia.
    + apply (Hasc isupper); [|exact Hu]. intros c Hc. unfold isupper. rewrite Hc. reflexivity.
  - destruct (str_contains (map ascii_upper p) p) eqn:E; [|reflexivity].
    apply str_contains_same_length in E; [|apply length_map].
    exfalso. revert E. apply (map_fixed_point ascii_upper (between 97 122)).
    + intros c Hc. unfold ascii_upper. rewrite Hc.
      unfold between in Hc. apply andb_prop in Hc as [H1 H2]. apply N.leb_le in H1, H2. lia.
    + apply (Hasc islower); [|exact Hl]. intros c Hc. unfold islower. rewrite Hc. reflexivity.
Qed.

(** What every accepted password has. *)
Lemma valid_password_has p :
  valid (validate_password p) = true ->
  (8 <= Z.of_nat (length p))
  /\ existsb isupper p = true /\ existsb islower p = true /\ existsb isdigit p = true.
Proof.
  unfold validate_password. cbn [valid].
  destruct (Z.ltb_spec (Z.of_nat (length p)) 8); [discriminate|].
  destruct (128 <? Z.of_nat (length p)); [discriminate|].
  destruct (existsb isupper p); [|discriminate].
  destruct (existsb islower p); [|discriminate].
  destruct (existsb isdigit p); [|discriminate].
  intros _. repeat split. assumption.
Qed.

(** X16.  An ASCII password that passes the policy is never rated weak: it
    is strong when it has 17 characters or more, or 11 or more and one of
    the special characters, and medium otherwise. *)
Theorem accepted_password_strength p :
  forallb is_ascii p = true ->
  valid (validate_password p) = true ->
  strength (validate_password p) =
    if (17 <=? Z.of_nat (length p))
       || (existsb (fun c => existsb (N.eqb c) special_characters) p
           && (11 <=? Z.of_nat (length p)))
    then "strong"%string else "medium"%string.
Proof.
  intros Ha Hv. destruct (valid_password_has p Hv) as (Hlen & Hup & Hlo & Hdi).
  unfold validate_password, strength, _calculate_strength.
  rewrite Hup, Hlo, Hdi, (mixed_case_has_no_penalty p Ha Hup Hlo).
  destruct (existsb (fun c => existsb (N.eqb c) special_characters) p); simpl;
    destruct (Z.leb_spec 17 (Z.of_nat (length p)));
    destruct (Z.leb_spec 11 (Z.of_nat (length p))); simpl;
    repeat match goal with
           | |- context [?a <? ?b] => destruct (Z.ltb_spec a b); try lia
           end; reflexivity.
Qed.
End PolicyFacts.

Lemma deny_list_is_redundant_witness :
  forallb is_ascii (py "NewPassw0rd1") = true
  /\ valid (@validate_password ascii_only (py "NewPassw0rd1")) = true.
Proof.
  split; [reflexivity|].
  exact (eq_trans (@deny_list_is_redundant ascii_only (py "NewPassw0rd1") eq_refl) eq_refl).
Defined.

Lemma accepted_password_strength_witness :
  strength (@validate_password ascii_only (py "NewPassw0rd1")) = "medium"%string
  /\ strength (@validate_password ascii_only (py "New-Passw0rd")) = "strong"%string.
Proof.
  split.
  - exact (eq_trans (@accepted_password_strength ascii_only (py "NewPassw0rd1") eq_refl eq_refl)
             eq_refl).
  - exact (eq_trans (@accepted_password_strength ascii_only (py "New-Passw0rd") eq_refl eq_refl)
             eq_refl).
Defined.

(** ** Accounts seeded by models.py and db_init.py, logging in through auth.py *)

Section SeededAccounts.
Context {U : UnicodeData} {X : ExceptionText} {HL : Hashlib}.
Import SecurityConfig RateLimiter.
Local Arguments record_attempt : simpl never.
Local Arguments check_rate_limit : simpl never.

Ltac step :=
  unfold query, execute, logger, emit, reads, writes, mbind, M_bind, bind, mret, M_ret, ret,
    raise, try_except, result_of, world_of; simpl.

Lemma hex_is_ascii bs : forallb is_ascii (hex bs) = true.
Proof.
  induction bs as [|b bs IH]; [reflexivity|].
  change (hex (b :: bs)) with
    ([hex_digit (Byte.to_N b / 16); hex_digit (Byte.to_N b mod 16)] ++ hex bs).
  rewrite forallb_app, IH, andb_true_r. destruct b; reflexivity.
Qed.

Lemma encode_ascii s : forallb is_ascii s = true -> encode_utf8 s = Some (map byte_of_N s).
Proof.
  induction s as [|c s IH]; [reflexivity|]. simpl. intros H.
  apply andb_prop in H as [Hc Hs]. rewrite (IH Hs). unfold utf8_char.
  unfold is_ascii in Hc. rewrite Hc. reflexivity.
Qed.

Lemma length_hex bs : length (hex bs) = (2 * length bs)%nat.
Proof. induction bs as [|b bs IH]; [reflexivity|]. simpl. rewrite IH. lia. Qed.

(** X17.  The two halves of the program disagree about the salt.  An
    account stored as models.py and db_init.py store it, the hash derived
    with the UTF-8 bytes of the salt's hexadecimal text (twice as many
    bytes as were drawn), is verified by [authenticate_user] with the bytes
    that [bytes.fromhex] reads from that text: the owner's own password is
    accepted exactly when PBKDF2 derives the same digest from both salts,
    and refused otherwise. *)
Theorem seeded_account_meets_another_salt
    fresh password h s t_check t_record af name ip ua w u :
  User.hash_password fresh password None = Some (h, s)
  \/ db_init.hash_password fresh password None = Some (h, s) ->
  user_named name w = Some u ->
  user_is_active u = true ->
  password_hash u = Text h ->
  salt u = Text s ->
  limiter_allows t_check name w = true ->
  let r := authenticate_user t_check t_record af name password ip ua w in
  let stored_with := map byte_of_N (hex fresh) in
  exists pw,
    encode_utf8 password = Some pw
    /\ h = hex (pbkdf2_hmac pw stored_with HASH_ITERATIONS)
    /\ length stored_with = (2 * length fresh)%nat
    /\ (pbkdf2_hmac pw fresh HASH_ITERATIONS = pbkdf2_hmac pw stored_with HASH_ITERATIONS ->
        result_of r =
          Returned (Some ["id" ~> PyInt (user_id u); "username" ~> PyStr (username u);
                          "role" ~> PyStr (role u)]))
    /\ (pbkdf2_hmac pw fresh HASH_ITERATIONS <> pbkdf2_hmac pw stored_with HASH_ITERATIONS ->
        result_of r = Returned None).
Proof.
  intros Hhash Hu Hact Hh Hs Hallow r stored_with.
  assert (Hhash' : User.hash_password fresh password None = Some (h, s))
    by (destruct Hhash as [Hhash|Hhash]; exact Hhash).
  clear Hhash. rename Hhash' into Hhash.
  unfold User.hash_password in Hhash.
  rewrite (encode_ascii (hex fresh) (hex_is_ascii fresh)) in Hhash.
  destruct (encode_utf8 password) as [pw|] eqn:He; [|discriminate].
  injection Hhash as <- <-. exists pw.
  split; [reflexivity|]. split; [reflexivity|].
  split; [unfold stored_with; rewrite length_map; apply length_hex|].
  assert (Hr := login_decided_by_digest t_check t_record af name password ip ua w u
                  (pbkdf2_hmac pw stored_with HASH_ITERATIONS) fresh pw
                  Hallow Hu Hact).
  rewrite Hh, Hs in Hr. simpl in Hr. rewrite !fromhex_hex in Hr.
  specialize (Hr eq_refl eq_refl He). fold r in Hr.
  split; intros Hd.
  - rewrite Hr, Hd, bytes_eqb_refl. reflexivity.
  - rewrite Hr. destruct (bytes_eqb _ _) eqn:B; [|reflexivity].
    apply bytes_eqb_eq in B. contradiction.
Qed.
End SeededAccounts.

Lemma seeded_account_meets_another_salt_witness :
  exists pw,
    encode_utf8 (py "Ka05ml@2120") = Some pw
    /\ length (map byte_of_N (hex seed_salt)) = 64%nat.
Proof.
  destruct (@seeded_account_meets_another_salt no_exception_text rfc8018 seed_salt
              (py "Ka05ml@2120")
              (hex (@pbkdf2_hmac rfc8018 (bytes_of_string "Ka05ml@2120")
                      (map byte_of_N (hex seed_salt)) 100000))
              (hex seed_salt) 10 11 false (py "psychy") None None seeded_world psychy
              (or_intror eq_refl) eq_refl eq_refl eq_refl eq_refl eq_refl)
    as (pw & He & _ & Hl & _).
  exists pw. split; [exact He|exact Hl].
Defined.

(** ** What the security middleware refuses and what it lets through *)

Section SearchFacts.
Context {U : UnicodeData}.

Lemma search_from_app r pre : forall prev suf,
  (forall prev', rmatch r (fun _ _ => true) prev' suf = true) ->
  search_from r prev (pre ++ suf) = true.
Proof.
  induction pre as [|c pre IH]; intros prev suf H; simpl.
  - destruct suf; simpl; rewrite H; reflexivity.
  - rewrite (IH (Some c) suf H). apply orb_true_r.
Qed.

Lemma starts_with_split m : forall s, starts_with m s = true -> exists rest, s = m ++ rest.
Proof.
  induction m as [|x m IH]; intros s H; [exists s; reflexivity|].
  destruct s as [|y s]; simpl in H; [discriminate|].
  apply andb_prop in H as [Hx H]. apply N.eqb_eq in Hx. subst y.
  destruct (IH s H) as [rest ->]. exists rest. reflexivity.
Qed.

Lemma str_contains_split m s :
  str_contains m s = true -> exists pre rest, s = pre ++ m ++ rest.
Proof.
  induction s as [|y s IH]; simpl; intros H.
  - rewrite orb_false_r in H. destruct (starts_with_split m [] H) as [rest E].
    exists [], rest. exact E.
  - apply orb_prop in H as [H|H].
    + destruct (starts_with_split m (y :: s) H) as [rest E]. exists [], rest. exact E.
    + destruct (IH H) as (pre & rest & ->). exists (y :: pre), rest. reflexivity.
Qed.

(** A repetition may match nothing. *)
Lemma star_zero r (k : option N -> pystr -> bool) prev s :
  k prev s = true -> rmatch (Star r) k prev s = true.
Proof. intros H. simpl. destruct (length s); rewrite H; reflexivity. Qed.

(** The characters of a pattern, matched one by one up to case. *)
Lemma rmatch_literal pat : forall mid (k : option N -> pystr -> bool) prev post,
  Forall2 (fun p c => ignorecase_eq p c = true) pat mid ->
  (forall prev', k prev' post = true) ->
  rmatch (fold_right (fun c r => Seq (Lit c) r) Eps pat) k prev (mid ++ post) = true.
Proof.
  induction pat as [|p pat IH]; intros mid k prev post HF Hk.
  - inversion HF; subst. simpl. apply Hk.
  - inversion HF as [|p' c pat' mid' Hpc HF']; subst. simpl. rewrite Hpc. simpl.
    apply IH; assumption.
Qed.

Lemma lowered_matches mid :
  forallb is_ascii mid = true ->
  Forall2 (fun p c => ignorecase_eq p c = true) (map ascii_lower mid) mid.
Proof.
  induction mid as [|c mid IH]; simpl; intros H; constructor.
  - apply andb_prop in H as [Hc _]. unfold ignorecase_eq.
    assert (Hl : is_ascii (ascii_lower c) = true).
    { unfold is_ascii, ascii_lower, between in *. apply N.ltb_lt in Hc. apply N.ltb_lt.
      destruct (N.leb_spec 65 c); simpl; [|lia].
      destruct (N.leb_spec c 90); simpl; lia. }
    rewrite Hl, Hc. simpl. apply N.eqb_eq.
    unfold ascii_lower, between.
    destruct (N.leb_spec 65 c); simpl; [|destruct (N.leb_spec 65 c); simpl; [lia|reflexivity]].
    destruct (N.leb_spec c 90); simpl.
    + destruct (N.leb_spec 65 (c + 32)); simpl; [|lia].
      destruct (N.leb_spec (c + 32) 90); simpl; [lia|reflexivity].
    + destruct (N.leb_spec 65 c); simpl; [|lia].
      destruct (N.leb_spec c 90); simpl; [lia|reflexivity].
  - apply andb_prop in H as [_ H]. apply IH, H.
Qed.
End SearchFacts.

Section MiddlewareMore.
Context {U : UnicodeData}.
Import SecurityMiddleware.

Lemma comment_marker_matches marker prev rest :
  In marker [py "--"; py "#"; py "/*"; py "*/"] ->
  rmatch (keywords "--" ["#"; "/*"; "*/"]%string) (fun _ _ => true) prev (marker ++ rest)
  = true.
Proof.
  intros H. simpl in H.
  destruct H as [<-|[<-|[<-|[<-|[]]]]]; reflexivity.
Qed.

(** X18.  The second SQL pattern needs no context: ASCII content with [--],
    [#], [/*] or [*/] anywhere in it is reported as an SQL injection
    attempt, whatever else it holds; the SQL patterns are tried first. *)
Theorem comment_markers_are_sql_injection marker content :
  In marker [py "--"; py "#"; py "/*"; py "*/"] ->
  forallb is_ascii content = true ->
  str_contains marker content = true ->
  _check_security_threats content = Some "SQL Injection attempt"%string.
Proof.
  intros Hm Ha Hc. unfold _check_security_threats, str_lower. rewrite Ha.
  destruct (str_contains_split marker content Hc) as (pre & rest & ->).
  assert (Hsql : any_match sql_injection_patterns
                   (map ascii_lower (pre ++ marker ++ rest)) = true).
  { unfold any_match. apply existsb_exists.
    exists (keywords "--" ["#"; "/*"; "*/"]%string). split; [simpl; tauto|].
    rewrite !map_app. unfold re_search. apply search_from_app. intros prev'.
    assert (Hfix : map ascii_lower marker = marker).
    { simpl in Hm. destruct Hm as [<-|[<-|[<-|[<-|[]]]]]; reflexivity. }
    rewrite Hfix. apply comment_marker_matches, Hm. }
  rewrite Hsql. reflexivity.
Qed.

Lemma agent_matches name ua :
  occurs_ignoring_case (py name) ua -> re_search (agent name) ua = true.
Proof.
  intros (pre & mid & post & -> & Ha & Hl).
  unfold re_search. apply search_from_app. intros prev'.
  unfold agent. simpl seqs.
  change (rmatch (Seq (Star AnyChar) (Seq (lit name) (Seq (Star AnyChar) Eps)))
            (fun _ _ => true) prev' (mid ++ post))
    with (rmatch (Star AnyChar)
            (rmatch (lit name) (rmatch (Star AnyChar) (rmatch Eps (fun _ _ => true))))
            prev' (mid ++ post)).
  apply star_zero. unfold lit. rewrite <- Hl.
  apply rmatch_literal; [apply lowered_matches, Ha|].
  intros prev''. apply star_zero. reflexivity.
Qed.

(** X19.  A client that names one of the eight scanners anywhere in its
    User-Agent, in any mix of upper and lower case, is answered 403
    Forbidden at once: the path, the query and the body are not looked
    at, and no audit entry is written; the only trace is the warning in
    the log. *)
Theorem scanner_agents_are_turned_away name ua audit_fails environ w :
  In name ["sqlmap"; "nikto"; "nessus"; "masscan"; "nmap"; "w3af"; "burp";
           "acunetix"]%string ->
  HTTP_USER_AGENT environ = Some ua ->
  occurs_ignoring_case (py name) ua ->
  process_request audit_fails environ w =
  (Returned (Some (403, error_body "Forbidden"), environ),
   set_trace (fun t => t ++ [Logged Warning]) w).
Proof.
  intros Hn Hua Hocc. apply process_request_blocked_agent. rewrite Hua. simpl default.
  unfold any_match. apply existsb_exists. exists (agent name).
  split; [|apply agent_matches, Hocc].
  unfold blocked_user_agents. simpl in Hn.
  repeat (destruct Hn as [<-|Hn]; [simpl; tauto|]). destruct Hn.
Qed.

Ltac leaf Hsame :=
  eexists _, _; split; [reflexivity|];
  split; [first [left; reflexivity | right; eexists; left; reflexivity
                | right; eexists; right; reflexivity]|];
  split; [first [exact Hsame | eexists; reflexivity]|];
  split; [first [discriminate | intros _; reflexivity]|];
  repeat split.

Lemma with_input_same environ : with_input (wsgi_input environ) environ = environ.
Proof. destruct environ; reflexivity. Qed.

(** X20.  [process_request] always answers: it returns, with no answer
    (the request may pass), with a 403 or with a 500.  The environment
    comes back with the keys it had and with a prefix of the body it had,
    untouched unless the method is POST or PUT; and of the tables only the
    audit log of models.py can have changed. *)
Theorem process_request_always_answers audit_fails environ w :
  let r := process_request audit_fails environ w in
  exists answer environ',
    result_of r = Returned (answer, environ')
    /\ (answer = None \/ exists body, answer = Some (403, body) \/ answer = Some (500, body))
    /\ (exists n, environ' = with_input (firstn n (wsgi_input environ)) environ)
    /\ (is_post_or_put (default [] (REQUEST_METHOD environ)) = false -> environ' = environ)
    /\ users (world_of r) = users w
    /\ user_sessions (world_of r) = user_sessions w
    /\ rate_limits (world_of r) = rate_limits w
    /\ audit_logs (world_of r) = audit_logs w.
Proof.
  intros r. subst r.
  assert (Hsame : exists n, environ = with_input (firstn n (wsgi_input environ)) environ).
  { exists (length (wsgi_input environ)). rewrite firstn_all. symmetry.
    apply with_input_same. }
  unfold process_request, check_body, AuditLog_log.
  unfold query, execute, logger, emit, reads, writes, mbind, M_bind, bind, mret, M_ret, ret,
    raise, try_except, result_of, world_of.
  destruct (any_match blocked_user_agents _); simpl; [leaf Hsame|].
  destruct (_check_security_threats _) as [label|]; simpl;
    [destruct audit_fails; simpl; leaf Hsame|].
  destruct (is_post_or_put _) eqn:Hpost; simpl; [|leaf Hsame].
  destruct (CONTENT_LENGTH environ) as [text|]; simpl; [|leaf Hsame].
  destruct (int_of_str text) as [n|]; simpl; [|leaf Hsame].
  destruct (0 <? n); simpl; [|leaf Hsame].
  destruct (decode_utf8 (firstn (Z.to_nat n) (wsgi_input environ))) as [body_str|]; simpl;
    [|leaf Hsame].
  destruct (_check_security_threats body_str); simpl; leaf Hsame.
Qed.

(** A byte from F5 up occurs in no UTF-8 text. *)
Lemma decode_invalid_byte x post : forall n pre,
  (length pre <= n)%nat ->
  (0xF5 <= Byte.to_N x)%N ->
  decode_utf8 (pre ++ x :: post) = None.
Proof.
  assert (Hlead : (0xF5 <= Byte.to_N x)%N -> forall r, decode_utf8 (x :: r) = None).
  { intros Hx r. simpl. unfold between.
    destruct (N.ltb_spec (Byte.to_N x) 0x80); [lia|].
    destruct (N.leb_spec (Byte.to_N x) 0xDF); [lia|]. rewrite andb_false_r.
    destruct (N.leb_spec (Byte.to_N x) 0xEF); [lia|]. rewrite andb_false_r.
    destruct (N.leb_spec (Byte.to_N x) 0xF4); [lia|]. rewrite andb_false_r.
    reflexivity. }
  assert (Hcont : (0xF5 <= Byte.to_N x)%N -> continuation x = false).
  { intros Hx. unfold continuation, between.
    destruct (N.leb_spec (Byte.to_N x) 0xBF); [lia|]. apply andb_false_r. }
  induction n as [|n IH]; intros pre Hlen Hx.
  - destruct pre; [|simpl in Hlen; lia]. apply Hlead, Hx.
  - destruct pre as [|b0 r0]; [apply Hlead, Hx|].
    simpl in Hlen. simpl app.
    assert (IH' : forall p, (length p <= n)%nat -> decode_utf8 (p ++ x :: post) = None)
      by (intros p Hp; apply IH; [exact Hp|exact Hx]).
    cbn [decode_utf8].
    destruct (Byte.to_N b0 <? 128)%N.
    { rewrite IH' by lia. reflexivity. }
    destruct (between 194 223 (Byte.to_N b0)).
    { destruct r0 as [|b1 r1]; simpl app; cbv beta iota.
      - rewrite (Hcont Hx). reflexivity.
      - destruct (continuation b1); [|reflexivity].
        rewrite IH' by (simpl in Hlen; lia). reflexivity. }
    destruct (between 224 239 (Byte.to_N b0)).
    { destruct r0 as [|b1 [|b2 r2]]; simpl app; cbv beta iota.
      - rewrite (Hcont Hx). destruct post; reflexivity.
      - rewrite (Hcont Hx), andb_false_r. reflexivity.
      - destruct (_ && _ && _ && _); [|reflexivity].
        rewrite IH' by (simpl in Hlen; lia). reflexivity. }
    destruct (between 240 244 (Byte.to_N b0)); [|reflexivity].
    destruct r0 as [|b1 [|b2 [|b3 r3]]]; simpl app; cbv beta iota.
    + rewrite (Hcont Hx). destruct post as [|? [|? ?]]; reflexivity.
    + rewrite (Hcont Hx), andb_false_r. destruct post; reflexivity.
    + rewrite (Hcont Hx), andb_false_r. reflexivity.
    + destruct (_ && _ && _ && _); [|reflexivity].
      rewrite IH' by (simpl in Hlen; lia). reflexivity.
Qed.

(** X21.  A body that is not UTF-8 is not inspected.  For a POST or PUT
    whose path and query raise no alarm, one byte from F5 up among the
    bytes read switches the check of the body off: the request passes,
    whatever the other bytes are, and nothing is logged. *)
Theorem undecodable_body_is_not_inspected audit_fails environ w method text n x :
  any_match blocked_user_agents (default [] (HTTP_USER_AGENT environ)) = false ->
  _check_security_threats
    (default [] (PATH_INFO environ) ++ py "?" ++ default [] (QUERY_STRING environ)) = None ->
  REQUEST_METHOD environ = Some method ->
  is_post_or_put method = true ->
  CONTENT_LENGTH environ = Some text ->
  int_of_str text = Some n ->
  0 < n ->
  In x (firstn (Z.to_nat n) (wsgi_input environ)) ->
  (0xF5 <= Byte.to_N x)%N ->
  process_request audit_fails environ w =
  (Returned (None, with_input (firstn (Z.to_nat n) (wsgi_input environ)) environ), w).
Proof.
  intros Hua Hurl Hm Hpost Hcl Hint Hn Hin Hx.
  unfold process_request. rewrite Hua, Hurl, Hm. simpl default. rewrite Hpost.
  unfold check_body. rewrite Hcl, Hint.
  unfold query, execute, logger, emit, reads, writes, mbind, M_bind, bind, mret, M_ret, ret,
    raise, try_except, result_of, world_of.
  assert (Hd : decode_utf8 (firstn (Z.to_nat n) (wsgi_input environ)) = None).
  { apply in_split in Hin as (pre & post & ->).
    exact (decode_invalid_byte x post (length pre) pre (le_n _) Hx). }
  cbv beta iota. destruct (Z.ltb_spec 0 n); [|lia]. cbv beta iota.
  rewrite Hd. reflexivity.
Qed.
End MiddlewareMore.

Lemma comment_markers_are_sql_injection_witness :
  @SecurityMiddleware._check_security_threats ascii_only (py "colour=#ffffff") =
  Some "SQL Injection attempt"%string.
Proof.
  exact (@comment_markers_are_sql_injection ascii_only (py "#") (py "colour=#ffffff")
           (or_intror (or_introl eq_refl)) eq_refl eq_refl).
Defined.

Lemma scanner_agents_are_turned_away_witness :
  result_of (@SecurityMiddleware.process_request ascii_only false
               (probe_request (Some (py "GET")) (Some (py "Mozilla/5.0 SQLMap/1.7")) None None [])
               empty_world) =
  Returned (Some (403, SecurityMiddleware.error_body "Forbidden"),
            probe_request (Some (py "GET")) (Some (py "Mozilla/5.0 SQLMap/1.7")) None None []).
Proof.
  exact (f_equal fst
           (@scanner_agents_are_turned_away ascii_only "sqlmap" (py "Mozilla/5.0 SQLMap/1.7")
              false
              (probe_request (Some (py "GET")) (Some (py "Mozilla/5.0 SQLMap/1.7")) None None [])
              empty_world (or_introl eq_refl) eq_refl
              (ex_intro _ (py "Mozilla/5.0 ")
                 (ex_intro _ (py "SQLMap")
                    (ex_intro _ (py "/1.7") (conj eq_refl (conj eq_refl eq_refl))))))).
Defined.

Lemma undecodable_body_is_not_inspected_witness :
  decode_utf8 (wsgi_input undecodable_post) = None
  /\ result_of (@SecurityMiddleware.process_request ascii_decimal false undecodable_post
                  empty_world) =
     Returned (None, undecodable_post).
Proof.
  split; [reflexivity|].
  refine (f_equal fst
            (@undecodable_body_is_not_inspected ascii_decimal false undecodable_post empty_world
               (py "POST") (py "13") 13 (byte_of_N 255)
               eq_refl eq_refl eq_refl eq_refl eq_refl eq_refl eq_refl _ _)).
  - simpl. repeat (first [left; reflexivity | right]).
  - intros H. discriminate H.
Defined.

(** ** The session cookie and the sanitiser *)

Section CookieFacts.
Context {U : UnicodeData}.
Import AuthMiddleware.
Local Open Scope N_scope.

Lemma split_on_nonempty sep s : split_on sep s <> [].
Proof.
  destruct s as [|c s]; simpl; [discriminate|].
  destruct (c =? sep); [discriminate|]. destruct (split_on sep s); discriminate.
Qed.

Lemma split_on_none sep s : ~ In sep s -> split_on sep s = [s].
Proof.
  induction s as [|c s IH]; intros Hn; [reflexivity|]. simpl.
  destruct (N.eqb_spec c sep) as [->|Hc]; [exfalso; apply Hn; left; reflexivity|].
  rewrite IH; [reflexivity|]. intros Hin. apply Hn. right. exact Hin.
Qed.

Lemma split_on_last sep h c :
  ~ In sep c -> split_on sep (h ++ sep :: c) = split_on sep h ++ [c].
Proof.
  intros Hn. induction h as [|x h IH]; simpl.
  - rewrite N.eqb_refl, (split_on_none sep c Hn). reflexivity.
  - destruct (x =? sep); [rewrite IH; reflexivity|].
    rewrite IH. pose proof (split_on_nonempty sep h) as Hne.
    destruct (split_on sep h); [congruence|reflexivity].
Qed.

Lemma lstrip_length s : (length (lstrip s) <= length s)%nat.
Proof.
  induction s as [|c s IH]; simpl; [lia|]. destruct (is_space c); simpl; lia.
Qed.

Lemma lstrip_spaces pad rest :
  forallb is_space pad = true -> lstrip (pad ++ rest) = lstrip rest.
Proof.
  induction pad as [|c pad IH]; simpl; [reflexivity|]. intros H.
  apply andb_prop in H as [-> H]. apply IH, H.
Qed.

Lemma lstrip_fixed_app s t :
  lstrip s = s -> s <> [] -> lstrip (s ++ t) = s ++ t.
Proof.
  destruct s as [|c s]; [congruence|]. simpl. intros H _.
  destruct (is_space c); [|reflexivity].
  pose proof (lstrip_length s) as Hl. rewrite H in Hl. simpl in Hl. lia.
Qed.

Lemma rstrip_after name value :
  rstrip name = name -> name <> [] -> rstrip value = value ->
  rstrip (name ++ value) = name ++ value.
Proof.
  unfold rstrip. intros Hname Hne Hvalue.
  assert (Hn : lstrip (rev name) = rev name)
    by (rewrite <- (rev_involutive (lstrip (rev name))), Hname; reflexivity).
  assert (Hv : lstrip (rev value) = rev value)
    by (rewrite <- (rev_involutive (lstrip (rev value))), Hvalue; reflexivity).
  rewrite rev_app_distr.
  destruct value as [|c value].
  - simpl. rewrite Hn, rev_involutive, app_nil_r. reflexivity.
  - rewrite lstrip_fixed_app; [rewrite <- rev_app_distr; apply rev_involutive|exact Hv|].
    intros E. apply (f_equal (@length _)) in E. rewrite length_rev in E. discriminate.
Qed.

Lemma extract_nonempty header :
  header <> [] ->
  _extract_session_token header =
  fold_left add_cookie (split_on 59 header) ∅ !! session_cookie_name.
Proof. destruct header; [congruence|reflexivity]. Qed.

(** X22.  The last cookie wins.  Whatever the Cookie header holds, a
    [session_token] cookie appended to it (after the semicolon and any
    white space) is the one [_extract_session_token] returns: the cookies
    are collected in a dictionary, and a later one overwrites an earlier
    one of the same name.  The value may hold [=] signs; it may not hold a
    semicolon or end in white space. *)
Theorem last_cookie_wins header pad value :
  forallb is_space pad = true ->
  ~ In 59 value ->
  rstrip value = value ->
  _extract_session_token (header ++ py ";" ++ pad ++ py "session_token=" ++ value) =
  Some value.
Proof.
  intros Hpad Hsemi Hvalue.
  assert (Heq : existsb (N.eqb 61) (pad ++ py "session_token=" ++ value) = true).
  { rewrite !existsb_app. replace (existsb (N.eqb 61) (py "session_token=")) with true
      by reflexivity.
    rewrite orb_true_l. apply orb_true_r. }
  assert (Hstrip : strip (pad ++ py "session_token=" ++ value) =
                   py "session_token=" ++ value).
  { unfold strip. rewrite (lstrip_spaces _ _ Hpad).
    replace (lstrip (py "session_token=" ++ value)) with (py "session_token=" ++ value)
      by reflexivity.
    apply rstrip_after; [reflexivity|discriminate|exact Hvalue]. }
  assert (Hpart : partition_at 61 (py "session_token=" ++ value) =
                  Some (session_cookie_name, value)) by reflexivity.
  assert (Hno : ~ In 59 (pad ++ py "session_token=" ++ value)).
  { intros Hin. apply in_app_or in Hin as [Hin|Hin].
    - rewrite forallb_forall in Hpad. specialize (Hpad _ Hin).
      unfold is_space in Hpad. simpl in Hpad. discriminate.
    - apply in_app_or in Hin as [Hin|Hin]; [|exact (Hsemi Hin)].
      simpl in Hin. repeat (destruct Hin as [Hin|Hin]; [discriminate|]). exact Hin. }
  change (py ";" ++ pad ++ py "session_token=" ++ value)
    with (59 :: (pad ++ py "session_token=" ++ value)).
  remember (pad ++ py "session_token=" ++ value) as cookie eqn:Ec.
  remember (py "session_token=" ++ value) as stripped eqn:Es.
  rewrite extract_nonempty by (destruct header; discriminate).
  rewrite (split_on_last 59 header cookie Hno), fold_left_app.
  cbn [fold_left]. unfold add_cookie at 1. rewrite Heq, Hstrip, Hpart.
  apply lookup_insert_eq.
Qed.

(** A token validates only for a stored session that is active and has
    not expired. *)
Lemma validate_some_live now af token w d :
  result_of (validate_session now af (Some token) w) = Returned (Some d) ->
  exists s, user_sessions w !! token = Some s
            /\ session_is_active s = true
            /\ (now <= expires_at s)%Z
            /\ row_get "id" d = Some (PyInt (session_user_id s)).
Proof.
  unfold validate_session. destruct (no_token (Some token)); [discriminate|].
  unfold select_session_user, column, fromisoformat. run.
  destruct (user_sessions w !! token) as [s|]; simpl; [|discriminate].
  destruct (session_is_active s) eqn:Ea; simpl; [|discriminate].
  destruct (find _ (users w)) as [u|]; simpl; [|discriminate].
  destruct (Z.ltb_spec (expires_at s) now); simpl.
  - destruct af; discriminate.
  - rewrite Ea. simpl. intros [= <-]. exists s.
    split; [reflexivity|]. split; [exact Ea|]. split; [exact H|reflexivity].
Qed.

(** X23.  The authentication middleware always answers, and it lets a
    request through only on a live session: the context it returns holds
    the token of the Cookie header, which is not empty, and a user whose
    id is that of a stored session for that token which is active and has
    not expired; every other answer is a 401 or a 500.  Without a usable
    token (no [session_token] cookie, or an empty one) nothing is looked
    up: the world, the trace of statements included, is as it was. *)
Theorem auth_middleware_needs_a_live_session service now audit_fails cookie w :
  exists answer,
    result_of (process_request service now audit_fails cookie w) = Returned answer
    /\ match answer with
       | inl (status, _) => status = 401%Z \/ status = 500%Z
       | inr (token, user) =>
           service = true
           /\ _extract_session_token (default [] cookie) = Some token
           /\ token <> []
           /\ exists s, user_sessions w !! token = Some s
                        /\ session_is_active s = true
                        /\ (now <= expires_at s)%Z
                        /\ row_get "id" user = Some (PyInt (session_user_id s))
       end
    /\ (no_token (_extract_session_token (default [] cookie)) = true ->
        answer = inl (401%Z, ["error" ~> PyStr (py "Authentication required")])
        /\ world_of (process_request service now audit_fails cookie w) = w).
Proof.
  unfold process_request.
  destruct (_extract_session_token (default [] cookie)) as [[|c token]|] eqn:Hx; simpl.
  - eexists. split; [reflexivity|]. split; [left; reflexivity|].
    intros _. split; reflexivity.
  - destruct service; simpl.
    2:{ eexists. split; [reflexivity|]. split; [right; reflexivity|discriminate]. }
    unfold try_except, mbind, M_bind, bind, mret, M_ret, ret, result_of. simpl.
    destruct (validate_session now audit_fails (Some (c :: token)) w) as [[[d|]|e] w']
      eqn:Hv; simpl.
    + eexists. split; [reflexivity|]. split; [|discriminate].
      split; [reflexivity|]. split; [reflexivity|]. split; [discriminate|].
      apply (validate_some_live now audit_fails (c :: token) w d).
      rewrite Hv. reflexivity.
    + eexists. split; [reflexivity|]. split; [left; reflexivity|discriminate].
    + eexists. split; [reflexivity|]. split; [right; reflexivity|discriminate].
  - eexists. split; [reflexivity|]. split; [left; reflexivity|].
    intros _. split; reflexivity.
Qed.

End CookieFacts.

Section SanitizerFacts.
Context {U : UnicodeData}.
Import InputValidationMiddleware.

Lemma lstrip_is_drop s : exists n, lstrip s = skipn n s.
Proof.
  induction s as [|c s [n IH]]; [exists O; reflexivity|]. simpl.
  destruct (is_space c); [exists (S n); exact IH | exists O; reflexivity].
Qed.

Lemma rstrip_is_take s : exists n, rstrip s = firstn n s.
Proof.
  unfold rstrip. destruct (lstrip_is_drop (rev s)) as [n ->].
  exists (length s - n)%nat. rewrite skipn_rev, rev_involutive. reflexivity.
Qed.

Lemma sanitize_str_is_cut s :
  exists i j k, sanitize_str s =
                firstn k (firstn j (skipn i (List.filter (fun c => negb (dangerous c)) s))).
Proof.
  unfold sanitize_str, strip.
  destruct (lstrip_is_drop (List.filter (fun c => negb (dangerous c)) s)) as [i ->].
  destruct (rstrip_is_take (skipn i (List.filter (fun c => negb (dangerous c)) s)))
    as [j ->].
  destruct (_ <? _)%nat; [exists i, j, 1000%nat; reflexivity|].
  exists i, j, (length (firstn j (skipn i (List.filter (fun c => negb (dangerous c)) s)))).
  rewrite firstn_all. reflexivity.
Qed.

Lemma filter_sublist {A} (f : A -> bool) l : sublist (List.filter f l) l.
Proof.
  induction l as [|a l IH]; simpl; [constructor|].
  destruct (f a); [apply sublist_skip|apply sublist_cons]; exact IH.
Qed.

Lemma sublist_keeps_Forall {A} (P : A -> Prop) l1 l2 :
  sublist l1 l2 -> Forall P l2 -> Forall P l1.
Proof.
  induction 1 as [|x l1 l2 _ IH|x l1 l2 _ IH]; intros HF.
  - constructor.
  - inversion HF; subst. constructor; [assumption|apply IH; assumption].
  - inversion HF; subst. apply IH; assumption.
Qed.

(** X24.  What [sanitize_input] returns: the same keys in the same order;
    values that are not strings as they were; and for every string a
    subsequence of it (characters are deleted, never replaced or escaped)
    of at most 1000 characters that holds none of the characters the
    sanitiser deletes. *)
Theorem sanitize_input_output data :
  map fst (sanitize_input data) = map fst data
  /\ Forall2
       (fun before after =>
          match snd before with
          | PyStr s =>
              exists s', snd after = PyStr s'
                         /\ sublist s' s
                         /\ (length s' <= 1000)%nat
                         /\ Forall (fun c => dangerous c = false) s'
          | v => snd after = v
          end) data (sanitize_input data).
Proof.
  split.
  - unfold sanitize_input. rewrite map_map. reflexivity.
  - unfold sanitize_input. induction data as [|[k v] data IH]; simpl; constructor; [|exact IH].
    simpl. destruct v; simpl; try reflexivity.
    exists (sanitize_str s). split; [reflexivity|].
    destruct (sanitize_str_is_cut s) as (i & j & k' & Hcut).
    assert (Hsub : sublist (sanitize_str s) (List.filter (fun c => negb (dangerous c)) s)).
    { rewrite Hcut. etransitivity; [apply sublist_take|].
      etransitivity; [apply sublist_take|]. apply sublist_drop. }
    split; [etransitivity; [exact Hsub|apply filter_sublist]|].
    split.
    + unfold sanitize_str.
      destruct (Nat.ltb_spec 1000 (length (strip (List.filter (fun c => negb (dangerous c)) s))));
        [rewrite length_firstn; lia|lia].
    + assert (Hf : Forall (fun c => dangerous c = false)
                     (List.filter (fun c => negb (dangerous c)) s)).
      { apply List.Forall_forall. intros c Hc. apply List.filter_In in Hc as [_ Hc].
        apply negb_true_iff in Hc. exact Hc. }
      exact (sublist_keeps_Forall _ _ _ Hsub Hf).
Qed.
End SanitizerFacts.

Lemma last_cookie_wins_witness :
  @AuthMiddleware._extract_session_token ascii_only
    (py "theme=dark; session_token=old" ++ py ";" ++ py " " ++ py "session_token=" ++ py "new=1")
  = Some (py "new=1").
Proof.
  refine (@last_cookie_wins ascii_only (py "theme=dark; session_token=old") (py " ")
            (py "new=1") eq_refl _ eq_refl).
  simpl. intros H. repeat (destruct H as [H|H]; [discriminate H|]). exact H.
Defined.
